(** * The claimable-capital cache and its batch-fetch coordinator

    A shallow embedding of

    - [providers/claimable-capital-cache.provider.tsx]
      ([RedeemableCapitalCacheProvider]: the store, TTL, eviction, sweeps,
      loading flags and in-flight handles), and
    - the [useAssetOperations] hook ([fetchClaimableCapital],
      [retryFailedFetches]).

    Modelling conventions.

    - A JavaScript [Map] iterates in insertion order, and the eviction scan
      depends on that order: the contents of a [Map<string, _>] are an
      association list, oldest insertion first.  React compares states by
      object identity, so a map held in state also carries the identity of
      its object ([oid]).
    - [loadingBonds] is a [Set<string>] (a [gset]); [inflightRequests] is a
      [Map<string, Promise>] whose order is never observed (a [gmap] from
      keys to promise identities).
    - [Date.now()] reads an external clock.  The n-th read of a run returns
      [clock n]; the world counts the reads made so far.
    - A state updater passed to [setCache] / [setLoadingBonds] is run by
      React, not by the caller: when the provider next renders or, for an
      update issued while nothing is pending, possibly at the call (React's
      eager path).  The operations of the provider ([setCachedValue],
      [clearCacheEntry], the sweeps, [setLoadingState]) are defined as the
      runs of their updaters, applied to the latest state in the order the
      updates were issued: what is proved of them describes the store once
      React has applied the update.  [Queued] keeps the call and the run
      apart, for code that reads [cacheRef] between the two
      ([retryFailedFetches]).
    - A read of state ([isLoading], [getCacheStats]) sees the state as last
      computed.
    - Code runs from one suspension point to the next without interleaving;
      an [async] function is split at its [await]s. *)

From stdpp Require Import gmap strings list.
From Stdlib Require Import ZArith Lia.

Open Scope string_scope.
Open Scope Z_scope.

(** ** Data model *)

(** [interface CachedRedeemableCapital]. *)
Record CachedRedeemableCapital := mkEntry {
  value : string;
  timestamp : Z;
  error : option string
}.

(** [interface RedeemableCapitalCacheOptions]: both fields optional. *)
Record RedeemableCapitalCacheOptions := mkOptions {
  opt_ttl : option Z;
  opt_maxSize : option Z
}.

(** [const { ttl = 300000, maxSize = 1000 } = options]. *)
Definition ttl_of (options : RedeemableCapitalCacheOptions) : Z :=
  default 300000 (opt_ttl options).

Definition maxSize_of (options : RedeemableCapitalCacheOptions) : Z :=
  default 1000 (opt_maxSize options).

(** The contents of a [Map<string, V>], in insertion order. *)
Module JsMap.
Section Ops.
Context {V : Type}.

(** [m.get(k)]. *)
Fixpoint get (k : string) (m : list (string * V)) : option V :=
  match m with
  | [] => None
  | (k', v) :: m' => if String.eqb k k' then Some v else get k m'
  end.

(** [m.has(k)]. *)
Definition has (k : string) (m : list (string * V)) : bool :=
  match get k m with Some _ => true | None => false end.

(** [m.set(k, v)]: an existing key keeps its position, a new key goes
    last. *)
Fixpoint set (k : string) (v : V) (m : list (string * V))
  : list (string * V) :=
  match m with
  | [] => [(k, v)]
  | (k', v') :: m' =>
      if String.eqb k k' then (k, v) :: m' else (k', v') :: set k v m'
  end.

(** [m.delete(k)]. *)
Fixpoint delete (k : string) (m : list (string * V)) : list (string * V) :=
  match m with
  | [] => []
  | (k', v') :: m' =>
      if String.eqb k k' then m' else (k', v') :: delete k m'
  end.

(** [m.size]. *)
Definition size (m : list (string * V)) : nat := length m.

Definition keys (m : list (string * V)) : list string := map fst m.

(** Keys of a [Map] are unique. *)
Definition wf (m : list (string * V)) : Prop := NoDup (keys m).
End Ops.
End JsMap.

(** A [Map] object held in React state or in a ref: identity and
    contents.  The provider never mutates a map after publishing it. *)
Record MapObj := mkMap {
  oid : nat;
  entries : list (string * CachedRedeemableCapital)
}.

(** Everything the provider and the hook can read or write. *)
Record World := mkWorld {
  cache : MapObj;                       (* useState: cache *)
  cacheRef : MapObj;                    (* useRef: cacheRef.current *)
  loadingBonds : gset string;           (* useState: loadingBonds *)
  inflightRequests : gmap string nat;   (* useRef: key -> promise *)
  finallyCallbacks : gmap nat (list string);
    (* promise -> keys whose [finally] clean-up is attached to it *)
  fetchLog : list (list string);
    (* arguments of the calls to BondService.getClaimablePrincipalForBonds *)
  ticks : nat;                          (* clock reads so far *)
  next_id : nat                         (* next fresh object identity *)
}.

Definition with_cache (c : MapObj) (w : World) : World :=
  mkWorld c (cacheRef w) (loadingBonds w) (inflightRequests w)
          (finallyCallbacks w) (fetchLog w) (ticks w) (next_id w).

Definition with_cacheRef (c : MapObj) (w : World) : World :=
  mkWorld (cache w) c (loadingBonds w) (inflightRequests w)
          (finallyCallbacks w) (fetchLog w) (ticks w) (next_id w).

Definition with_loadingBonds (s : gset string) (w : World) : World :=
  mkWorld (cache w) (cacheRef w) s (inflightRequests w)
          (finallyCallbacks w) (fetchLog w) (ticks w) (next_id w).

Definition with_inflightRequests (m : gmap string nat) (w : World) : World :=
  mkWorld (cache w) (cacheRef w) (loadingBonds w) m
          (finallyCallbacks w) (fetchLog w) (ticks w) (next_id w).

Definition with_finallyCallbacks (m : gmap nat (list string)) (w : World)
  : World :=
  mkWorld (cache w) (cacheRef w) (loadingBonds w) (inflightRequests w)
          m (fetchLog w) (ticks w) (next_id w).

Definition with_fetchLog (l : list (list string)) (w : World) : World :=
  mkWorld (cache w) (cacheRef w) (loadingBonds w) (inflightRequests w)
          (finallyCallbacks w) l (ticks w) (next_id w).

Definition with_ticks (n : nat) (w : World) : World :=
  mkWorld (cache w) (cacheRef w) (loadingBonds w) (inflightRequests w)
          (finallyCallbacks w) (fetchLog w) n (next_id w).

Definition with_next_id (n : nat) (w : World) : World :=
  mkWorld (cache w) (cacheRef w) (loadingBonds w) (inflightRequests w)
          (finallyCallbacks w) (fetchLog w) (ticks w) n.

(** The provider just mounted: [useState(new Map())], [useRef(new Map())]. *)
Definition initial_world : World :=
  mkWorld (mkMap 0 []) (mkMap 1 []) ∅ ∅ ∅ [] 0 2.

(** ** A state-and-exception monad for the JavaScript code *)

Inductive Result (A : Type) : Type :=
| Normal (a : A)
| Thrown (e : string).
Arguments Normal {A} a.
Arguments Thrown {A} e.

Definition M (A : Type) : Type := World -> Result A * World.

Definition ret {A} (a : A) : M A := fun w => (Normal a, w).

Definition bind {A B} (m : M A) (k : A -> M B) : M B :=
  fun w =>
    match m w with
    | (Normal a, w') => k a w'
    | (Thrown e, w') => (Thrown e, w')
    end.

Notation "'let!' x ':=' m 'in' k" := (bind m (fun x => k))
  (at level 10, x name, m at level 100, k at level 200).
Notation "'run' m 'then' k" := (bind m (fun _ => k))
  (at level 10, m at level 100, k at level 200).

(** [throw e]. *)
Definition throw {A} (e : string) : M A := fun w => (Thrown e, w).

(** [try { body } catch (e) { handler(e) }]. *)
Definition try_catch {A} (body : M A) (handler : string -> M A) : M A :=
  fun w =>
    match body w with
    | (Normal a, w') => (Normal a, w')
    | (Thrown e, w') => handler e w'
    end.

Definition gets {A} (f : World -> A) : M A := fun w => (Normal (f w), w).
Definition modify (f : World -> World) : M unit := fun w => (Normal tt, f w).

(** [xs.forEach(f)]. *)
Fixpoint forEach {A} (xs : list A) (f : A -> M unit) : M unit :=
  match xs with
  | [] => ret tt
  | x :: xs' => run f x then forEach xs' f
  end.

(** [xs.filter(p)]. *)
Fixpoint filterM {A} (xs : list A) (p : A -> M bool) : M (list A) :=
  match xs with
  | [] => ret []
  | x :: xs' =>
      let! b := p x in
      let! rest := filterM xs' p in
      ret (if b then x :: rest else rest)
  end.

(** The world a computation leaves behind, and what it returns. *)
Definition exec {A} (m : M A) (w : World) : World := snd (m w).
Definition result {A} (m : M A) (w : World) : Result A := fst (m w).

(** [xs.forEach(f)] where the callback updates variables of the enclosing
    function: those variables are the accumulator. *)
Fixpoint foldM {A S} (xs : list A) (f : S -> A -> M S) (s : S) : M S :=
  match xs with
  | [] => ret s
  | x :: xs' => let! s' := f s x in foldM xs' f s'
  end.

(** JavaScript truthiness of a string: only the empty string is falsy. *)
Definition truthy (s : string) : bool := negb (String.eqb s "").

(** ** The provider: [RedeemableCapitalCacheProvider] *)

Section Provider.
Variable clock : nat -> Z.   (* the successive values of Date.now() *)
Variable ttl : Z.
Variable maxSize : Z.

(** [Date.now()]. *)
Definition Date_now : M Z :=
  fun w => (Normal (clock (ticks w)), with_ticks (S (ticks w)) w).

(** [new Map(contents)]: a fresh object. *)
Definition new_Map (contents : list (string * CachedRedeemableCapital))
  : M MapObj :=
  fun w =>
    (Normal (mkMap (next_id w) contents), with_next_id (S (next_id w)) w).

(** [setCache(updater)], when React runs the updater: it receives the
    latest state, and what it returns is the next state.  The call itself
    only hands the updater to React ([Queued.setCache]). *)
Definition setCache (updater : MapObj -> M MapObj) : M unit :=
  let! prevCache := gets cache in
  let! newCache := updater prevCache in
  modify (with_cache newCache).

(** [setLoadingBonds(updater)], when React runs the updater. *)
Definition setLoadingBonds (updater : gset string -> gset string) : M unit :=
  modify (fun w => with_loadingBonds (updater (loadingBonds w)) w).

Definition isEntryValid (entry : CachedRedeemableCapital) : M bool :=
  let! now := Date_now in
  ret (now - timestamp entry <? ttl).

Definition getCachedValue (bondId : string)
  : M (option CachedRedeemableCapital) :=
  let! current := gets cacheRef in
  match JsMap.get bondId (entries current) with
  | Some entry =>
      let! valid := isEntryValid entry in
      ret (if valid then Some entry else None)
  | None => ret None
  end.

(** One step of the scan for the oldest entry: the callback of
    [newCache.forEach] over [(oldestKey, oldestTimestamp)]. *)
Definition oldest_step (acc : option string * Z)
           (kv : string * CachedRedeemableCapital) : option string * Z :=
  if timestamp (snd kv) <? snd acc
  then (Some (fst kv), timestamp (snd kv))
  else acc.

(** The eviction block of [setCachedValue]: the contents of [newCache]
    after [if (newCache.size >= maxSize) { ... }]. *)
Definition evict_if_full (contents : list (string * CachedRedeemableCapital))
  : M (list (string * CachedRedeemableCapital)) :=
  if maxSize <=? Z.of_nat (JsMap.size contents) then
    let! now := Date_now in
    match fst (fold_left oldest_step contents (None, now)) with
    | Some oldestKey =>
        if truthy oldestKey
        then ret (JsMap.delete oldestKey contents)
        else ret contents
    | None => ret contents
    end
  else ret contents.

Definition setCachedValue (bondId value : string) (error : option string)
  : M unit :=
  setCache (fun prevCache =>
    let! newCache := new_Map (entries prevCache) in
    let! contents := evict_if_full (entries newCache) in
    let! now := Date_now in
    let newCache' :=
      mkMap (oid newCache)
            (JsMap.set bondId (mkEntry value now error) contents) in
    run modify (with_cacheRef newCache') then
    ret newCache').

Definition hasCachedValue (bondId : string) : M bool :=
  let! entry := getCachedValue bondId in
  ret (match entry with Some _ => true | None => false end).

Definition clearCache : M unit :=
  let! fresh_state := new_Map [] in
  run modify (with_cache fresh_state) then
  let! fresh_ref := new_Map [] in
  run modify (with_cacheRef fresh_ref) then
  run setLoadingBonds (fun _ => ∅) then
  modify (with_inflightRequests ∅).

Definition clearCacheEntry (bondId : string) : M unit :=
  run setCache (fun prevCache =>
    let! newCache := new_Map (entries prevCache) in
    let newCache' :=
      mkMap (oid newCache) (JsMap.delete bondId (entries newCache)) in
    run modify (with_cacheRef newCache') then
    ret newCache') then
  setLoadingBonds (fun prev => prev ∖ {[bondId]}).

(** The manual sweep. *)
Definition cleanExpiredEntries : M unit :=
  setCache (fun prevCache =>
    let! newCache := new_Map [] in
    let! contents :=
      foldM (entries prevCache)
            (fun acc kv =>
               let! valid := isEntryValid (snd kv) in
               ret (if valid then JsMap.set (fst kv) (snd kv) acc else acc))
            (entries newCache) in
    let newCache' := mkMap (oid newCache) contents in
    run modify (with_cacheRef newCache') then
    ret newCache').

(** The callback of the [setInterval] timer: the periodic sweep.  The
    accumulator is [(newCache, hasExpiredEntries)]. *)
Definition cleanupInterval : M unit :=
  setCache (fun prevCache =>
    let! newCache := new_Map [] in
    let! swept :=
      foldM (entries prevCache)
            (fun acc kv =>
               let! now := Date_now in
               if now - timestamp (snd kv) <? ttl
               then ret (JsMap.set (fst kv) (snd kv) (fst acc), snd acc)
               else ret (fst acc, true))
            (entries newCache, false) in
    if snd swept then
      let newCache' := mkMap (oid newCache) (fst swept) in
      run modify (with_cacheRef newCache') then
      ret newCache'
    else ret prevCache).

Definition setLoadingState (bondId : string) (loading : bool) : M unit :=
  setLoadingBonds (fun prevLoading =>
    if loading then prevLoading ∪ {[bondId]} else prevLoading ∖ {[bondId]}).

Definition isLoading (bondId : string) : M bool :=
  gets (fun w => bool_decide (bondId ∈ loadingBonds w)).

Definition getInflightRequest (bondId : string) : M (option nat) :=
  gets (fun w => inflightRequests w !! bondId).

(** The callback handed to [promise.finally] by [setInflightRequest]. *)
Definition inflight_cleanup (bondId : string) : M unit :=
  modify (fun w =>
    with_inflightRequests (base.delete bondId (inflightRequests w)) w).

Definition setInflightRequest (bondId : string) (promise : nat) : M unit :=
  run modify (fun w =>
    with_inflightRequests (<[bondId := promise]> (inflightRequests w)) w)
  then
  modify (fun w =>
    with_finallyCallbacks
      (<[promise := (default [] (finallyCallbacks w !! promise) ++ [bondId])%list]>
         (finallyCallbacks w)) w).

Definition hasInflightRequest (bondId : string) : M bool :=
  gets (fun w => bool_decide (is_Some (inflightRequests w !! bondId))).

(** [getCacheStats()]: size, maxSize, loadingCount, inflightCount. *)
Definition getCacheStats : M (nat * Z * nat * nat) :=
  gets (fun w =>
    (JsMap.size (entries (cache w)), maxSize,
     size (loadingBonds w), size (inflightRequests w))).

End Provider.

(** ** The hook: [useAssetOperations] *)

(** [interface BondingStatus]; the hook reads nothing but [id]. *)
Record BondingStatus := mkAsset { id : string }.

(** [interface LazyClaimablePrincipalResult]. *)
Record LazyClaimablePrincipalResult := mkResult {
  bondId : string;
  claimableAmount : string;
  result_error : option string
}.

(** How the promise of [BondService.getClaimablePrincipalForBonds]
    settles. *)
Inductive Outcome : Type :=
| Fulfilled (results : list LazyClaimablePrincipalResult)
| Rejected (reason : string).

(** Where a call of [fetchClaimableCapital] stands when it first gives up
    control. *)
Inductive Suspended : Type :=
| Returned
    (* nothing to fetch, nothing to wait for *)
| AwaitingInflight (handles : list (option nat))
    (* await Promise.allSettled(...) on requests of earlier calls *)
| AwaitingOperation (operationPromise : nat) (assetIds : list string).
    (* await operationPromise *)

(** [await p] for a promise settling as [o]. *)
Definition await (o : Outcome) : M (list LazyClaimablePrincipalResult) :=
  match o with
  | Fulfilled results => ret results
  | Rejected reason => throw reason
  end.

Section Hook.
Variable clock : nat -> Z.
Variable ttl : Z.
Variable maxSize : Z.

(** The call itself: the requests leave when the function is invoked. *)
Definition BondService_getClaimablePrincipalForBonds
           (bondIds : list string) : M unit :=
  modify (fun w => with_fetchLog (fetchLog w ++ [bondIds])%list w).

(** A fresh promise object. *)
Definition new_Promise : M nat :=
  fun w => (Normal (next_id w), with_next_id (S (next_id w)) w).

(** The immediately invoked [async () => { try ... catch ... }], up to
    its [await]. *)
Definition operation_start (assetIds : list string) : M nat :=
  run BondService_getClaimablePrincipalForBonds assetIds then
  new_Promise.

(** The rest of it, once the service promise has settled:
    [console.error] has no effect on the world, the error is thrown
    again. *)
Definition operation_finish (service : Outcome)
  : M (list LazyClaimablePrincipalResult) :=
  try_catch (let! results := await service in ret results)
            (fun error => throw error).

(** [fetchClaimableCapital], up to its first [await]. *)
Definition fetchClaimableCapital (assets : list BondingStatus)
  : M Suspended :=
  let! assetsNeedingFetch :=
    filterM assets (fun asset =>
      let! cached := hasCachedValue clock ttl (id asset) in
      if cached then ret false
      else
        let! inflight := hasInflightRequest (id asset) in
        ret (negb inflight)) in
  if Nat.eqb (length assetsNeedingFetch) 0 then
    let! waitingAssets :=
      filterM assets (fun asset => hasInflightRequest (id asset)) in
    if Nat.ltb 0 (length waitingAssets) then
      let! handles :=
        foldM waitingAssets
              (fun acc asset =>
                 let! handle := getInflightRequest (id asset) in
                 ret (acc ++ [handle])%list)
              [] in
      ret (AwaitingInflight handles)
    else ret Returned
  else
    let assetIds := map id assetsNeedingFetch in
    run forEach assetIds (fun assetId => setLoadingState assetId true) then
    let! operationPromise := operation_start assetIds in
    run forEach assetIds
        (fun assetId => setInflightRequest assetId operationPromise) then
    ret (AwaitingOperation operationPromise assetIds).

(** [fetchClaimableCapital] after [await operationPromise]: the
    [try]/[catch] around the write-back, then the loading flags. *)
Definition fetchClaimableCapital_resume
           (assetIds : list string) (service : Outcome) : M unit :=
  run try_catch
      (let! results := operation_finish service in
       forEach results (fun fetchResult =>
         setCachedValue clock maxSize
                        (bondId fetchResult)
                        (claimableAmount fetchResult)
                        (result_error fetchResult)))
      (fun _ =>
         forEach assetIds (fun assetId =>
           setCachedValue clock maxSize assetId "0"
                          (Some "Failed to load")))
  then
  forEach assetIds (fun assetId => setLoadingState assetId false).

(** [operationPromise] settles: its reactions run in the order they were
    attached, the [finally] clean-ups of [setInflightRequest] first, the
    continuation of [fetchClaimableCapital] after them. *)
Definition operationPromise_settles
           (operationPromise : nat) (assetIds : list string)
           (service : Outcome) : M unit :=
  let! callbacks :=
    gets (fun w => default [] (finallyCallbacks w !! operationPromise)) in
  run modify (fun w =>
    with_finallyCallbacks
      (base.delete operationPromise (finallyCallbacks w)) w) then
  run forEach callbacks inflight_cleanup then
  fetchClaimableCapital_resume assetIds service.

(** The clears of [retryFailedFetches] applied, then its fetch: the order
    its comment ("Clear error state before retrying") asks for.  The code
    itself, whose clears are still queued when the filter of
    [fetchClaimableCapital] reads [cacheRef], is
    [Queued.retryFailedFetches]. *)
Definition clears_then_fetch
           (assetIds : list string) (data : list BondingStatus)
  : M Suspended :=
  let assetsToRetry :=
    List.filter (fun asset => existsb (String.eqb (id asset)) assetIds)
                data in
  run forEach assetIds clearCacheEntry then
  fetchClaimableCapital assetsToRetry.

End Hook.

(** Clocks and inputs for the worked examples. *)

(** A clock that advances by one millisecond at every read, from 100. *)
Definition ticking_clock (n : nat) : Z := 100 + Z.of_nat n.

(** A clock that reads 100 for the whole run: everything happens within
    one millisecond. *)
Definition frozen_clock (n : nat) : Z := 100.

(** The calls [fetchFn] received between two worlds. *)
Definition invocations_for (k : string) (log : list (list string)) : nat :=
  length (List.filter (existsb (String.eqb k)) log).

(** The batch a call of [fetchClaimableCapital] sent to the service. *)
Definition batch_of (s : Result Suspended) : list (list string) :=
  match s with
  | Normal (AwaitingOperation _ assetIds) => [assetIds]
  | _ => []
  end.

(** What the eviction block leaves of [contents] when the map is full and
    the clock reads [now]. *)
Definition evict_contents (now : Z)
           (contents : list (string * CachedRedeemableCapital))
  : list (string * CachedRedeemableCapital) :=
  match fst (fold_left oldest_step contents (None, now)) with
  | Some oldestKey =>
      if truthy oldestKey then JsMap.delete oldestKey contents else contents
  | None => contents
  end.

(** The world [setCachedValue] leaves behind, written out. *)
Definition setCachedValue_world (clock : nat -> Z) (maxSize : Z)
           (bondId value : string) (error : option string) (w : World)
  : World :=
  let full := maxSize <=? Z.of_nat (JsMap.size (entries (cache w))) in
  let t := if full then S (ticks w) else ticks w in
  let contents :=
    if full then evict_contents (clock (ticks w)) (entries (cache w))
    else entries (cache w) in
  let newCache :=
    mkMap (next_id w)
          (JsMap.set bondId (mkEntry value (clock t) error) contents) in
  mkWorld newCache newCache (loadingBonds w) (inflightRequests w)
          (finallyCallbacks w) (fetchLog w) (S t) (S (next_id w)).

(** The map a sweep builds from [m], starting with [acc], when the clock
    has been read [t] times before: one read per entry. *)
Fixpoint sweep_from (clock : nat -> Z) (ttl : Z) (t : nat)
         (m acc : list (string * CachedRedeemableCapital))
  : list (string * CachedRedeemableCapital) :=
  match m with
  | [] => acc
  | kv :: m' =>
      sweep_from clock ttl (S t) m'
        (if clock t - timestamp (snd kv) <? ttl
         then JsMap.set (fst kv) (snd kv) acc else acc)
  end.

(** The flag [hasExpiredEntries] of the periodic sweep. *)
Fixpoint expired_from (clock : nat -> Z) (ttl : Z) (t : nat)
         (m : list (string * CachedRedeemableCapital)) (flag : bool) : bool :=
  match m with
  | [] => flag
  | kv :: m' =>
      expired_from clock ttl (S t) m'
        (if clock t - timestamp (snd kv) <? ttl then flag else true)
  end.

(** Validity of an entry at the instant [now]. *)
Definition valid_at (ttl now : Z) (kv : string * CachedRedeemableCapital)
  : bool :=
  now - timestamp (snd kv) <? ttl.

(** Well-formed worlds: map keys are unique, the ref mirrors the state,
    and the objects in use are older than the next fresh identity. *)
Definition World_ok (w : World) : Prop :=
  JsMap.wf (entries (cache w)) /\
  entries (cacheRef w) = entries (cache w) /\
  (oid (cache w) < next_id w)%nat /\
  (oid (cacheRef w) < next_id w)%nat.

(** A store holding one entry for "A", stamped 100, read when the clock
    shows 300100. *)
Definition stale_world : World :=
  let m := mkMap 0 [("A", mkEntry "1" 100 None)] in
  mkWorld m m ∅ ∅ ∅ [] 0 1.

Definition late_clock (n : nat) : Z := 300100.

(** Two entries, "A" stamped 100 and "B" stamped 250000; the clock stands
    at 300200, so "A" has expired under the default TTL and "B" has not. *)
Definition mixed_world : World :=
  let m :=
    mkMap 0 [("A", mkEntry "1" 100 None); ("B", mkEntry "2" 250000 None)] in
  mkWorld m m ∅ ∅ ∅ [] 0 1.

Definition sweep_clock (n : nat) : Z := 300200.

(** The assets [fetchClaimableCapital] keeps in [assetsNeedingFetch], and
    the number of clock reads after the filter, when the filter starts
    after [t] reads: [hasCachedValue] reads the clock once for each asset
    that has an entry. *)
Fixpoint needing_fetch (clock : nat -> Z) (ttl : Z)
         (cached : list (string * CachedRedeemableCapital))
         (inflight : gmap string nat) (t : nat) (assets : list BondingStatus)
  : list BondingStatus * nat :=
  match assets with
  | [] => ([], t)
  | asset :: rest =>
      let pending := bool_decide (is_Some (inflight !! id asset)) in
      match JsMap.get (id asset) cached with
      | Some entry =>
          let r := needing_fetch clock ttl cached inflight (S t) rest in
          if clock t - timestamp entry <? ttl then r
          else if pending then r else (asset :: fst r, snd r)
      | None =>
          let r := needing_fetch clock ttl cached inflight t rest in
          if pending then r else (asset :: fst r, snd r)
      end
  end.

(** The world after [fetchClaimableCapital] has issued the batch [assetIds]:
    loading flags, the service call and its promise, the in-flight
    registrations. *)
Definition issue_world (assetIds : list string) (w : World) : World :=
  let w1 :=
    fold_left (fun w k => exec (setLoadingState k true) w) assetIds w in
  let p := next_id w1 in
  let w2 := exec (operation_start assetIds) w1 in
  fold_left (fun w k => exec (setInflightRequest k p) w) assetIds w2.

(** The world once the [finally] clean-ups attached to [operationPromise]
    have run. *)
Definition cleanup_world (operationPromise : nat) (w : World) : World :=
  fold_left (fun w k => exec (inflight_cleanup k) w)
            (default [] (finallyCallbacks w !! operationPromise))
            (with_finallyCallbacks
               (base.delete operationPromise (finallyCallbacks w)) w).

(** The write-back of a rejected batch and of a fulfilled one. *)
Definition write_failures (clock : nat -> Z) (maxSize : Z)
           (assetIds : list string) (w : World) : World :=
  fold_left
    (fun w k =>
       setCachedValue_world clock maxSize k "0" (Some "Failed to load") w)
    assetIds w.

Definition write_results (clock : nat -> Z) (maxSize : Z)
           (results : list LazyClaimablePrincipalResult) (w : World) : World :=
  fold_left
    (fun w r =>
       setCachedValue_world clock maxSize (bondId r) (claimableAmount r)
                            (result_error r) w)
    results w.


(** A normalized failure entry. *)
Definition is_failure_entry (o : option CachedRedeemableCapital) : Prop :=
  exists entry,
    o = Some entry /\ value entry = "0" /\
    error entry = Some "Failed to load".

(** The items [retryFailedFetches] hands to [fetchClaimableCapital]. *)
Definition assetsToRetry (assetIds : list string) (data : list BondingStatus)
  : list BondingStatus :=
  List.filter (fun asset => existsb (String.eqb (id asset)) assetIds) data.

(** The world after [assetIds.forEach(clearCacheEntry)]. *)
Definition clear_world (assetIds : list string) (w : World) : World :=
  fold_left (fun w k => exec (clearCacheEntry k) w) assetIds w.

(** A store in which the fetch of "B" has failed. *)
Definition failed_B_world : World :=
  let m := mkMap 2 [("B", mkEntry "0" 100 (Some "Failed to load"))] in
  mkWorld m m ∅ ∅ ∅ [["B"]] 1 4.

(** ** The service: [BondService.getClaimablePrincipalForBonds] *)

(** A value thrown, or the reason of a rejected promise: an [Error] object
    with its message, or anything else. *)
Inductive Thrown_value : Type :=
| ErrorObject (message : string)
| OtherValue.

(** How one call of [BondService.getClaimablePrincipal(id)] ends: with a
    [ClaimablePrincipalResponse], or rejected. *)
Inductive ItemOutcome : Type :=
| ItemResolved (claimableAmount : string)
| ItemRejected (reason : Thrown_value).

(** [error instanceof Error ? error.message : 'Unknown error']. *)
Definition error_text (error : Thrown_value) : string :=
  match error with
  | ErrorObject message => message
  | OtherValue => "Unknown error"
  end.

(** The [async (bondId) => { try ... catch ... }] handed to
    [bondIds.map]: how its promise settles, given how the call it awaits
    ends. *)
Definition claimable_item (bondId : string) (o : ItemOutcome)
  : Thrown_value + LazyClaimablePrincipalResult :=
  match o with
  | ItemResolved claimableAmount =>
      inr (mkResult bondId claimableAmount None)
  | ItemRejected error =>
      inr (mkResult bondId "0" (Some (error_text error)))
  end.

(** [Promise.all]: fulfilled with all the values, in order, or rejected
    with a reason of one of the promises. *)
Fixpoint Promise_all {A} (settled : list (Thrown_value + A))
  : Thrown_value + list A :=
  match settled with
  | [] => inr []
  | inl reason :: _ => inl reason
  | inr a :: rest =>
      match Promise_all rest with
      | inl reason => inl reason
      | inr values => inr (a :: values)
      end
  end.

(** [bondIds.map(async (bondId) => ...)], the call for the i-th id ending
    as [respond i]. *)
Fixpoint claimable_items (respond : nat -> ItemOutcome) (i : nat)
         (bondIds : list string)
  : list (Thrown_value + LazyClaimablePrincipalResult) :=
  match bondIds with
  | [] => []
  | bondId :: rest =>
      claimable_item bondId (respond i) :: claimable_items respond (S i) rest
  end.

(** [getClaimablePrincipalForBonds(bondIds)]: how its promise settles. *)
Definition getClaimablePrincipalForBonds
           (respond : nat -> ItemOutcome) (bondIds : list string)
  : Thrown_value + list LazyClaimablePrincipalResult :=
  match bondIds with
  | [] => inr []
  | _ :: _ => Promise_all (claimable_items respond 0 bondIds)
  end.

(** The settlement as [fetchClaimableCapital] sees it. *)
Definition service_outcome
           (settled : Thrown_value + list LazyClaimablePrincipalResult)
  : Outcome :=
  match settled with
  | inr results => Fulfilled results
  | inl reason => Rejected (error_text reason)
  end.

(** ** The hook: [handlePrimaryOperation] *)

(** How the promise of [config.primaryOperation.handler] settles. *)
Inductive HandlerOutcome : Type :=
| HandlerResolved
| HandlerRejected (reason : string).

(** Where [handlePrimaryOperation] stands when it first gives up
    control. *)
Inductive PrimarySuspended : Type :=
| PrimaryReturned (answer : bool)
| PrimaryAwaitingHandler.

Section PrimaryOperation.
Variable Decimal : Type.
(* caller-supplied code *)
Variable handler : Decimal -> string -> M unit.
Variable onTransactionSuccess : option (M unit).
Variable setIsProcessing : bool -> M unit.

(** [handlePrimaryOperation], up to [await handler(amount, assetId)]; a
    missing amount is [None]. *)
Definition handlePrimaryOperation (amount : option Decimal) (assetId : string)
  : M PrimarySuspended :=
  match amount with
  | None => ret (PrimaryReturned false)
  | Some amount =>
      run setIsProcessing true then
      try_catch
        (run handler amount assetId then ret PrimaryAwaitingHandler)
        (fun error => run setIsProcessing false then throw error)
  end.

(** [handlePrimaryOperation] after the [await]. *)
Definition handlePrimaryOperation_resume (assetId : string)
           (settled : HandlerOutcome) : M bool :=
  try_catch
    (run match settled with
         | HandlerResolved => ret tt
         | HandlerRejected reason => throw reason
         end then
     run clearCacheEntry assetId then
     run match onTransactionSuccess with
         | Some callback => callback
         | None => ret tt
         end then
     run setIsProcessing false then
     ret true)
    (fun error => run setIsProcessing false then throw error).

End PrimaryOperation.

(** ** The redeem form: the action of [AssetRedeemForm] *)

(** [AssetRedeemFormSelectAssetData]; the action reads nothing but
    [bondId]. *)
Record AssetRedeemFormSelectAssetData := mkSelected { selected_bondId : string }.

Inductive RedeemSuspended : Type :=
| RedeemAwaitingSubmit.

Section RedeemForm.
Variable TxResult : Type.
(* caller-supplied code *)
Variable onSubmitRedeem : Z -> string -> M unit.
Variable onAssetTableRefresh : M unit.

(** The first [Action] of the form, up to [await onSubmitRedeem(...)].
    The type of [redeemAmount] is declared with the token input, outside
    these sources; the action tests it for falsiness and for equality with
    [BigInt(0)] and hands it to [onSubmitRedeem], which takes a bigint: a
    bigint or nothing.  A thrown [SDKError] is its message. *)
Definition redeem_action
           (selectedAsset : option AssetRedeemFormSelectAssetData)
           (redeemAmount : option Z) : M RedeemSuspended :=
  match selectedAsset with
  | None => throw "Asset must be selected to perform redeem"
  | Some selectedAsset =>
      match redeemAmount with
      | None => throw "Redeem must have value to perform redeem"
      | Some amount =>
          if amount =? 0
          then throw "Redeem must have value to perform redeem"
          else
            try_catch
              (run clearCacheEntry (selected_bondId selectedAsset) then
               run onSubmitRedeem amount (selected_bondId selectedAsset) then
               ret RedeemAwaitingSubmit)
              (fun error => run onAssetTableRefresh then throw error)
      end
  end.

(** The action after the [await]: the table is refreshed either way, the
    result is returned or the failure thrown again with its message. *)
Definition redeem_action_resume (settled : string + TxResult) : M TxResult :=
  try_catch
    (let! result :=
       match settled with
       | inr result => ret result
       | inl message => throw message
       end in
     run onAssetTableRefresh then
     ret result)
    (fun error => run onAssetTableRefresh then throw error).

End RedeemForm.

(** ** More about worlds *)

(** No clean-up is attached to a promise that does not exist yet. *)
Definition Callbacks_ok (w : World) : Prop :=
  forall p, (next_id w <= p)%nat -> finallyCallbacks w !! p = None.

(** Every timestamp in the map is strictly earlier than the next clock
    reading, and no key is the empty string. *)
Definition Entries_older (clock : nat -> Z) (w : World) : Prop :=
  forall x, In x (entries (cache w)) ->
            timestamp (snd x) < clock (ticks w) /\ fst x <> "".

(** A sequence of writes: [setCachedValue] for each triple, in order. *)
Definition write_all (clock : nat -> Z) (maxSize : Z)
           (writes : list (string * string * option string)) (w : World)
  : World :=
  fold_left
    (fun w x => exec (setCachedValue clock maxSize (fst (fst x))
                                     (snd (fst x)) (snd x)) w)
    writes w.

(** Callbacks that belong to another component: they return normally and
    leave the provider's maps, flags and handles alone. *)
Definition leaves_store (callback : M unit) : Prop :=
  forall w,
    result callback w = Normal tt /\
    cache (exec callback w) = cache w /\
    cacheRef (exec callback w) = cacheRef w /\
    loadingBonds (exec callback w) = loadingBonds w /\
    inflightRequests (exec callback w) = inflightRequests w.

(** A clock that advances by one millisecond at every read, from
    300200. *)
Definition late_ticking_clock (n : nat) : Z := 300200 + Z.of_nat n.

(** The entries of [m] stamped at [since] or later. *)
Definition fresh_count (since : Z)
           (m : list (string * CachedRedeemableCapital)) : nat :=
  length (List.filter (fun x => since <=? timestamp (snd x)) m).

(** A store at capacity for [maxSize = 2]: "X" stamped 10 and "Y" stamped
    20. *)
Definition capacity_world : World :=
  let m :=
    mkMap 0 [("X", mkEntry "1" 10 None); ("Y", mkEntry "2" 20 None)] in
  mkWorld m m ∅ ∅ ∅ [] 0 1.

(** A store in which the batch of "A" and "B" was rejected: both hold a
    failure entry, stamped 100 and 101. *)
Definition both_failed_world : World :=
  exec (operationPromise_settles ticking_clock 1000 2 ["A"; "B"]
                                 (Rejected "network down"))
       (exec (fetchClaimableCapital ticking_clock 300000
                                    [mkAsset "A"; mkAsset "B"])
             initial_world).

(** ** React's update queue *)

(** [setCache(updater)] and [setLoadingBonds(updater)] hand the updater to
    React.  React runs it when the provider next renders, after the code
    that issued it has run to its end; until then [cacheRef.current] is
    the map it was.  The one exception is React's eager path: an update
    issued while the component has no update pending may have its updater
    run at the call. *)

(** The two updates [clearCacheEntry] issues, as React runs them. *)
Definition clearCacheEntry_entry (bondId : string) : M unit :=
  setCache (fun prevCache =>
    let! newCache := new_Map (entries prevCache) in
    let newCache' :=
      mkMap (oid newCache) (JsMap.delete bondId (entries newCache)) in
    run modify (with_cacheRef newCache') then
    ret newCache').

Definition clearCacheEntry_flag (bondId : string) : M unit :=
  setLoadingBonds (fun prev => prev ∖ {[bondId]}).

(** The provider between two renders. *)
Record Fiber := mkFiber {
  store : World;
    (* the refs and the log; the state as last computed *)
  cacheUpdates : list (M unit);
    (* updaters of [cache] waiting for the render, oldest first *)
  loadingUpdates : list (M unit);
    (* updaters of [loadingBonds] waiting for the render, oldest first *)
  scheduled : bool
    (* an update has been issued since the last render *)
}.

Module Queued.

Definition Q (A : Type) : Type := Fiber -> Result A * Fiber.

Definition qret {A} (a : A) : Q A := fun f => (Normal a, f).

Definition qbind {A B} (m : Q A) (k : A -> Q B) : Q B :=
  fun f =>
    match m f with
    | (Normal a, f') => k a f'
    | (Thrown e, f') => (Thrown e, f')
    end.

Notation "'let?' x ':=' m 'in' k" := (qbind m (fun x => k))
  (at level 10, x name, m at level 100, k at level 200).
Notation "'run?' m 'then' k" := (qbind m (fun _ => k))
  (at level 10, m at level 100, k at level 200).

Definition qexec {A} (m : Q A) (f : Fiber) : Fiber := snd (m f).
Definition qresult {A} (m : Q A) (f : Fiber) : Result A := fst (m f).

(** Code that touches no state setter runs at once, on the refs. *)
Definition lift {A} (m : M A) : Q A :=
  fun f =>
    (result m (store f),
     mkFiber (exec m (store f)) (cacheUpdates f) (loadingUpdates f)
             (scheduled f)).

(** [xs.forEach(g)]. *)
Fixpoint qforEach {A} (xs : list A) (g : A -> Q unit) : Q unit :=
  match xs with
  | [] => qret tt
  | x :: xs' => run? g x then qforEach xs' g
  end.

(** [try { body } catch (e) { handler(e) }]. *)
Definition qtry_catch {A} (body : Q A) (handler : string -> Q A) : Q A :=
  fun f =>
    match body f with
    | (Normal a, f') => (Normal a, f')
    | (Thrown e, f') => handler e f'
    end.

Section Ops.
Variable clock : nat -> Z.
Variable ttl : Z.
Variable maxSize : Z.
Variable eager : bool.
  (* whether React takes its eager path for an update issued while nothing
     is pending *)

(** [setCache(updater)], [update] being the run of the updater. *)
Definition setCache (update : M unit) : Q unit :=
  fun f =>
    if negb (scheduled f) && eager
    then (Normal tt,
          mkFiber (exec update (store f)) (cacheUpdates f)
                  (loadingUpdates f) true)
    else (Normal tt,
          mkFiber (store f) (cacheUpdates f ++ [update])%list
                  (loadingUpdates f) true).

(** [setLoadingBonds(updater)].  [isLoading] reads the set of the last
    render, so nothing shows of an updater run early: it is queued. *)
Definition setLoadingBonds (update : M unit) : Q unit :=
  fun f =>
    (Normal tt,
     mkFiber (store f) (cacheUpdates f)
             (loadingUpdates f ++ [update])%list true).

(** The provider renders: React runs the queued updaters of [cache],
    then those of [loadingBonds], and the effect stores the new state in
    [cacheRef]. *)
Definition render : Q unit :=
  fun f =>
    let w1 := fold_left (fun w update => exec update w) (cacheUpdates f)
                        (store f) in
    let w2 := fold_left (fun w update => exec update w) (loadingUpdates f)
                        w1 in
    (Normal tt, mkFiber (with_cacheRef (cache w2) w2) [] [] false).

Definition setCachedValue (bondId value : string) (error : option string)
  : Q unit :=
  setCache (setCachedValue clock maxSize bondId value error).

Definition clearCacheEntry (bondId : string) : Q unit :=
  run? setCache (clearCacheEntry_entry bondId) then
  setLoadingBonds (clearCacheEntry_flag bondId).

Definition setLoadingState (bondId : string) (loading : bool) : Q unit :=
  setLoadingBonds (setLoadingState bondId loading).

(** [fetchClaimableCapital], up to its first [await]. *)
Definition fetchClaimableCapital (assets : list BondingStatus)
  : Q Suspended :=
  let? assetsNeedingFetch :=
    lift (filterM assets (fun asset =>
      let! cached := hasCachedValue clock ttl (id asset) in
      if cached then ret false
      else
        let! inflight := hasInflightRequest (id asset) in
        ret (negb inflight))) in
  if Nat.eqb (length assetsNeedingFetch) 0 then
    let? waitingAssets :=
      lift (filterM assets (fun asset => hasInflightRequest (id asset))) in
    if Nat.ltb 0 (length waitingAssets) then
      let? handles :=
        lift (foldM waitingAssets
                (fun acc asset =>
                   let! handle := getInflightRequest (id asset) in
                   ret (acc ++ [handle])%list)
                []) in
      qret (AwaitingInflight handles)
    else qret Returned
  else
    let assetIds := map id assetsNeedingFetch in
    run? qforEach assetIds (fun assetId => setLoadingState assetId true) then
    let? operationPromise := lift (operation_start assetIds) in
    run? lift (forEach assetIds
                 (fun assetId => setInflightRequest assetId operationPromise))
    then
    qret (AwaitingOperation operationPromise assetIds).

(** [fetchClaimableCapital] after [await operationPromise]. *)
Definition fetchClaimableCapital_resume
           (assetIds : list string) (service : Outcome) : Q unit :=
  run? qtry_catch
       (let? results := lift (operation_finish service) in
        qforEach results (fun fetchResult =>
          setCachedValue (bondId fetchResult)
                         (claimableAmount fetchResult)
                         (result_error fetchResult)))
       (fun _ =>
          qforEach assetIds (fun assetId =>
            setCachedValue assetId "0" (Some "Failed to load")))
  then
  qforEach assetIds (fun assetId => setLoadingState assetId false).

(** [operationPromise] settles: the [finally] clean-ups, then the
    continuation of [fetchClaimableCapital]. *)
Definition operationPromise_settles
           (operationPromise : nat) (assetIds : list string)
           (service : Outcome) : Q unit :=
  let? callbacks :=
    lift (gets (fun w =>
            default [] (finallyCallbacks w !! operationPromise))) in
  run? lift (modify (fun w =>
         with_finallyCallbacks
           (base.delete operationPromise (finallyCallbacks w)) w)) then
  run? lift (forEach callbacks inflight_cleanup) then
  fetchClaimableCapital_resume assetIds service.

(** [retryFailedFetches]; the promise of [fetchClaimableCapital] is
    dropped. *)
Definition retryFailedFetches
           (assetIds : list string) (data : list BondingStatus)
  : Q Suspended :=
  let assetsToRetry :=
    List.filter (fun asset => existsb (String.eqb (id asset)) assetIds)
                data in
  run? qforEach assetIds clearCacheEntry then
  fetchClaimableCapital assetsToRetry.

End Ops.
End Queued.

(** A provider that has rendered: nothing is queued. *)
Definition rendered (w : World) : Fiber := mkFiber w [] [] false.

(** The store once the updates [m] issues have been applied, each as it
    is issued, and the effect has stored the state in [cacheRef]. *)
Definition applied {A} (m : M A) (w : World) : World :=
  with_cacheRef (cache (exec m w)) (exec m w).

(** The store after [m] has run under the queue and the provider has
    rendered. *)
Definition rendered_after {A} (m : Queued.Q A) (f : Fiber) : World :=
  store (Queued.qexec Queued.render (Queued.qexec m f)).

(** One uninterrupted piece of code run by the provider or the hook, with
    the updates it issues applied.  A promise may settle with any outcome.
    The retry comes twice: with its clears applied before its fetch, and
    as the code runs under React's queue, followed by the render. *)
Inductive step (clock : nat -> Z) (ttl maxSize : Z) : World -> World -> Prop :=
| step_get bondId w :
    step clock ttl maxSize w (exec (getCachedValue clock ttl bondId) w)
| step_set bondId value error w :
    step clock ttl maxSize w
         (exec (setCachedValue clock maxSize bondId value error) w)
| step_clear bondId w :
    step clock ttl maxSize w (exec (clearCacheEntry bondId) w)
| step_clearAll w :
    step clock ttl maxSize w (exec clearCache w)
| step_sweep w :
    step clock ttl maxSize w (exec (cleanExpiredEntries clock ttl) w)
| step_interval w :
    step clock ttl maxSize w (exec (cleanupInterval clock ttl) w)
| step_loading bondId loading w :
    step clock ttl maxSize w (exec (setLoadingState bondId loading) w)
| step_fetch assets w :
    step clock ttl maxSize w (exec (fetchClaimableCapital clock ttl assets) w)
| step_settle p assetIds service w :
    step clock ttl maxSize w
         (exec (operationPromise_settles clock maxSize p assetIds service) w)
| step_retry assetIds data w :
    step clock ttl maxSize w
         (exec (clears_then_fetch clock ttl assetIds data) w)
| step_retry_queued eager assetIds data w :
    step clock ttl maxSize w
         (rendered_after
            (Queued.retryFailedFetches clock ttl eager assetIds data)
            (rendered w)).

(** The worlds the provider can be in. *)
Inductive reachable (clock : nat -> Z) (ttl maxSize : Z) : World -> Prop :=
| reachable_initial : reachable clock ttl maxSize initial_world
| reachable_step w w' :
    reachable clock ttl maxSize w ->
    step clock ttl maxSize w w' ->
    reachable clock ttl maxSize w'.

(** An update that keeps [P]; a provider whose store satisfies [P] and
    whose queued updates keep it. *)
Definition keeps (P : World -> Prop) (update : M unit) : Prop :=
  forall w, P w -> P (exec update w).

Definition Fiber_keeps (P : World -> Prop) (f : Fiber) : Prop :=
  P (store f) /\
  Forall (keeps P) (cacheUpdates f) /\
  Forall (keeps P) (loadingUpdates f).

(** ** Facts about maps in insertion order *)

Module JsMapFacts.
Section Facts.
Context {V : Type}.
Implicit Types (m : list (string * V)) (k : string) (v : V).

Lemma get_set_eq k v m : JsMap.get k (JsMap.set k v m) = Some v.
Proof.
  induction m as [|[k' v'] m IH]; simpl.
  - now rewrite String.eqb_refl.
  - destruct (String.eqb k k') eqn:E; simpl.
    + now rewrite String.eqb_refl.
    + now rewrite E.
Qed.

Lemma get_set_ne k k' v m :
  k <> k' -> JsMap.get k' (JsMap.set k v m) = JsMap.get k' m.
Proof.
  intros Hne. induction m as [|[k0 v0] m IH]; simpl.
  - destruct (String.eqb k' k) eqn:E; [|reflexivity].
    apply String.eqb_eq in E. congruence.
  - destruct (String.eqb k k0) eqn:E; simpl.
    + apply String.eqb_eq in E. subst k0.
      destruct (String.eqb k' k) eqn:E'; [|reflexivity].
      apply String.eqb_eq in E'. congruence.
    + now rewrite IH.
Qed.

Lemma get_In k v m : JsMap.get k m = Some v -> In (k, v) m.
Proof.
  induction m as [|[k' v'] m IH]; simpl; [discriminate|].
  destruct (String.eqb k k') eqn:E.
  - apply String.eqb_eq in E. intros [= ->]. subst. now left.
  - intros H. right. auto.
Qed.

Lemma get_None_keys k m : JsMap.get k m = None <-> ~ In k (JsMap.keys m).
Proof.
  induction m as [|[k' v'] m IH]; simpl.
  - tauto.
  - destruct (String.eqb k k') eqn:E.
    + apply String.eqb_eq in E. subst. split; [discriminate|].
      intros H. exfalso. apply H. now left.
    + apply String.eqb_neq in E. rewrite IH. split.
      * intros H [H'|H']; [congruence|tauto].
      * intros H H'. apply H. now right.
Qed.

Lemma In_get k v m : JsMap.wf m -> In (k, v) m -> JsMap.get k m = Some v.
Proof.
  unfold JsMap.wf. induction m as [|[k' v'] m IH]; simpl; [tauto|].
  intros Hnd [H|H].
  - injection H as -> ->. now rewrite String.eqb_refl.
  - inversion Hnd as [|? ? Hm Hnd']; subst.
    destruct (String.eqb k k') eqn:E; [|auto].
    apply String.eqb_eq in E. subst k'. exfalso. apply Hm.
    apply list_elem_of_In. apply (in_map fst) in H. exact H.
Qed.

Lemma get_delete_ne k k' m :
  k <> k' -> JsMap.get k' (JsMap.delete k m) = JsMap.get k' m.
Proof.
  intros Hne. induction m as [|[k0 v0] m IH]; simpl; [reflexivity|].
  destruct (String.eqb k k0) eqn:E; simpl.
  - apply String.eqb_eq in E. subst k0.
    destruct (String.eqb k' k) eqn:E'; [|reflexivity].
    apply String.eqb_eq in E'. congruence.
  - now rewrite IH.
Qed.

Lemma keys_delete_incl k k' m :
  In k' (JsMap.keys (JsMap.delete k m)) -> In k' (JsMap.keys m).
Proof.
  induction m as [|[k0 v0] m IH]; simpl; [tauto|].
  destruct (String.eqb k k0); simpl; tauto.
Qed.

Lemma wf_delete k m : JsMap.wf m -> JsMap.wf (JsMap.delete k m).
Proof.
  unfold JsMap.wf. induction m as [|[k0 v0] m IH]; simpl; [auto|].
  intros Hnd. inversion Hnd as [|? ? Hm Hnd']; subst.
  destruct (String.eqb k k0); simpl; [assumption|].
  constructor; [|auto].
  intros Hin. apply Hm. apply list_elem_of_In.
  apply list_elem_of_In in Hin. eapply keys_delete_incl; eauto.
Qed.

Lemma get_delete_eq k m :
  JsMap.wf m -> JsMap.get k (JsMap.delete k m) = None.
Proof.
  unfold JsMap.wf. induction m as [|[k0 v0] m IH]; simpl; [auto|].
  intros Hnd. inversion Hnd as [|? ? Hm Hnd']; subst.
  destruct (String.eqb k k0) eqn:E; simpl.
  - apply String.eqb_eq in E. subst k0. apply get_None_keys.
    intros Hin. apply Hm. now apply list_elem_of_In.
  - rewrite E. auto.
Qed.

Lemma keys_set_incl k k' v m :
  In k' (JsMap.keys (JsMap.set k v m)) -> k' = k \/ In k' (JsMap.keys m).
Proof.
  induction m as [|[k0 v0] m IH]; simpl.
  - intuition.
  - destruct (String.eqb k k0) eqn:E; simpl.
    + apply String.eqb_eq in E. subst. intuition.
    + intuition.
Qed.

Lemma wf_set k v m : JsMap.wf m -> JsMap.wf (JsMap.set k v m).
Proof.
  unfold JsMap.wf. induction m as [|[k0 v0] m IH]; simpl.
  - intros _. constructor; [|constructor]. intros H. inversion H.
  - intros Hnd. inversion Hnd as [|? ? Hm Hnd']; subst.
    destruct (String.eqb k k0) eqn:E; simpl.
    + apply String.eqb_eq in E. subst k0. now constructor.
    + apply String.eqb_neq in E. constructor; [|auto].
      intros Hin. apply list_elem_of_In in Hin.
      apply keys_set_incl in Hin as [->|Hin]; [congruence|].
      apply Hm. now apply list_elem_of_In.
Qed.

Lemma set_absent k v m :
  JsMap.get k m = None -> JsMap.set k v m = (m ++ [(k, v)])%list.
Proof.
  induction m as [|[k0 v0] m IH]; simpl; [reflexivity|].
  destruct (String.eqb k k0); [discriminate|].
  intros H. now rewrite IH.
Qed.

Lemma length_set_present k v m :
  JsMap.get k m <> None -> length (JsMap.set k v m) = length m.
Proof.
  induction m as [|[k0 v0] m IH]; simpl; [congruence|].
  destruct (String.eqb k k0); simpl; [reflexivity|].
  intros H. now rewrite IH.
Qed.

Lemma length_set_le k v m :
  (length (JsMap.set k v m) <= S (length m))%nat.
Proof.
  induction m as [|[k0 v0] m IH]; simpl; [lia|].
  destruct (String.eqb k k0); simpl; lia.
Qed.

Lemma length_delete_present k m :
  In k (JsMap.keys m) -> S (length (JsMap.delete k m)) = length m.
Proof.
  induction m as [|[k0 v0] m IH]; simpl; [tauto|].
  destruct (String.eqb k k0) eqn:E; simpl; [reflexivity|].
  apply String.eqb_neq in E.
  intros [H|H]; [congruence|]. now rewrite IH.
Qed.
End Facts.
End JsMapFacts.

(** ** Defaults *)

Example default_options :
  ttl_of (mkOptions None None) = 300000 /\
  maxSize_of (mkOptions None None) = 1000 /\
  ttl_of (mkOptions (Some 60000) (Some 2)) = 60000 /\
  maxSize_of (mkOptions (Some 60000) (Some 2)) = 2.
Proof. repeat split; reflexivity. Qed.

(** ** The scan for the oldest entry *)

(** Either no entry is strictly older than the starting bound and the
    scan returns its starting point, or it returns the first entry, in
    insertion order, whose timestamp is the minimum. *)
Lemma oldest_scan_spec (m : list (string * CachedRedeemableCapital))
      (start : option string) (bound : Z) :
  (fold_left oldest_step m (start, bound) = (start, bound) /\
   forall x, In x m -> bound <= timestamp (snd x)) \/
  (exists m1 k e m2,
      m = (m1 ++ (k, e) :: m2)%list /\
      fold_left oldest_step m (start, bound) = (Some k, timestamp e) /\
      timestamp e < bound /\
      (forall x, In x m1 -> timestamp e < timestamp (snd x)) /\
      (forall x, In x m2 -> timestamp e <= timestamp (snd x))).
Proof.
  revert start bound.
  induction m as [|[kx ex] m IH]; intros start bound.
  - left. split; [reflexivity|]. intros x [].
  - cbn [fold_left].
    change (oldest_step (start, bound) (kx, ex))
      with (if timestamp ex <? bound
            then (Some kx, timestamp ex) else (start, bound)).
    destruct (timestamp ex <? bound) eqn:E.
    + apply Z.ltb_lt in E.
      destruct (IH (Some kx) (timestamp ex))
        as [[Hsame Hall]|(m1 & k & e & m2 & -> & Hrun & Hlt & H1 & H2)].
      * right. exists [], kx, ex, m.
        split; [reflexivity|]. split; [exact Hsame|]. split; [exact E|].
        split; [intros x []|exact Hall].
      * right. exists ((kx, ex) :: m1), k, e, m2.
        split; [reflexivity|]. split; [exact Hrun|]. split; [lia|].
        split; [|exact H2].
        intros x [<-|Hx]; [exact Hlt|auto].
    + apply Z.ltb_ge in E.
      destruct (IH start bound)
        as [[Hsame Hall]|(m1 & k & e & m2 & -> & Hrun & Hlt & H1 & H2)].
      * left. split; [assumption|].
        intros x [<-|Hx]; [exact E|auto].
      * right. exists ((kx, ex) :: m1), k, e, m2.
        split; [reflexivity|]. split; [exact Hrun|]. split; [exact Hlt|].
        split; [|exact H2].
        intros x [<-|Hx]; [cbn; lia|auto].
Qed.

(** ** Running the provider's operations *)

Section ProviderFacts.
Variable clock : nat -> Z.
Variable ttl : Z.
Variable maxSize : Z.

Lemma evict_if_full_run contents w :
  evict_if_full clock maxSize contents w =
  if maxSize <=? Z.of_nat (JsMap.size contents)
  then (Normal (evict_contents (clock (ticks w)) contents),
        with_ticks (S (ticks w)) w)
  else (Normal contents, w).
Proof.
  unfold evict_if_full, evict_contents.
  destruct (maxSize <=? Z.of_nat (JsMap.size contents)); [|reflexivity].
  unfold bind, Date_now.
  destruct (fst (fold_left oldest_step contents (None, clock (ticks w))))
    as [oldestKey|]; [|reflexivity].
  destruct (truthy oldestKey); reflexivity.
Qed.

Lemma setCachedValue_run bondId value error w :
  setCachedValue clock maxSize bondId value error w =
  (Normal tt, setCachedValue_world clock maxSize bondId value error w).
Proof.
  unfold setCachedValue, setCachedValue_world, setCache, bind, gets, new_Map.
  cbn [entries]. rewrite evict_if_full_run.
  destruct (maxSize <=? Z.of_nat (JsMap.size (entries (cache w))));
    reflexivity.
Qed.

Lemma with_ticks_same w : with_ticks (ticks w) w = w.
Proof. now destruct w. Qed.

Lemma with_ticks_twice n n' w :
  with_ticks n (with_ticks n' w) = with_ticks n w.
Proof. reflexivity. Qed.

Lemma getCachedValue_run bondId w :
  getCachedValue clock ttl bondId w =
  match JsMap.get bondId (entries (cacheRef w)) with
  | Some entry =>
      (Normal (if clock (ticks w) - timestamp entry <? ttl
               then Some entry else None),
       with_ticks (S (ticks w)) w)
  | None => (Normal None, w)
  end.
Proof.
  unfold getCachedValue, bind, gets.
  destruct (JsMap.get bondId (entries (cacheRef w))) as [entry|];
    reflexivity.
Qed.

Lemma sweep_manual_run m acc w :
  foldM m
        (fun acc kv =>
           let! valid := isEntryValid clock ttl (snd kv) in
           ret (if valid then JsMap.set (fst kv) (snd kv) acc else acc))
        acc w =
  (Normal (sweep_from clock ttl (ticks w) m acc),
   with_ticks (ticks w + length m) w).
Proof.
  revert acc w. induction m as [|kv m IH]; intros acc w.
  - cbn. unfold ret. now rewrite Nat.add_0_r, with_ticks_same.
  - cbn [foldM sweep_from length].
    unfold bind at 1. unfold isEntryValid, bind, Date_now, ret.
    rewrite IH. rewrite with_ticks_twice.
    change (ticks (with_ticks (S (ticks w)) w)) with (S (ticks w)).
    now replace (S (ticks w) + length m)%nat
      with (ticks w + S (length m))%nat by lia.
Qed.

Lemma sweep_interval_run m acc flag w :
  foldM m
        (fun acc kv =>
           let! now := Date_now clock in
           if now - timestamp (snd kv) <? ttl
           then ret (JsMap.set (fst kv) (snd kv) (fst acc), snd acc)
           else ret (fst acc, true))
        (acc, flag) w =
  (Normal (sweep_from clock ttl (ticks w) m acc,
           expired_from clock ttl (ticks w) m flag),
   with_ticks (ticks w + length m) w).
Proof.
  match goal with |- foldM _ ?f _ _ = _ => set (step := f) end.
  revert acc flag w. induction m as [|kv m IH]; intros acc flag w.
  - cbn. unfold ret. now rewrite Nat.add_0_r, with_ticks_same.
  - cbn [foldM sweep_from expired_from length].
    unfold bind at 1.
    assert (Hstep : step (acc, flag) kv w =
              (Normal (if clock (ticks w) - timestamp (snd kv) <? ttl
                       then (JsMap.set (fst kv) (snd kv) acc, flag)
                       else (acc, true)),
               with_ticks (S (ticks w)) w)).
    { unfold step, bind, Date_now, ret. cbn [fst snd].
      destruct (clock (ticks w) - timestamp (snd kv) <? ttl); reflexivity. }
    rewrite Hstep.
    destruct (clock (ticks w) - timestamp (snd kv) <? ttl);
      rewrite IH; rewrite with_ticks_twice;
      change (ticks (with_ticks (S (ticks w)) w)) with (S (ticks w));
      now replace (S (ticks w) + length m)%nat
        with (ticks w + S (length m))%nat by lia.
Qed.

Lemma cleanExpiredEntries_run w :
  cleanExpiredEntries clock ttl w =
  let newCache :=
    mkMap (next_id w)
          (sweep_from clock ttl (ticks w) (entries (cache w)) []) in
  (Normal tt,
   mkWorld newCache newCache (loadingBonds w) (inflightRequests w)
           (finallyCallbacks w) (fetchLog w)
           (ticks w + length (entries (cache w))) (S (next_id w))).
Proof.
  unfold cleanExpiredEntries, setCache, bind, gets, new_Map.
  cbn [entries]. rewrite sweep_manual_run. reflexivity.
Qed.

Lemma cleanupInterval_run w :
  cleanupInterval clock ttl w =
  let contents := sweep_from clock ttl (ticks w) (entries (cache w)) [] in
  let newCache := mkMap (next_id w) contents in
  let t := (ticks w + length (entries (cache w)))%nat in
  (Normal tt,
   if expired_from clock ttl (ticks w) (entries (cache w)) false
   then mkWorld newCache newCache (loadingBonds w) (inflightRequests w)
                (finallyCallbacks w) (fetchLog w) t (S (next_id w))
   else mkWorld (cache w) (cacheRef w) (loadingBonds w) (inflightRequests w)
                (finallyCallbacks w) (fetchLog w) t (S (next_id w))).
Proof.
  unfold cleanupInterval, setCache, bind, gets, new_Map.
  cbn [entries]. rewrite sweep_interval_run. cbn [fst snd].
  change (ticks (with_next_id (S (next_id w)) w)) with (ticks w).
  destruct (expired_from clock ttl (ticks w) (entries (cache w)) false);
    reflexivity.
Qed.

(** With the clock standing at [now] for the length of the sweep, the map
    built is the accumulator followed by the valid entries, in order. *)
Lemma sweep_from_filter now t m acc :
  (forall i, (i < length m)%nat -> clock (t + i) = now) ->
  NoDup (JsMap.keys acc ++ JsMap.keys m) ->
  sweep_from clock ttl t m acc = (acc ++ List.filter (valid_at ttl now) m)%list.
Proof.
  revert t acc. induction m as [|[k e] m IH]; intros t acc Hclock Hnd.
  - cbn. now rewrite app_nil_r.
  - cbn [sweep_from List.filter fst snd].
    assert (Hnow : clock t = now).
    { rewrite <- (Hclock 0%nat); [f_equal; lia|cbn; lia]. }
    assert (Htail : forall i, (i < length m)%nat -> clock (S t + i) = now).
    { intros i Hi. rewrite <- (Hclock (S i)); [f_equal; lia|cbn; lia]. }
    unfold valid_at at 1. cbn [snd]. rewrite Hnow.
    cbn [JsMap.keys map fst] in Hnd.
    destruct (now - timestamp e <? ttl).
    + rewrite JsMapFacts.set_absent.
      * rewrite IH; [now rewrite <- app_assoc|assumption|].
        unfold JsMap.keys. rewrite map_app. cbn [map fst].
        rewrite <- app_assoc. exact Hnd.
      * apply JsMapFacts.get_None_keys. intros Hin.
        apply NoDup_app in Hnd as (_ & Hdisj & _).
        apply (Hdisj k); [now apply list_elem_of_In|left].
    + apply IH; [assumption|].
      apply NoDup_app in Hnd as (Ha & Hdisj & Hm).
      apply NoDup_app. split; [assumption|]. split.
      * intros x Hx Hx'. apply (Hdisj x Hx). now right.
      * now inversion Hm.
Qed.

(** If the periodic sweep raised no flag, every entry passed its check. *)
Lemma expired_from_false t m :
  expired_from clock ttl t m false = false ->
  forall i kv, nth_error m i = Some kv ->
               clock (t + i) - timestamp (snd kv) < ttl.
Proof.
  revert t. induction m as [|kv0 m IH]; intros t Hflag i kv Hnth.
  - destruct i; discriminate.
  - cbn [expired_from] in Hflag.
    destruct (clock t - timestamp (snd kv0) <? ttl) eqn:E.
    + destruct i as [|i]; cbn in Hnth.
      * injection Hnth as <-. apply Z.ltb_lt in E.
        now replace (t + 0)%nat with t by lia.
      * replace (t + S i)%nat with (S t + i)%nat by lia. eauto.
    + exfalso. clear - Hflag.
      assert (H : forall t m, expired_from clock ttl t m true = true).
      { intros t0 m0. revert t0. induction m0 as [|x m0 IH0]; intros t0.
        - reflexivity.
        - cbn. destruct (clock t0 - timestamp (snd x) <? ttl); apply IH0. }
      rewrite H in Hflag. discriminate.
Qed.

Lemma expired_from_all_valid t m :
  (forall i kv, nth_error m i = Some kv ->
                clock (t + i) - timestamp (snd kv) < ttl) ->
  expired_from clock ttl t m false = false.
Proof.
  revert t. induction m as [|kv0 m IH]; intros t Hall.
  - reflexivity.
  - cbn [expired_from].
    assert (E : (clock t - timestamp (snd kv0) <? ttl) = true).
    { apply Z.ltb_lt. specialize (Hall 0%nat kv0 eq_refl).
      now replace (t + 0)%nat with t in Hall by lia. }
    rewrite E. apply IH. intros i kv Hnth.
    replace (S t + i)%nat with (t + S i)%nat by lia. now apply Hall.
Qed.

(** On a full map holding an entry strictly older than the clock reading,
    with a non-empty key, the write is preceded by the removal of the first
    entry of minimum timestamp, whether or not [bondId] is already a key. *)
Lemma setCachedValue_evicts_first_oldest bondId value error w m1 k e m2 :
  entries (cache w) = (m1 ++ (k, e) :: m2)%list ->
  maxSize <= Z.of_nat (JsMap.size (entries (cache w))) ->
  timestamp e < clock (ticks w) ->
  (forall x, In x m1 -> timestamp e < timestamp (snd x)) ->
  (forall x, In x m2 -> timestamp e <= timestamp (snd x)) ->
  k <> "" ->
  entries (cache (exec (setCachedValue clock maxSize bondId value error) w)) =
  JsMap.set bondId (mkEntry value (clock (S (ticks w))) error)
            (JsMap.delete k (entries (cache w))).
Proof.
  intros Hm Hfull Hold H1 H2 Hk.
  unfold exec. rewrite setCachedValue_run. cbn [snd].
  unfold setCachedValue_world. cbn [cache entries].
  apply Z.leb_le in Hfull. rewrite Hfull.
  f_equal. unfold evict_contents.
  destruct (oldest_scan_spec (entries (cache w)) None (clock (ticks w)))
    as [[_ Hall]|(m1' & k' & e' & m2' & Hm' & Hrun & Hlt & H1' & H2')].
  - exfalso. specialize (Hall (k, e)). rewrite Hm in Hall.
    cbn in Hall. specialize (Hall (in_elt _ _ _)). lia.
  - rewrite Hrun. cbn [fst].
    assert (k' = k) as ->.
    { rewrite Hm in Hm'. clear - Hm' H1 H2 H1' H2'.
      revert m1' Hm' H1'. induction m1 as [|x m1 IH]; intros m1' Hm' H1'.
      - destruct m1' as [|y m1']; cbn in Hm'.
        + congruence.
        + injection Hm' as <- ->.
          specialize (H1' (k, e) (or_introl eq_refl)). cbn in H1'.
          specialize (H2 (k', e') (in_elt _ _ _)). cbn in H2. lia.
      - destruct m1' as [|y m1']; cbn in Hm'.
        + injection Hm' as -> <-.
          specialize (H1 (k', e') (or_introl eq_refl)). cbn in H1.
          specialize (H2' (k, e) (in_elt _ _ _)). cbn in H2'. lia.
        + injection Hm' as <- Hm'.
          apply (IH (fun z Hz => H1 z (or_intror Hz)) m1' Hm').
          intros z Hz. apply H1'. now right. }
    unfold truthy. destruct (String.eqb k "") eqn:E; [|reflexivity].
    apply String.eqb_eq in E. contradiction.
Qed.

(** The size bound is kept by a write whenever the scan has something to
    find: the map is below capacity, or some entry is strictly older than
    the clock reading, and no key is the empty string. *)
Lemma setCachedValue_size_bound bondId value error w :
  Z.of_nat (JsMap.size (entries (cache w))) <= maxSize ->
  (Z.of_nat (JsMap.size (entries (cache w))) = maxSize ->
   exists x, In x (entries (cache w)) /\ timestamp (snd x) < clock (ticks w)) ->
  (forall k, In k (JsMap.keys (entries (cache w))) -> k <> "") ->
  Z.of_nat
    (JsMap.size
       (entries
          (cache (exec (setCachedValue clock maxSize bondId value error) w))))
  <= maxSize.
Proof.
  intros Hle Hold Hkeys.
  unfold exec. rewrite setCachedValue_run. cbn [snd].
  unfold setCachedValue_world, JsMap.size in *. cbn [cache entries].
  destruct (maxSize <=? Z.of_nat (length (entries (cache w)))) eqn:Hfull.
  - apply Z.leb_le in Hfull.
    destruct Hold as (x & Hx & Hxold); [lia|].
    unfold evict_contents.
    destruct (oldest_scan_spec (entries (cache w)) None (clock (ticks w)))
      as [[_ Hall]|(m1 & k & e & m2 & Hm & Hrun & _)].
    + specialize (Hall x Hx). lia.
    + rewrite Hrun. cbn [fst].
      assert (Hin : In k (JsMap.keys (entries (cache w)))).
      { rewrite Hm. unfold JsMap.keys. rewrite map_app. cbn.
        apply in_elt. }
      unfold truthy. destruct (String.eqb k "") eqn:E.
      { apply String.eqb_eq in E. now apply Hkeys in Hin. }
      cbn [negb].
      pose proof (JsMapFacts.length_delete_present k _ Hin) as Hdel.
      pose proof (JsMapFacts.length_set_le bondId
        (mkEntry value (clock (S (ticks w))) error)
        (JsMap.delete k (entries (cache w)))) as Hset.
      lia.
  - apply Z.leb_gt in Hfull.
    pose proof (JsMapFacts.length_set_le bondId
      (mkEntry value (clock (ticks w)) error) (entries (cache w))) as Hset.
    lia.
Qed.

End ProviderFacts.

(** ** The size bound and the eviction scan *)

(** Claim C1 (the size bound [entries.size <= maxSize] after every [set]).
    The code does not keep it.  The scan starts from [Date.now()] and
    compares with a strict [<], so entries written in the current
    millisecond are never candidates: with [maxSize = 2], three results
    written back within one millisecond leave three entries.  Sizes after
    the first, second and third write: 1, 2, 3. *)
Theorem size_bound_fails_within_one_millisecond :
  let set := setCachedValue frozen_clock 2 in
  let w1 := exec (set "A" "1" None) initial_world in
  let w2 := exec (set "B" "2" None) w1 in
  let w3 := exec (set "C" "3" None) w2 in
  JsMap.size (entries (cache w1)) = 1%nat /\
  JsMap.size (entries (cache w2)) = 2%nat /\
  JsMap.size (entries (cache w3)) = 3%nat /\
  JsMap.keys (entries (cache w3)) = ["A"; "B"; "C"] /\
  ~ (Z.of_nat (JsMap.size (entries (cache w3))) <= 2).
Proof.
  cbv zeta. repeat split; try reflexivity.
  vm_compute. intros H. apply H. reflexivity.
Qed.

(** Claim C10 (a write to a key already present in a full map still evicts
    the globally oldest entry).  The scan does run, but within one
    millisecond it finds nothing: with [maxSize = 2] and entries "B" and
    "A" both stamped 100, refreshing "A" while the clock still reads 100
    leaves "B", the first entry of minimum timestamp, in the map. *)
Theorem refresh_at_capacity_within_one_millisecond_evicts_nothing :
  let set := setCachedValue frozen_clock 2 in
  let w2 := exec (set "A" "1" None) (exec (set "B" "2" None) initial_world) in
  let w3 := exec (set "A" "7" None) w2 in
  JsMap.size (entries (cache w2)) = 2%nat /\
  JsMap.has "A" (entries (cache w2)) = true /\
  JsMap.keys (entries (cache w3)) = ["B"; "A"] /\
  JsMap.has "B" (entries (cache w3)) = true.
Proof.
  cbv zeta. repeat split; reflexivity.
Qed.

(** ** Reads and sweeps *)

(** Claim C3.  An entry whose age has reached the TTL is not returned by
    [getCachedValue], whether or not a sweep has run; the read leaves the
    state map, the ref, the loading set and the in-flight map as they
    were, and the expired entry stays in the map. *)
Theorem getCachedValue_expired_is_absent
        (clock : nat -> Z) (ttl : Z) (w : World)
        (bondId : string) (entry : CachedRedeemableCapital) :
  JsMap.get bondId (entries (cacheRef w)) = Some entry ->
  ttl <= clock (ticks w) - timestamp entry ->
  let w' := exec (getCachedValue clock ttl bondId) w in
  result (getCachedValue clock ttl bondId) w = Normal None /\
  cache w' = cache w /\
  cacheRef w' = cacheRef w /\
  loadingBonds w' = loadingBonds w /\
  inflightRequests w' = inflightRequests w /\
  JsMap.get bondId (entries (cacheRef w')) = Some entry.
Proof.
  intros Hget Hold. unfold exec, result.
  rewrite getCachedValue_run, Hget. cbn [fst snd].
  assert (E : (clock (ticks w) - timestamp entry <? ttl) = false)
    by (apply Z.ltb_ge; lia).
  rewrite E. repeat split; try reflexivity. exact Hget.
Qed.

Lemma getCachedValue_expired_is_absent_witness :
  let w' := exec (getCachedValue late_clock 300000 "A") stale_world in
  result (getCachedValue late_clock 300000 "A") stale_world = Normal None /\
  cache w' = cache stale_world /\
  cacheRef w' = cacheRef stale_world /\
  loadingBonds w' = loadingBonds stale_world /\
  inflightRequests w' = inflightRequests stale_world /\
  JsMap.get "A" (entries (cacheRef w')) = Some (mkEntry "1" 100 None).
Proof.
  apply (getCachedValue_expired_is_absent
           late_clock 300000 stale_world "A" (mkEntry "1" 100 None)).
  - reflexivity.
  - unfold late_clock. cbn. lia.
Defined.

(** A read never changes the store, whatever it returns. *)
Lemma getCachedValue_frame (clock : nat -> Z) (ttl : Z) (w : World)
      (bondId : string) :
  let w' := exec (getCachedValue clock ttl bondId) w in
  cache w' = cache w /\ cacheRef w' = cacheRef w /\
  loadingBonds w' = loadingBonds w /\
  inflightRequests w' = inflightRequests w /\
  fetchLog w' = fetchLog w.
Proof.
  unfold exec. rewrite getCachedValue_run.
  destruct (JsMap.get bondId (entries (cacheRef w))); cbn;
    repeat split; reflexivity.
Qed.

(** Claim C6.  With the clock standing at [now] while the sweep runs, the
    map after the manual sweep and after the periodic sweep is the map
    before, restricted to the entries with [now - timestamp < ttl], in the
    same order; in particular every entry valid at [now] is still there. *)
Theorem sweep_keeps_exactly_the_valid_entries
        (clock : nat -> Z) (ttl : Z) (w : World) (now : Z) :
  World_ok w ->
  (forall i, (i < length (entries (cache w)))%nat ->
             clock (ticks w + i)%nat = now) ->
  let before := entries (cache w) in
  let manual := exec (cleanExpiredEntries clock ttl) w in
  let periodic := exec (cleanupInterval clock ttl) w in
  entries (cache manual) = List.filter (valid_at ttl now) before /\
  entries (cacheRef manual) = List.filter (valid_at ttl now) before /\
  entries (cache periodic) = List.filter (valid_at ttl now) before /\
  entries (cacheRef periodic) = List.filter (valid_at ttl now) before /\
  (forall kv, In kv before -> now - timestamp (snd kv) < ttl ->
              In kv (entries (cache manual)) /\
              In kv (entries (cache periodic))).
Proof.
  intros (Hwf & Hsync & _ & _) Hclock before manual periodic.
  assert (Hsweep : sweep_from clock ttl (ticks w) before [] =
                   List.filter (valid_at ttl now) before).
  { rewrite (sweep_from_filter clock ttl now); [reflexivity|exact Hclock|].
    exact Hwf. }
  assert (Hmanual : entries (cache manual) =
                    List.filter (valid_at ttl now) before).
  { subst manual. unfold exec. rewrite cleanExpiredEntries_run. exact Hsweep. }
  assert (Hperiodic : entries (cache periodic) =
                      List.filter (valid_at ttl now) before /\
                      entries (cacheRef periodic) =
                      List.filter (valid_at ttl now) before).
  { subst periodic. unfold exec. rewrite cleanupInterval_run. cbn zeta.
    destruct (expired_from clock ttl (ticks w) (entries (cache w)) false)
      eqn:Hflag; cbn [snd cache cacheRef entries].
    - split; exact Hsweep.
    - rewrite Hsync. fold before.
      assert (Hall : List.filter (valid_at ttl now) before = before).
      { apply forallb_filter_id. apply forallb_forall. intros kv Hin.
        apply In_nth_error in Hin as [i Hi].
        pose proof (expired_from_false clock ttl _ _ Hflag i kv Hi) as Hv.
        rewrite Hclock in Hv.
        - now apply Z.ltb_lt.
        - apply nth_error_Some. fold before. congruence. }
      now rewrite Hall. }
  split; [exact Hmanual|]. split.
  { subst manual. unfold exec. rewrite cleanExpiredEntries_run. exact Hsweep. }
  split; [apply Hperiodic|]. split; [apply Hperiodic|].
  intros kv Hin Hvalid.
  rewrite Hmanual. rewrite (proj1 Hperiodic).
  split; apply filter_In; (split; [exact Hin|now apply Z.ltb_lt]).
Qed.

Lemma sweep_keeps_exactly_the_valid_entries_witness :
  let before := entries (cache mixed_world) in
  let manual := exec (cleanExpiredEntries sweep_clock 300000) mixed_world in
  let periodic := exec (cleanupInterval sweep_clock 300000) mixed_world in
  entries (cache manual) = List.filter (valid_at 300000 300200) before /\
  entries (cacheRef manual) = List.filter (valid_at 300000 300200) before /\
  entries (cache periodic) = List.filter (valid_at 300000 300200) before /\
  entries (cacheRef periodic) = List.filter (valid_at 300000 300200) before /\
  (forall kv, In kv before -> 300200 - timestamp (snd kv) < 300000 ->
              In kv (entries (cache manual)) /\
              In kv (entries (cache periodic))).
Proof.
  apply (sweep_keeps_exactly_the_valid_entries
           sweep_clock 300000 mixed_world 300200).
  - unfold World_ok, mixed_world, JsMap.wf. cbn.
    split; [|split; [reflexivity|split; lia]].
    apply (bool_decide_unpack _). vm_compute. exact I.
  - intros i _. reflexivity.
Defined.

(** The periodic sweep hands React the previous map object itself when
    every entry passes its check: nothing is published. *)
Lemma cleanupInterval_publishes_nothing_when_nothing_expired
      (clock : nat -> Z) (ttl : Z) (w : World) :
  (forall i kv, nth_error (entries (cache w)) i = Some kv ->
                clock (ticks w + i)%nat - timestamp (snd kv) < ttl) ->
  let w' := exec (cleanupInterval clock ttl) w in
  cache w' = cache w /\ cacheRef w' = cacheRef w.
Proof.
  intros Hall. unfold exec. rewrite cleanupInterval_run. cbn zeta.
  rewrite (expired_from_all_valid clock ttl _ _ Hall). cbn. auto.
Qed.

(** The manual sweep always hands React a map object that did not exist
    before. *)
Lemma cleanExpiredEntries_always_publishes
      (clock : nat -> Z) (ttl : Z) (w : World) :
  World_ok w ->
  let w' := exec (cleanExpiredEntries clock ttl) w in
  oid (cache w') = next_id w /\ cache w' <> cache w.
Proof.
  intros (_ & _ & Hfresh & _). unfold exec.
  rewrite cleanExpiredEntries_run. cbn. split; [reflexivity|].
  intros Heq. rewrite <- Heq in Hfresh. cbn in Hfresh. lia.
Qed.

(** Claim C7 (no state update is published when nothing has expired).
    The periodic sweep keeps it; the exported [cleanExpiredEntries] does
    not.  With one fresh entry in the map, the manual sweep returns a new
    [Map] object with the same contents, which React takes as a state
    change; the periodic sweep returns the object it was given. *)
Theorem manual_sweep_publishes_when_nothing_expired :
  let w := exec (setCachedValue ticking_clock 1000 "A" "1" None)
                initial_world in
  let manual := exec (cleanExpiredEntries ticking_clock 300000) w in
  let periodic := exec (cleanupInterval ticking_clock 300000) w in
  entries (cache w) = [("A", mkEntry "1" 100 None)] /\
  entries (cache manual) = entries (cache w) /\
  oid (cache w) = 2%nat /\
  oid (cache manual) = 3%nat /\
  cache manual <> cache w /\
  cache periodic = cache w.
Proof.
  cbv zeta. repeat split; try reflexivity.
  vm_compute. discriminate.
Qed.


(** ** Running loops *)

Lemma forEach_run {A} (f : A -> M unit) (xs : list A) (w : World) :
  (forall x w, result (f x) w = Normal tt) ->
  forEach xs f w = (Normal tt, fold_left (fun w x => exec (f x) w) xs w).
Proof.
  intros Hf. revert w. induction xs as [|x xs IH]; intros w; cbn.
  - reflexivity.
  - unfold bind. specialize (Hf x w). unfold result, exec in *.
    destruct (f x w) as [r w']. cbn in *. subst r. apply IH.
Qed.

Lemma forEach_run_with {A} (f : A -> M unit) (g : A -> World -> World)
      (xs : list A) (w : World) :
  (forall x w, f x w = (Normal tt, g x w)) ->
  forEach xs f w = (Normal tt, fold_left (fun w x => g x w) xs w).
Proof.
  intros Hf. revert w. induction xs as [|x xs IH]; intros w; cbn.
  - reflexivity.
  - unfold bind. rewrite Hf. apply IH.
Qed.

(** A filter whose predicate only looks at the world. *)
Lemma filterM_pure {A} (p : A -> M bool) (q : A -> bool)
      (xs : list A) (w : World) :
  (forall x, p x w = (Normal (q x), w)) ->
  filterM xs p w = (Normal (List.filter q xs), w).
Proof.
  intros Hp. induction xs as [|x xs IH]; cbn.
  - reflexivity.
  - unfold bind at 1. rewrite Hp. unfold bind at 1. rewrite IH.
    unfold ret. destruct (q x); reflexivity.
Qed.

Lemma foldM_pure {A S} (f : S -> A -> M S) (g : S -> A -> S)
      (xs : list A) (s : S) (w : World) :
  (forall s x, f s x w = (Normal (g s x), w)) ->
  foldM xs f s w = (Normal (fold_left g xs s), w).
Proof.
  intros Hf. revert s. induction xs as [|x xs IH]; intros s; cbn.
  - reflexivity.
  - unfold bind. rewrite Hf. apply IH.
Qed.

(** ** Running the hook *)

Section HookFacts.
Variable clock : nat -> Z.
Variable ttl : Z.
Variable maxSize : Z.

Lemma hasCachedValue_run bondId w :
  hasCachedValue clock ttl bondId w =
  match JsMap.get bondId (entries (cacheRef w)) with
  | Some entry =>
      (Normal (clock (ticks w) - timestamp entry <? ttl),
       with_ticks (S (ticks w)) w)
  | None => (Normal false, w)
  end.
Proof.
  unfold hasCachedValue, bind. rewrite getCachedValue_run.
  destruct (JsMap.get bondId (entries (cacheRef w))) as [entry|];
    [|reflexivity].
  destruct (clock (ticks w) - timestamp entry <? ttl); reflexivity.
Qed.

Lemma needs_filter_run assets w :
  filterM assets
          (fun asset =>
             let! cached := hasCachedValue clock ttl (id asset) in
             if cached then ret false
             else
               let! inflight := hasInflightRequest (id asset) in
               ret (negb inflight)) w =
  let r := needing_fetch clock ttl (entries (cacheRef w))
                         (inflightRequests w) (ticks w) assets in
  (Normal (fst r), with_ticks (snd r) w).
Proof.
  match goal with |- filterM _ ?f _ = _ => set (keep := f) end.
  cbv zeta. revert w. induction assets as [|asset rest IH]; intros w.
  - cbn. unfold ret. now rewrite with_ticks_same.
  - cbn [filterM needing_fetch]. unfold bind at 1.
    assert (Hkeep : keep asset w =
      match JsMap.get (id asset) (entries (cacheRef w)) with
      | Some entry =>
          (Normal (if clock (ticks w) - timestamp entry <? ttl then false
                   else negb (bool_decide
                                (is_Some (inflightRequests w !! id asset)))),
           with_ticks (S (ticks w)) w)
      | None =>
          (Normal (negb (bool_decide
                           (is_Some (inflightRequests w !! id asset)))), w)
      end).
    { unfold keep, bind. rewrite hasCachedValue_run.
      destruct (JsMap.get (id asset) (entries (cacheRef w))) as [entry|].
      - destruct (clock (ticks w) - timestamp entry <? ttl); reflexivity.
      - reflexivity. }
    rewrite Hkeep.
    destruct (JsMap.get (id asset) (entries (cacheRef w))) as [entry|].
    + unfold bind. rewrite IH.
      change (entries (cacheRef (with_ticks (S (ticks w)) w)))
        with (entries (cacheRef w)).
      change (inflightRequests (with_ticks (S (ticks w)) w))
        with (inflightRequests w).
      change (ticks (with_ticks (S (ticks w)) w)) with (S (ticks w)).
      rewrite with_ticks_twice. unfold ret.
      destruct (clock (ticks w) - timestamp entry <? ttl); [reflexivity|].
      destruct (bool_decide (is_Some (inflightRequests w !! id asset)));
        reflexivity.
    + unfold bind. rewrite IH. unfold ret.
      destruct (bool_decide (is_Some (inflightRequests w !! id asset)));
        reflexivity.
Qed.

Lemma needing_fetch_ticks cached inflight t assets :
  (t <= snd (needing_fetch clock ttl cached inflight t assets))%nat.
Proof.
  revert t. induction assets as [|asset rest IH]; intros t; cbn.
  - lia.
  - destruct (JsMap.get (id asset) cached) as [entry|].
    + specialize (IH (S t)).
      destruct (clock t - timestamp entry <? ttl); [lia|].
      destruct (bool_decide _); cbn; lia.
    + specialize (IH t). destruct (bool_decide _); cbn; lia.
Qed.

(** An asset kept by the filter is not in flight, and either has no entry
    or had an expired one when it was checked. *)
Lemma needing_fetch_sound cached inflight t assets asset :
  In asset (fst (needing_fetch clock ttl cached inflight t assets)) ->
  In asset assets /\
  inflight !! id asset = None /\
  (JsMap.get (id asset) cached = None \/
   exists entry t',
     JsMap.get (id asset) cached = Some entry /\
     (t <= t' < snd (needing_fetch clock ttl cached inflight t assets))%nat /\
     ttl <= clock t' - timestamp entry).
Proof.
  revert t. induction assets as [|a rest IH]; intros t; cbn.
  - intros [].
  - assert (Hwiden : forall t0,
      In asset (fst (needing_fetch clock ttl cached inflight t0 rest)) ->
      (t <= t0)%nat ->
      In asset (a :: rest) /\
      inflight !! id asset = None /\
      (JsMap.get (id asset) cached = None \/
       exists entry t',
         JsMap.get (id asset) cached = Some entry /\
         (t <= t' < snd (needing_fetch clock ttl cached inflight t0 rest))%nat
         /\ ttl <= clock t' - timestamp entry)).
    { intros t0 Hin Hle. destruct (IH t0 Hin) as (H1 & H2 & H3).
      split; [now right|]. split; [assumption|].
      destruct H3 as [H3|(entry & t' & Hg & Ht & Hexp)]; [now left|].
      right. exists entry, t'. split; [assumption|]. split; [lia|assumption]. }
    destruct (JsMap.get (id a) cached) as [entry|] eqn:Hget.
    + destruct (clock t - timestamp entry <? ttl) eqn:Hvalid.
      * intros Hin. apply (Hwiden (S t) Hin). lia.
      * destruct (bool_decide (is_Some (inflight !! id a))) eqn:Hpend.
        -- intros Hin. apply (Hwiden (S t) Hin). lia.
        -- cbn [fst snd]. intros [<-|Hin]; [|apply (Hwiden (S t) Hin); lia].
           split; [now left|]. split.
           ++ apply bool_decide_eq_false in Hpend.
              destruct (inflight !! id a) eqn:E; [|reflexivity].
              exfalso. apply Hpend. eauto.
           ++ right. exists entry, t. split; [assumption|].
              pose proof (needing_fetch_ticks cached inflight (S t) rest).
              apply Z.ltb_ge in Hvalid. split; [lia|lia].
    + destruct (bool_decide (is_Some (inflight !! id a))) eqn:Hpend.
      * intros Hin. apply (Hwiden t Hin). lia.
      * cbn [fst snd]. intros [<-|Hin]; [|apply (Hwiden t Hin); lia].
        split; [now left|]. split; [|now left].
        apply bool_decide_eq_false in Hpend.
        destruct (inflight !! id a) eqn:E; [|reflexivity].
        exfalso. apply Hpend. eauto.
Qed.

(** An asset with no entry and no request in flight is kept. *)
Lemma needing_fetch_complete cached inflight t assets asset :
  In asset assets ->
  JsMap.get (id asset) cached = None ->
  inflight !! id asset = None ->
  In asset (fst (needing_fetch clock ttl cached inflight t assets)).
Proof.
  intros Hin Hget Hidle. revert t.
  induction assets as [|a rest IH]; intros t; [destruct Hin|].
  cbn. destruct Hin as [->|Hin].
  - rewrite Hget, Hidle.
    rewrite bool_decide_eq_false_2; [now left|].
    intros [? ?]. discriminate.
  - destruct (JsMap.get (id a) cached) as [entry|].
    + destruct (clock t - timestamp entry <? ttl); [auto|].
      destruct (bool_decide _); [auto|]. right. auto.
    + destruct (bool_decide _); [auto|]. right. auto.
Qed.

Lemma loading_fold_run (b : bool) ids w :
  fold_left (fun w k => exec (setLoadingState k b) w) ids w =
  with_loadingBonds
    (fold_left (fun s k => if b then s ∪ {[k]} else s ∖ {[k]}) ids
               (loadingBonds w)) w.
Proof.
  revert w. induction ids as [|k ids IH]; intros w; cbn [fold_left].
  - now destruct w.
  - rewrite IH. reflexivity.
Qed.

Lemma inflight_fold_run (p : nat) ids w :
  fold_left (fun w k => exec (setInflightRequest k p) w) ids w =
  with_finallyCallbacks
    (fold_left (fun m k => <[p := (default [] (m !! p) ++ [k])%list]> m) ids
               (finallyCallbacks w))
    (with_inflightRequests
       (fold_left (fun m k => <[k := p]> m) ids (inflightRequests w)) w).
Proof.
  revert w. induction ids as [|k ids IH]; intros w; cbn [fold_left].
  - now destruct w.
  - rewrite IH. reflexivity.
Qed.

Lemma issue_world_fields ids w :
  issue_world ids w =
  mkWorld (cache w) (cacheRef w)
          (fold_left (fun s k => s ∪ {[k]}) ids (loadingBonds w))
          (fold_left (fun m k => <[k := next_id w]> m) ids
                     (inflightRequests w))
          (fold_left
             (fun m k =>
                <[next_id w := (default [] (m !! next_id w) ++ [k])%list]> m)
             ids (finallyCallbacks w))
          (fetchLog w ++ [ids])%list (ticks w) (S (next_id w)).
Proof.
  unfold issue_world. cbv zeta.
  rewrite inflight_fold_run, loading_fold_run. reflexivity.
Qed.

Lemma insert_fold_lookup_in (p : nat) ids (m : gmap string nat) k :
  In k ids -> fold_left (fun m k => <[k := p]> m) ids m !! k = Some p.
Proof.
  revert m. induction ids as [|k0 ids IH]; intros m; [intros []|].
  cbn [fold_left]. destruct (in_dec String.string_dec k ids) as [Hin|Hout].
  - intros _. now apply IH.
  - intros [->|Hin]; [|contradiction].
    clear IH. revert m Hout. induction ids as [|k1 ids IH]; intros m Hout.
    + cbn. apply lookup_insert_eq.
    + cbn [fold_left]. cbn in Hout.
      assert (k1 <> k) by tauto.
      rewrite insert_insert_ne by congruence.
      apply IH. tauto.
Qed.

Lemma insert_fold_lookup_out (p : nat) ids (m : gmap string nat) k :
  ~ In k ids -> fold_left (fun m k => <[k := p]> m) ids m !! k = m !! k.
Proof.
  revert m. induction ids as [|k0 ids IH]; intros m Hout; [reflexivity|].
  cbn [fold_left]. cbn in Hout. rewrite IH by tauto.
  apply lookup_insert_ne. tauto.
Qed.

Lemma loading_clear_fold_out ids (s : gset string) k :
  In k ids -> k ∉ fold_left (fun s k => s ∖ {[k]}) ids s.
Proof.
  assert (Hsub : forall ids (s : gset string) x,
             x ∈ fold_left (fun s k => s ∖ {[k]}) ids s -> x ∈ s).
  { intros ids0. induction ids0 as [|k0 ids0 IH]; intros s0 x; cbn.
    - auto.
    - intros Hx. apply IH in Hx. apply elem_of_difference in Hx. tauto. }
  revert s. induction ids as [|k0 ids IH]; intros s; [intros []|].
  cbn [fold_left]. intros [->|Hin]; [|now apply IH].
  intros Hk. apply Hsub in Hk. apply elem_of_difference in Hk.
  destruct Hk as [_ Hk]. apply Hk. now apply elem_of_singleton.
Qed.

(** [fetchClaimableCapital] up to its first [await], written out. *)
Lemma fetchClaimableCapital_run assets w :
  let r := needing_fetch clock ttl (entries (cacheRef w))
                         (inflightRequests w) (ticks w) assets in
  fetchClaimableCapital clock ttl assets w =
  match fst r with
  | [] =>
      let waiting :=
        List.filter
          (fun a => bool_decide (is_Some (inflightRequests w !! id a)))
          assets in
      (Normal
         (if Nat.ltb 0 (length waiting)
          then AwaitingInflight
                 (fold_left
                    (fun acc a => (acc ++ [inflightRequests w !! id a])%list)
                    waiting [])
          else Returned),
       with_ticks (snd r) w)
  | _ :: _ =>
      (Normal (AwaitingOperation (next_id w) (map id (fst r))),
       issue_world (map id (fst r)) (with_ticks (snd r) w))
  end.
Proof.
  cbv zeta. unfold fetchClaimableCapital. unfold bind at 1.
  rewrite needs_filter_run. cbv zeta.
  destruct (needing_fetch clock ttl (entries (cacheRef w))
                          (inflightRequests w) (ticks w) assets)
    as [needs t1].
  cbn [fst snd]. destruct needs as [|a needs].
  - cbn [length Nat.eqb]. unfold bind at 1.
    rewrite (filterM_pure _
      (fun a => bool_decide (is_Some (inflightRequests w !! id a))))
      by reflexivity.
    destruct (Nat.ltb 0 _); [|reflexivity].
    unfold bind.
    rewrite (foldM_pure _
      (fun acc a => (acc ++ [inflightRequests w !! id a])%list))
      by reflexivity.
    reflexivity.
  - cbn [length Nat.eqb]. unfold bind at 1.
    rewrite forEach_run by reflexivity.
    unfold bind at 1.
    set (w1 := fold_left _ _ _).
    assert (Hstart : operation_start (map id (a :: needs)) w1 =
              (Normal (next_id w1),
               exec (operation_start (map id (a :: needs))) w1))
      by reflexivity.
    rewrite Hstart. unfold bind at 1.
    rewrite forEach_run by reflexivity.
    unfold ret, issue_world. cbv zeta. fold w1.
    assert (Hid : next_id w1 = next_id w).
    { unfold w1. now rewrite loading_fold_run. }
    now rewrite Hid.
Qed.

Lemma write_failures_run assetIds w :
  forEach assetIds
          (fun assetId =>
             setCachedValue clock maxSize assetId "0" (Some "Failed to load"))
          w =
  (Normal tt, write_failures clock maxSize assetIds w).
Proof.
  apply (forEach_run_with _
    (fun k w =>
       setCachedValue_world clock maxSize k "0" (Some "Failed to load") w)).
  intros x w0. apply setCachedValue_run.
Qed.

Lemma write_results_run results w :
  forEach results
          (fun fetchResult =>
             setCachedValue clock maxSize (bondId fetchResult)
                            (claimableAmount fetchResult)
                            (result_error fetchResult))
          w =
  (Normal tt, write_results clock maxSize results w).
Proof.
  apply (forEach_run_with _
    (fun r w =>
       setCachedValue_world clock maxSize (bondId r) (claimableAmount r)
                            (result_error r) w)).
  intros x w0. apply setCachedValue_run.
Qed.

(** The continuation of [fetchClaimableCapital], for either outcome. *)
Lemma fetchClaimableCapital_resume_run assetIds service w :
  fetchClaimableCapital_resume clock maxSize assetIds service w =
  (Normal tt,
   fold_left (fun w k => exec (setLoadingState k false) w) assetIds
             match service with
             | Fulfilled results => write_results clock maxSize results w
             | Rejected _ => write_failures clock maxSize assetIds w
             end).
Proof.
  unfold fetchClaimableCapital_resume. unfold bind at 1.
  assert (Htry :
    try_catch
      (let! results := operation_finish service in
       forEach results (fun fetchResult =>
         setCachedValue clock maxSize (bondId fetchResult)
                        (claimableAmount fetchResult)
                        (result_error fetchResult)))
      (fun _ =>
         forEach assetIds (fun assetId =>
           setCachedValue clock maxSize assetId "0" (Some "Failed to load")))
      w =
    (Normal tt,
     match service with
     | Fulfilled results => write_results clock maxSize results w
     | Rejected _ => write_failures clock maxSize assetIds w
     end)).
  { unfold try_catch at 1. unfold bind at 1.
    destruct service as [results|reason].
    - assert (Hfin : operation_finish (Fulfilled results) w =
                     (Normal results, w)) by reflexivity.
      rewrite Hfin. now rewrite write_results_run.
    - assert (Hfin : operation_finish (Rejected reason) w =
                     (Thrown reason, w)) by reflexivity.
      rewrite Hfin. now rewrite write_failures_run. }
  rewrite Htry. apply forEach_run. reflexivity.
Qed.

Lemma operationPromise_settles_run p assetIds service w :
  operationPromise_settles clock maxSize p assetIds service w =
  fetchClaimableCapital_resume clock maxSize assetIds service
                               (cleanup_world p w).
Proof.
  unfold operationPromise_settles, bind, gets, modify.
  rewrite forEach_run by reflexivity. reflexivity.
Qed.

Lemma cleanup_world_frame p w :
  cache (cleanup_world p w) = cache w /\
  cacheRef (cleanup_world p w) = cacheRef w /\
  loadingBonds (cleanup_world p w) = loadingBonds w /\
  fetchLog (cleanup_world p w) = fetchLog w /\
  ticks (cleanup_world p w) = ticks w /\
  next_id (cleanup_world p w) = next_id w.
Proof.
  unfold cleanup_world.
  set (w0 := with_finallyCallbacks _ w).
  change (cache w) with (cache w0). change (cacheRef w) with (cacheRef w0).
  change (loadingBonds w) with (loadingBonds w0).
  change (fetchLog w) with (fetchLog w0).
  change (ticks w) with (ticks w0). change (next_id w) with (next_id w0).
  generalize (default [] (finallyCallbacks w !! p)). clearbody w0.
  intros ks. revert w0.
  induction ks as [|k ks IH]; intros w0; cbn [fold_left].
  - repeat split.
  - destruct (IH (exec (inflight_cleanup k) w0)) as (H1&H2&H3&H4&H5&H6).
    rewrite H1, H2, H3, H4, H5, H6. repeat split.
Qed.

Lemma setCachedValue_world_frame k v e w :
  let w' := setCachedValue_world clock maxSize k v e w in
  cacheRef w' = cache w' /\
  loadingBonds w' = loadingBonds w /\
  inflightRequests w' = inflightRequests w /\
  finallyCallbacks w' = finallyCallbacks w /\
  fetchLog w' = fetchLog w.
Proof. cbv zeta. unfold setCachedValue_world. cbn. repeat split. Qed.

Lemma setCachedValue_world_get_eq k v e w :
  exists now,
    JsMap.get k (entries (cache (setCachedValue_world clock maxSize k v e w)))
    = Some (mkEntry v now e).
Proof.
  unfold setCachedValue_world. cbn [cache entries].
  eexists. apply JsMapFacts.get_set_eq.
Qed.

Lemma write_failures_frame ids w :
  let w' := write_failures clock maxSize ids w in
  loadingBonds w' = loadingBonds w /\
  inflightRequests w' = inflightRequests w /\
  finallyCallbacks w' = finallyCallbacks w /\
  fetchLog w' = fetchLog w /\
  (ids <> [] -> cacheRef w' = cache w').
Proof.
  cbv zeta. unfold write_failures. revert w.
  induction ids as [|k ids IH]; intros w; cbn [fold_left].
  - repeat split. congruence.
  - destruct (IH (setCachedValue_world clock maxSize k "0"
                    (Some "Failed to load") w)) as (H1 & H2 & H3 & H4 & H5).
    rewrite H1, H2, H3, H4. repeat split.
    intros _. destruct ids as [|k' ids]; [reflexivity|].
    apply H5. discriminate.
Qed.

(** While the map has room for the whole batch, no write evicts, and
    every failure entry written stays. *)
Lemma write_failures_entries ids w k :
  Z.of_nat (JsMap.size (entries (cache w))) + Z.of_nat (length ids)
    <= maxSize ->
  In k ids \/ is_failure_entry (JsMap.get k (entries (cache w))) ->
  is_failure_entry
    (JsMap.get k (entries (cache (write_failures clock maxSize ids w)))).
Proof.
  unfold write_failures. revert w.
  induction ids as [|k0 ids IH]; intros w Hroom Hk; cbn [fold_left].
  - destruct Hk as [[]|Hk]. exact Hk.
  - cbn [length] in Hroom.
    set (w1 := setCachedValue_world clock maxSize k0 "0"
                 (Some "Failed to load") w).
    assert (Hw1 : entries (cache w1) =
                  JsMap.set k0 (mkEntry "0" (clock (ticks w))
                                        (Some "Failed to load"))
                            (entries (cache w))).
    { unfold w1, setCachedValue_world. cbn [cache entries].
      assert (E : (maxSize <=? Z.of_nat (JsMap.size (entries (cache w))))
                  = false) by (apply Z.leb_gt; lia).
      now rewrite E. }
    apply IH.
    + rewrite Hw1. unfold JsMap.size in *.
      pose proof (JsMapFacts.length_set_le k0
        (mkEntry "0" (clock (ticks w)) (Some "Failed to load"))
        (entries (cache w))).
      lia.
    + rewrite Hw1. destruct (String.eqb k0 k) eqn:E.
      * apply String.eqb_eq in E. subst k0. right.
        rewrite JsMapFacts.get_set_eq. eexists. repeat split.
      * apply String.eqb_neq in E.
        destruct Hk as [[Hk|Hk]|Hk]; [congruence|now left|].
        right. now rewrite JsMapFacts.get_set_ne.
Qed.

End HookFacts.

(** ** Rejections *)

(** Claim C4 as stated fails when the map is too small for the batch.
    With [maxSize = 1] and the clock advancing between the writes, the
    failure entry written for "B" evicts the one just written for "A":
    after the rejection "A", a key of the batch, has no entry. *)
Lemma rejected_batch_entry_evicted :
  let w := exec (fetchClaimableCapital ticking_clock 300000
                   [mkAsset "A"; mkAsset "B"]) initial_world in
  let settle :=
    operationPromise_settles ticking_clock 1 2 ["A"; "B"]
                             (Rejected "network down") in
  let w' := exec settle w in
  result (fetchClaimableCapital ticking_clock 300000
            [mkAsset "A"; mkAsset "B"]) initial_world
  = Normal (AwaitingOperation 2 ["A"; "B"]) /\
  In "A" ["A"; "B"] /\
  JsMap.get "A" (entries (cache w')) = None /\
  JsMap.keys (entries (cache w')) = ["B"] /\
  ~ (forall k, In k ["A"; "B"] ->
       exists entry, JsMap.get k (entries (cache w')) = Some entry /\
                     value entry = "0").
Proof.
  cbv zeta. split; [reflexivity|]. split; [now left|].
  split; [reflexivity|]. split; [reflexivity|].
  intros H. destruct (H "A" (or_introl eq_refl)) as (entry & Hget & _).
  vm_compute in Hget. discriminate.
Qed.

(** ** Clearing a key while its fetch is in flight *)

Lemma clearCacheEntry_run (bondId : string) (w : World) :
  clearCacheEntry bondId w =
  let newCache :=
    mkMap (next_id w) (JsMap.delete bondId (entries (cache w))) in
  (Normal tt,
   mkWorld newCache newCache (loadingBonds w ∖ {[bondId]})
           (inflightRequests w) (finallyCallbacks w) (fetchLog w)
           (ticks w) (S (next_id w))).
Proof. reflexivity. Qed.

(** A fetch that resolves with a single result writes it, whatever the
    world looks like at that moment. *)
Lemma single_result_is_written
      (clock : nat -> Z) (maxSize : Z) (w : World) (p : nat)
      (assetIds : list string) (r : LazyClaimablePrincipalResult) :
  let w' := exec (operationPromise_settles clock maxSize p assetIds
                                           (Fulfilled [r])) w in
  exists now,
    JsMap.get (bondId r) (entries (cache w'))
    = Some (mkEntry (claimableAmount r) now (result_error r)) /\
    cacheRef w' = cache w'.
Proof.
  cbv zeta. unfold exec.
  rewrite operationPromise_settles_run, fetchClaimableCapital_resume_run.
  cbn [snd]. rewrite loading_fold_run.
  unfold write_results. cbn [fold_left cache cacheRef with_loadingBonds].
  destruct (setCachedValue_world_get_eq clock maxSize (bondId r)
              (claimableAmount r) (result_error r) (cleanup_world p w))
    as [now Hget].
  exists now. split; [exact Hget|].
  apply (setCachedValue_world_frame clock maxSize).
Qed.

(** Claim C5.  A key that is neither cached nor in flight is requested;
    while the request is pending the key is cleared; the request then
    resolves with a value for it.  The clear leaves the in-flight handle in
    place and reads of the key return nothing; after the resolution the
    map holds the resolved value for the key, and a read within the TTL
    returns it. *)
Theorem clear_then_late_resolve
        (clock : nat -> Z) (ttl maxSize : Z) (w : World)
        (k v : string) (err : option string) :
  World_ok w ->
  JsMap.get k (entries (cacheRef w)) = None ->
  inflightRequests w !! k = None ->
  let start := fetchClaimableCapital clock ttl [mkAsset k] in
  let p := next_id w in
  let w1 := exec start w in
  let w2 := exec (clearCacheEntry k) w1 in
  let settle :=
    operationPromise_settles clock maxSize p [k]
                             (Fulfilled [mkResult k v err]) in
  let w3 := exec settle w2 in
  result start w = Normal (AwaitingOperation p [k]) /\
  fetchLog w1 = (fetchLog w ++ [[k]])%list /\
  inflightRequests w1 !! k = Some p /\
  inflightRequests w2 !! k = Some p /\
  fetchLog w2 = fetchLog w1 /\
  result (getCachedValue clock ttl k) w2 = Normal None /\
  result settle w2 = Normal tt /\
  exists entry,
    JsMap.get k (entries (cache w3)) = Some entry /\
    JsMap.get k (entries (cacheRef w3)) = Some entry /\
    value entry = v /\
    error entry = err /\
    (clock (ticks w3) - timestamp entry < ttl ->
     result (getCachedValue clock ttl k) w3 = Normal (Some entry)).
Proof.
  intros (Hwf & Hsync & _) Hget Hidle. cbv zeta.
  assert (Hneeds :
    needing_fetch clock ttl (entries (cacheRef w)) (inflightRequests w)
                  (ticks w) [mkAsset k] = ([mkAsset k], ticks w)).
  { cbn. rewrite Hget, Hidle.
    rewrite bool_decide_eq_false_2; [reflexivity|].
    intros [? ?]. discriminate. }
  assert (Hstart : exists w1,
    fetchClaimableCapital clock ttl [mkAsset k] w
    = (Normal (AwaitingOperation (next_id w) [k]), w1) /\
    cache w1 = cache w /\
    fetchLog w1 = (fetchLog w ++ [[k]])%list /\
    inflightRequests w1 !! k = Some (next_id w)).
  { eexists. rewrite fetchClaimableCapital_run. cbv zeta. rewrite Hneeds.
    cbn [fst snd map id]. rewrite with_ticks_same, issue_world_fields.
    cbn [fold_left]. split; [reflexivity|]. split; [reflexivity|].
    split; [reflexivity|]. apply lookup_insert_eq. }
  destruct Hstart as (w1 & Hstart & Hcache1 & Hlog1 & Hflight1).
  unfold exec, result. rewrite Hstart. cbn [fst snd].
  split; [reflexivity|]. split; [exact Hlog1|]. split; [exact Hflight1|].
  rewrite clearCacheEntry_run. cbv zeta. cbn [snd].
  set (w2 := mkWorld _ _ _ _ _ _ _ _).
  split; [exact Hflight1|]. split; [reflexivity|]. split.
  { rewrite getCachedValue_run. unfold w2. cbn [cacheRef entries cache].
    rewrite Hcache1, <- Hsync.
    assert (Hgone : JsMap.get k (JsMap.delete k (entries (cacheRef w)))
                    = None).
    { apply JsMapFacts.get_None_keys. intros Hin.
      apply JsMapFacts.keys_delete_incl in Hin.
      now apply JsMapFacts.get_None_keys in Hget. }
    now rewrite Hgone. }
  split.
  { rewrite operationPromise_settles_run, fetchClaimableCapital_resume_run.
    reflexivity. }
  destruct (single_result_is_written clock maxSize w2 (next_id w) [k]
              (mkResult k v err)) as (now & Hwritten & Href).
  unfold exec in Hwritten, Href.
  cbn [bondId claimableAmount result_error] in Hwritten.
  exists (mkEntry v now err). rewrite Href.
  split; [exact Hwritten|]. split; [exact Hwritten|].
  split; [reflexivity|]. split; [reflexivity|].
  intros Hfresh. rewrite getCachedValue_run, Href, Hwritten.
  cbn [fst timestamp].
  apply Z.ltb_lt in Hfresh. cbn [timestamp] in Hfresh. now rewrite Hfresh.
Qed.

Lemma clear_then_late_resolve_witness :
  let start := fetchClaimableCapital ticking_clock 300000 [mkAsset "A"] in
  let w1 := exec start initial_world in
  let w2 := exec (clearCacheEntry "A") w1 in
  let settle :=
    operationPromise_settles ticking_clock 1000 2 ["A"]
                             (Fulfilled [mkResult "A" "5" None]) in
  let w3 := exec settle w2 in
  inflightRequests w2 !! "A" = Some 2%nat /\
  exists entry,
    result (getCachedValue ticking_clock 300000 "A") w3
    = Normal (Some entry) /\
    value entry = "5".
Proof.
  cbv zeta.
  destruct (clear_then_late_resolve
              ticking_clock 300000 1000 initial_world "A" "5" None)
    as (_ & _ & _ & Hflight & _ & _ & _ & entry & Hget & _ & Hvalue & _ & Hread).
  - unfold World_ok, initial_world, JsMap.wf. cbn.
    split; [constructor|]. split; [reflexivity|]. split; lia.
  - reflexivity.
  - reflexivity.
  - split; [exact Hflight|].
    exists entry. split; [|exact Hvalue].
    apply Hread. vm_compute in Hget. injection Hget as <-.
    vm_compute. reflexivity.
Defined.

(** ** Overlapping requests *)

Section Dedup.
Variable clock : nat -> Z.
Variable ttl : Z.

Lemma existsb_eqb_In (k : string) (ids : list string) :
  existsb (String.eqb k) ids = true <-> In k ids.
Proof.
  rewrite existsb_exists. split.
  - intros (x & Hx & E). apply String.eqb_eq in E. now subst.
  - intros H. exists k. split; [assumption|apply String.eqb_refl].
Qed.

Lemma invocations_for_single (k : string) (ids : list string) :
  invocations_for k [ids] = if existsb (String.eqb k) ids then 1%nat else 0%nat.
Proof.
  unfold invocations_for. cbn. now destruct (existsb (String.eqb k) ids).
Qed.

(** What one call of [fetchClaimableCapital] does to the log, the store
    and the in-flight map. *)
Lemma fetch_call_spec assets w :
  let call := fetchClaimableCapital clock ttl assets in
  let needs :=
    fst (needing_fetch clock ttl (entries (cacheRef w))
                       (inflightRequests w) (ticks w) assets) in
  batch_of (result call w)
  = match needs with [] => [] | _ :: _ => [map id needs] end /\
  fetchLog (exec call w) = (fetchLog w ++ batch_of (result call w))%list /\
  cacheRef (exec call w) = cacheRef w /\
  cache (exec call w) = cache w /\
  ticks (exec call w)
  = snd (needing_fetch clock ttl (entries (cacheRef w))
                       (inflightRequests w) (ticks w) assets) /\
  (forall k, In k (map id needs) ->
             inflightRequests (exec call w) !! k = Some (next_id w)) /\
  (forall k, ~ In k (map id needs) ->
             inflightRequests (exec call w) !! k = inflightRequests w !! k).
Proof.
  cbv zeta. unfold result, exec. rewrite fetchClaimableCapital_run.
  cbv zeta.
  destruct (needing_fetch clock ttl (entries (cacheRef w))
                          (inflightRequests w) (ticks w) assets)
    as [needs t1].
  cbn [fst snd]. destruct needs as [|a needs].
  - cbn [fst snd map].
    assert (Hbatch : forall hs,
      batch_of (Normal (if Nat.ltb 0 (length (List.filter
        (fun a => bool_decide (is_Some (inflightRequests w !! id a)))
        assets)) then AwaitingInflight hs else Returned)) = []).
    { intros hs. now destruct (Nat.ltb 0 _). }
    rewrite Hbatch. rewrite app_nil_r.
    repeat split; try reflexivity. intros k [].
  - cbn [fst snd batch_of]. rewrite issue_world_fields.
    cbn [fetchLog cacheRef cache ticks inflightRequests with_ticks next_id].
    repeat split.
    + intros k Hk. now apply insert_fold_lookup_in.
    + intros k Hk. now apply insert_fold_lookup_out.
Qed.

End Dedup.

(** Claim C2.  Two calls of [fetchClaimableCapital] follow each other with
    no request settling in between.  Each call sends at most one batch to
    the service; the batch of the second call holds only keys that are not
    in flight after the first call, are not in the first batch, and have
    no valid entry when they are checked; so no key is sent twice, and a
    key that had no entry and no request in flight, asked for by either
    call or by both, is sent exactly once. *)
Theorem overlapping_fetches_request_each_key_once
        (clock : nat -> Z) (ttl : Z) (w : World)
        (assets1 assets2 : list BondingStatus) :
  let call1 := fetchClaimableCapital clock ttl assets1 in
  let w1 := exec call1 w in
  let call2 := fetchClaimableCapital clock ttl assets2 in
  let w2 := exec call2 w1 in
  let batch1 := batch_of (result call1 w) in
  let batch2 := batch_of (result call2 w1) in
  fetchLog w2 = (fetchLog w ++ batch1 ++ batch2)%list /\
  (length batch1 <= 1)%nat /\ (length batch2 <= 1)%nat /\
  (forall ids k, In ids batch2 -> In k ids ->
     (exists asset, In asset assets2 /\ id asset = k) /\
     inflightRequests w1 !! k = None /\
     (forall ids1, In ids1 batch1 -> ~ In k ids1) /\
     (JsMap.get k (entries (cacheRef w1)) = None \/
      exists entry t,
        JsMap.get k (entries (cacheRef w1)) = Some entry /\
        (ticks w1 <= t < ticks w2)%nat /\
        ttl <= clock t - timestamp entry)) /\
  (forall k, (invocations_for k (batch1 ++ batch2) <= 1)%nat) /\
  (forall asset,
     In asset (assets1 ++ assets2) ->
     JsMap.get (id asset) (entries (cacheRef w)) = None ->
     inflightRequests w !! id asset = None ->
     invocations_for (id asset) (batch1 ++ batch2) = 1%nat).
Proof.
  cbv zeta.
  destruct (fetch_call_spec clock ttl assets1 w)
    as (Hb1 & Hlog1 & Href1 & _ & _ & Hin1 & Hout1).
  destruct (fetch_call_spec clock ttl assets2
              (exec (fetchClaimableCapital clock ttl assets1) w))
    as (Hb2 & Hlog2 & _ & _ & Hticks2 & _ & _).
  cbv zeta in *.
  set (w1 := exec (fetchClaimableCapital clock ttl assets1) w) in *.
  set (w2 := exec (fetchClaimableCapital clock ttl assets2) w1) in *.
  set (batch1 := batch_of (result (fetchClaimableCapital clock ttl assets1) w))
    in *.
  set (batch2 := batch_of (result (fetchClaimableCapital clock ttl assets2) w1))
    in *.
  set (needs1 := fst (needing_fetch clock ttl (entries (cacheRef w))
                        (inflightRequests w) (ticks w) assets1)) in *.
  set (needs2 := fst (needing_fetch clock ttl (entries (cacheRef w1))
                        (inflightRequests w1) (ticks w1) assets2)) in *.
  (* keys of the second batch *)
  assert (Hsecond : forall ids k, In ids batch2 -> In k ids ->
     (exists asset, In asset assets2 /\ id asset = k) /\
     inflightRequests w1 !! k = None /\
     (forall ids1, In ids1 batch1 -> ~ In k ids1) /\
     (JsMap.get k (entries (cacheRef w1)) = None \/
      exists entry t,
        JsMap.get k (entries (cacheRef w1)) = Some entry /\
        (ticks w1 <= t < ticks w2)%nat /\
        ttl <= clock t - timestamp entry)).
  { intros ids k Hids Hk. rewrite Hb2 in Hids.
    destruct needs2 as [|a2 needs2'] eqn:En2; [destruct Hids|].
    destruct Hids as [<-|[]].
    apply in_map_iff in Hk as (asset & <- & Hasset).
    rewrite <- En2 in Hasset. unfold needs2 in Hasset.
    apply needing_fetch_sound in Hasset as (Hfrom & Hidle & Hstale).
    split; [now exists asset|]. split; [exact Hidle|]. split.
    - intros ids1 Hids1 Hk1. rewrite Hb1 in Hids1.
      destruct needs1 as [|a1 needs1'] eqn:En1; [destruct Hids1|].
      destruct Hids1 as [<-|[]].
      rewrite (Hin1 _ Hk1) in Hidle. discriminate.
    - rewrite Hticks2. exact Hstale. }
  split; [now rewrite Hlog2, Hlog1, app_assoc|].
  split; [rewrite Hb1; destruct needs1; cbn; lia|].
  split; [rewrite Hb2; destruct needs2; cbn; lia|].
  split; [exact Hsecond|].
  (* a key of the first batch is in no second batch *)
  assert (Hcount2 : forall k ids1, In ids1 batch1 -> In k ids1 ->
                                   invocations_for k batch2 = 0%nat).
  { intros k ids1 Hids1 Hk1. rewrite Hb2.
    destruct needs2 as [|a2 needs2'] eqn:En2; [reflexivity|].
    rewrite invocations_for_single.
    destruct (existsb (String.eqb k) (map id (a2 :: needs2'))) eqn:E;
      [|reflexivity].
    apply existsb_eqb_In in E. exfalso.
    assert (Hb2' : In (map id (a2 :: needs2')) batch2)
      by (rewrite Hb2; now left).
    destruct (Hsecond _ _ Hb2' E) as (_ & _ & Hnot & _).
    exact (Hnot ids1 Hids1 Hk1). }
  assert (Hsplit : forall k,
            invocations_for k (batch1 ++ batch2)
            = (invocations_for k batch1 + invocations_for k batch2)%nat).
  { intros k. unfold invocations_for.
    now rewrite List.filter_app, length_app. }
  split.
  - intros k. rewrite Hsplit.
    destruct needs1 as [|a1 needs1'] eqn:En1.
    + rewrite Hb1. cbn [invocations_for List.filter length Nat.add].
      rewrite Hb2. destruct needs2 as [|a2 needs2'];
        [unfold invocations_for; cbn; lia|].
      rewrite invocations_for_single. destruct (existsb _ _); cbn; lia.
    + assert (Hb1' : In (map id (a1 :: needs1')) batch1)
        by (rewrite Hb1; now left).
      rewrite Hb1 at 1. rewrite invocations_for_single.
      destruct (existsb (String.eqb k) (map id (a1 :: needs1'))) eqn:E.
      * apply existsb_eqb_In in E. rewrite (Hcount2 k _ Hb1' E). lia.
      * rewrite Hb2. destruct needs2 as [|a2 needs2'];
        [unfold invocations_for; cbn; lia|].
        rewrite invocations_for_single.
        destruct (existsb (String.eqb k) (map id (a2 :: needs2'))); cbn; lia.
  - intros asset Hasset Hget Hidle. rewrite Hsplit.
    destruct (in_dec String.string_dec (id asset) (map id needs1))
      as [Hfirst|Hnotfirst].
    + (* sent by the first call *)
      destruct needs1 as [|a1 needs1'] eqn:En1; [destruct Hfirst|].
      assert (Hb1' : In (map id (a1 :: needs1')) batch1)
        by (rewrite Hb1; now left).
      rewrite (Hcount2 _ _ Hb1' Hfirst).
      rewrite Hb1, invocations_for_single.
      apply existsb_eqb_In in Hfirst. now rewrite Hfirst.
    + (* not sent by the first call: the second call must hold it *)
      assert (Hnot1 : ~ In asset assets1).
      { intros Hin. apply Hnotfirst. apply in_map. unfold needs1.
        now apply needing_fetch_complete. }
      apply in_app_or in Hasset as [Hin|Hin]; [contradiction|].
      assert (Hneeds2 : In asset needs2).
      { unfold needs2. apply needing_fetch_complete; [assumption| |].
        - now rewrite Href1.
        - now rewrite (Hout1 _ Hnotfirst). }
      assert (Hzero : invocations_for (id asset) batch1 = 0%nat).
      { rewrite Hb1. destruct needs1 as [|a1 needs1']; [reflexivity|].
        rewrite invocations_for_single.
        destruct (existsb _ _) eqn:E; [|reflexivity].
        apply existsb_eqb_In in E. contradiction. }
      rewrite Hzero, Hb2.
      destruct needs2 as [|a2 needs2'] eqn:En2; [destruct Hneeds2|].
      rewrite invocations_for_single.
      assert (E : existsb (String.eqb (id asset)) (map id (a2 :: needs2'))
                  = true).
      { apply existsb_eqb_In. now apply in_map. }
      now rewrite E.
Qed.

Lemma overlapping_fetches_request_each_key_once_witness :
  let call1 :=
    fetchClaimableCapital ticking_clock 300000 [mkAsset "A"; mkAsset "B"] in
  let w1 := exec call1 initial_world in
  let call2 :=
    fetchClaimableCapital ticking_clock 300000 [mkAsset "B"; mkAsset "C"] in
  let w2 := exec call2 w1 in
  fetchLog w2 = [["A"; "B"]; ["C"]] /\
  invocations_for "B" (fetchLog w2) = 1%nat.
Proof.
  cbv zeta.
  destruct (overlapping_fetches_request_each_key_once
              ticking_clock 300000 initial_world
              [mkAsset "A"; mkAsset "B"] [mkAsset "B"; mkAsset "C"])
    as (Hlog & _ & _ & _ & _ & Honce).
  rewrite Hlog. split; [reflexivity|].
  apply (Honce (mkAsset "B")).
  - right. now left.
  - reflexivity.
  - reflexivity.
Defined.

(** ** Retrying *)

Section Retry.
Variable clock : nat -> Z.
Variable ttl : Z.

Lemma clears_then_fetch_run assetIds data w :
  clears_then_fetch clock ttl assetIds data w =
  fetchClaimableCapital clock ttl (assetsToRetry assetIds data)
                        (clear_world assetIds w).
Proof.
  unfold clears_then_fetch, bind.
  rewrite forEach_run by reflexivity. reflexivity.
Qed.

Lemma clear_world_fields assetIds w :
  ticks (clear_world assetIds w) = ticks w /\
  inflightRequests (clear_world assetIds w) = inflightRequests w /\
  fetchLog (clear_world assetIds w) = fetchLog w /\
  entries (cache (clear_world assetIds w))
  = fold_left (fun m k => JsMap.delete k m) assetIds (entries (cache w)) /\
  (entries (cacheRef w) = entries (cache w) ->
   entries (cacheRef (clear_world assetIds w))
   = entries (cache (clear_world assetIds w))).
Proof.
  unfold clear_world. revert w.
  induction assetIds as [|k ids IH]; intros w; cbn [fold_left].
  - repeat split. auto.
  - destruct (IH (exec (clearCacheEntry k) w)) as (H1 & H2 & H3 & H4 & H5).
    split; [exact H1|]. split; [exact H2|]. split; [exact H3|].
    split; [exact H4|]. intros _. apply H5. reflexivity.
Qed.

Lemma delete_fold_out (ids : list string)
      (m : list (string * CachedRedeemableCapital)) (k : string) :
  ~ In k ids ->
  JsMap.get k (fold_left (fun m k => JsMap.delete k m) ids m) = JsMap.get k m.
Proof.
  revert m. induction ids as [|k0 ids IH]; intros m Hout; [reflexivity|].
  cbn [fold_left]. cbn in Hout. rewrite IH by tauto.
  apply JsMapFacts.get_delete_ne. tauto.
Qed.

Lemma delete_fold_in (ids : list string)
      (m : list (string * CachedRedeemableCapital)) (k : string) :
  JsMap.wf m -> In k ids ->
  JsMap.get k (fold_left (fun m k => JsMap.delete k m) ids m) = None.
Proof.
  revert m. induction ids as [|k0 ids IH]; intros m Hwf; [intros []|].
  cbn [fold_left]. intros Hin.
  destruct (in_dec String.string_dec k ids) as [Hlater|Hnot].
  - apply IH; [now apply JsMapFacts.wf_delete|assumption].
  - destruct Hin as [->|Hin]; [|contradiction].
    rewrite delete_fold_out by assumption.
    now apply JsMapFacts.get_delete_eq.
Qed.

(** When none of the assets has an entry or a request in flight, the
    filter keeps them all and does not read the clock. *)
Lemma needing_fetch_all cached (inflight : gmap string nat) t assets :
  (forall a, In a assets ->
             JsMap.get (id a) cached = None /\ inflight !! id a = None) ->
  needing_fetch clock ttl cached inflight t assets = (assets, t).
Proof.
  induction assets as [|a rest IH]; intros Hall; [reflexivity|].
  cbn. destruct (Hall a (or_introl eq_refl)) as [Hget Hidle].
  rewrite Hget, Hidle, IH by (intros a' Ha'; apply Hall; now right).
  rewrite bool_decide_eq_false_2; [reflexivity|].
  intros [? ?]. discriminate.
Qed.

Lemma assetsToRetry_ids assetIds data k :
  In k (map id (assetsToRetry assetIds data)) -> In k assetIds.
Proof.
  intros Hk. apply in_map_iff in Hk as (a & <- & Ha).
  apply filter_In in Ha as [_ Ha]. apply existsb_exists in Ha.
  destruct Ha as (x & Hx & E). apply String.eqb_eq in E. now subst.
Qed.

End Retry.

(** ** Updates that wait for the render *)

Section QueuedFacts.
Variable clock : nat -> Z.
Variable ttl : Z.
Variable maxSize : Z.
Variable eager : bool.

(** [clearCacheEntry] is its two updates, one after the other. *)
Lemma clearCacheEntry_updates bondId :
  clearCacheEntry bondId =
  (run clearCacheEntry_entry bondId then clearCacheEntry_flag bondId).
Proof. reflexivity. Qed.

(** An update of [cache] issued while another update is pending, or when
    React does not take its eager path, runs nothing. *)
Lemma setCache_queued update f :
  scheduled f = true \/ eager = false ->
  Queued.setCache eager update f =
  (Normal tt,
   mkFiber (store f) (cacheUpdates f ++ [update])%list (loadingUpdates f)
           true).
Proof.
  intros Hlate. unfold Queued.setCache.
  destruct Hlate as [-> | ->]; [reflexivity|].
  now rewrite andb_false_r.
Qed.


(** With nothing else in the queue, the render after a write leaves the
    store the run of the updater leaves. *)
Lemma setCachedValue_rendered bondId value error f :
  cacheUpdates f = [] -> loadingUpdates f = [] ->
  store (Queued.qexec Queued.render
           (Queued.qexec
              (Queued.setCachedValue clock maxSize eager bondId value error)
              f))
  = exec (setCachedValue clock maxSize bondId value error) (store f).
Proof.
  intros Hc Hl.
  unfold Queued.qexec, Queued.setCachedValue, Queued.setCache, Queued.render.
  destruct (negb (scheduled f) && eager);
    cbn [snd store cacheUpdates loadingUpdates]; rewrite Hc, Hl;
    cbn [fold_left app];
    unfold exec; rewrite setCachedValue_run; reflexivity.
Qed.

Lemma clearCacheEntry_rendered bondId f :
  cacheUpdates f = [] -> loadingUpdates f = [] ->
  store (Queued.qexec Queued.render
           (Queued.qexec (Queued.clearCacheEntry eager bondId) f))
  = exec (clearCacheEntry bondId) (store f).
Proof.
  intros Hc Hl.
  unfold Queued.qexec, Queued.clearCacheEntry, Queued.qbind,
    Queued.setLoadingBonds, Queued.setCache, Queued.render.
  destruct (negb (scheduled f) && eager);
    cbn [snd store cacheUpdates loadingUpdates]; rewrite Hc, Hl;
    reflexivity.
Qed.

(** Loading flags set in a loop: all of them wait in the queue. *)
Lemma queued_loading_run (b : bool) ids f :
  exists late,
    Queued.qforEach ids (fun k => Queued.setLoadingState k b) f =
    (Normal tt,
     mkFiber (store f) (cacheUpdates f)
             (loadingUpdates f ++ map (fun k => setLoadingState k b) ids)%list
             late).
Proof.
  revert f. induction ids as [|k ids IH]; intros f.
  - exists (scheduled f). cbn. rewrite app_nil_r. now destruct f.
  - cbn [Queued.qforEach map]. unfold Queued.qbind.
    unfold Queued.setLoadingState at 1. unfold Queued.setLoadingBonds.
    destruct (IH (mkFiber (store f) (cacheUpdates f)
                    (loadingUpdates f ++ [setLoadingState k b])%list true))
      as (late & Hrun).
    exists late. rewrite Hrun.
    cbn [store cacheUpdates loadingUpdates].
    now rewrite <- List.app_assoc.
Qed.

(** Clears issued in a loop while an update is pending, or without the
    eager path: all of them wait in the queue, the store is untouched. *)
Lemma queued_clears_run ids f :
  scheduled f = true \/ eager = false ->
  exists updates flags late,
    Queued.qforEach ids (Queued.clearCacheEntry eager) f =
    (Normal tt, mkFiber (store f) updates flags late).
Proof.
  revert f. induction ids as [|k ids IH]; intros f Hlate.
  - exists (cacheUpdates f), (loadingUpdates f), (scheduled f).
    cbn. now destruct f.
  - cbn [Queued.qforEach]. unfold Queued.qbind at 1.
    unfold Queued.clearCacheEntry at 1. unfold Queued.qbind at 1.
    rewrite setCache_queued by assumption.
    unfold Queued.setLoadingBonds.
    cbn [store cacheUpdates loadingUpdates].
    match goal with
    | |- context [Queued.qforEach ids _ ?f1] =>
        destruct (IH f1) as (updates & flags & late & Hrun);
          [now left|]
    end.
    exists updates, flags, late. exact Hrun.
Qed.

Lemma fold_left_same {X} (g h : World -> X -> World) xs w :
  (forall w x, g w x = h w x) -> fold_left g xs w = fold_left h xs w.
Proof.
  intros Hgh. revert w. induction xs as [|x xs IH]; intros w; [reflexivity|].
  cbn. now rewrite Hgh, IH.
Qed.

Lemma fold_exec_map {X} (u : X -> M unit) xs w :
  fold_left (fun w update => exec update w) (map u xs) w
  = fold_left (fun w x => exec (u x) w) xs w.
Proof.
  revert w. induction xs as [|x xs IH]; intros w; [reflexivity|].
  cbn. apply IH.
Qed.

(** [fetchClaimableCapital] under the queue does what its run on the store
    does, except that the loading flags of the batch wait in the queue. *)
Lemma queued_fetchClaimableCapital_run assets f :
  let plain := fetchClaimableCapital clock ttl assets in
  exists late,
    Queued.fetchClaimableCapital clock ttl assets f =
    (result plain (store f),
     mkFiber (with_loadingBonds (loadingBonds (store f))
                                (exec plain (store f)))
             (cacheUpdates f)
             (loadingUpdates f ++
              map (fun k => setLoadingState k true)
                  (concat (batch_of (result plain (store f)))))%list
             late).
Proof.
  cbv zeta. unfold result, exec. rewrite fetchClaimableCapital_run. cbv zeta.
  unfold Queued.fetchClaimableCapital. unfold Queued.qbind at 1.
  unfold Queued.lift at 1. unfold result, exec.
  rewrite needs_filter_run. cbv zeta. cbn [fst snd].
  destruct (needing_fetch clock ttl (entries (cacheRef (store f)))
                          (inflightRequests (store f)) (ticks (store f))
                          assets) as [needs t1].
  cbn [fst snd]. destruct needs as [|a needs].
  - cbn [length Nat.eqb]. unfold Queued.qbind at 1.
    unfold Queued.lift at 1. unfold result, exec.
    rewrite (filterM_pure _
      (fun a => bool_decide (is_Some (inflightRequests (store f) !! id a))))
      by reflexivity.
    cbn [fst snd store cacheUpdates loadingUpdates scheduled].
    exists (scheduled f).
    destruct (Nat.ltb 0 _).
    + unfold Queued.qbind, Queued.lift, result, exec.
      rewrite (foldM_pure _
        (fun acc a => (acc ++ [inflightRequests (store f) !! id a])%list))
        by reflexivity.
      cbn [fst snd batch_of concat map]. now rewrite app_nil_r.
    + cbn [fst snd batch_of concat map]. now rewrite app_nil_r.
  - cbn [length Nat.eqb]. unfold Queued.qbind at 1.
    set (ids := map id (a :: needs)).
    match goal with
    | |- context [Queued.qforEach ids _ ?f1] =>
        destruct (queued_loading_run true ids f1) as (late & Hrun)
    end.
    rewrite Hrun. cbn [store cacheUpdates loadingUpdates].
    unfold Queued.qbind at 1. unfold Queued.lift at 1.
    cbn [store cacheUpdates loadingUpdates scheduled].
    assert (Hstart : forall w,
              operation_start ids w =
              (Normal (next_id w),
               with_next_id (S (next_id w))
                 (with_fetchLog (fetchLog w ++ [ids])%list w)))
      by reflexivity.
    unfold result, exec. rewrite Hstart. cbn [fst snd].
    unfold Queued.qbind, Queued.lift, result, exec.
    rewrite forEach_run by reflexivity.
    cbn [fst snd store cacheUpdates loadingUpdates scheduled].
    rewrite inflight_fold_run, issue_world_fields.
    cbn [batch_of concat]. rewrite app_nil_r.
    exists late. reflexivity.
Qed.

(** The part of [fetchClaimableCapital] before its [await]: after the
    render the store is the one left by applying the loading flags as
    they are issued. *)
Lemma fetchClaimableCapital_rendered assets f :
  cacheUpdates f = [] -> loadingUpdates f = [] ->
  Queued.qresult (Queued.fetchClaimableCapital clock ttl assets) f
  = result (fetchClaimableCapital clock ttl assets) (store f) /\
  rendered_after (Queued.fetchClaimableCapital clock ttl assets) f
  = applied (fetchClaimableCapital clock ttl assets) (store f).
Proof.
  intros Hc Hl.
  destruct (queued_fetchClaimableCapital_run assets f) as (late & Hrun).
  unfold rendered_after, applied, Queued.qresult, Queued.qexec.
  rewrite Hrun. split; [reflexivity|].
  unfold Queued.render. cbn [snd store cacheUpdates loadingUpdates].
  rewrite Hc, Hl. cbn [fold_left app].
  rewrite fold_exec_map, loading_fold_run.
  cbn [loadingBonds with_loadingBonds].
  destruct (fetch_call_spec clock ttl assets (store f)) as (Hbatch & _).
  rewrite Hbatch.
  unfold result, exec. rewrite fetchClaimableCapital_run. cbv zeta.
  destruct (fst (needing_fetch clock ttl (entries (cacheRef (store f)))
                               (inflightRequests (store f))
                               (ticks (store f)) assets)) as [|a needs].
  - reflexivity.
  - cbn [snd concat]. rewrite app_nil_r, issue_world_fields. reflexivity.
Qed.


(** Writes issued in a loop: whichever of them React runs at the call,
    running the queue afterwards gives what running them one after the
    other gives. *)
Lemma queued_writes_run {X} (u : X -> M unit) xs f :
  (scheduled f = false -> cacheUpdates f = []) ->
  exists f',
    Queued.qforEach xs (fun x => Queued.setCache eager (u x)) f
    = (Normal tt, f') /\
    loadingUpdates f' = loadingUpdates f /\
    fold_left (fun w update => exec update w) (cacheUpdates f') (store f')
    = fold_left (fun w x => exec (u x) w) xs
        (fold_left (fun w update => exec update w) (cacheUpdates f)
                   (store f)).
Proof.
  revert f. induction xs as [|x xs IH]; intros f Hidle.
  - exists f. repeat split.
  - cbn [Queued.qforEach fold_left]. unfold Queued.qbind at 1.
    unfold Queued.setCache at 1.
    destruct (negb (scheduled f) && eager) eqn:E.
    + apply andb_prop in E as [E _]. apply negb_true_iff in E.
      specialize (Hidle E).
      destruct (IH (mkFiber (exec (u x) (store f)) (cacheUpdates f)
                            (loadingUpdates f) true))
        as (f' & Hrun & Hflags & Hflush); [discriminate|].
      exists f'. split; [exact Hrun|]. split; [exact Hflags|].
      rewrite Hflush. cbn [store cacheUpdates]. rewrite Hidle. reflexivity.
    + destruct (IH (mkFiber (store f) (cacheUpdates f ++ [u x])%list
                            (loadingUpdates f) true))
        as (f' & Hrun & Hflags & Hflush); [discriminate|].
      exists f'. split; [exact Hrun|]. split; [exact Hflags|].
      rewrite Hflush. cbn [store cacheUpdates].
      now rewrite fold_left_app.
Qed.

(** The continuation of [fetchClaimableCapital]: after the render the
    store is the one left by applying its updates as they are issued. *)
Lemma operationPromise_settles_rendered p assetIds service f :
  cacheUpdates f = [] -> loadingUpdates f = [] ->
  Queued.qresult
    (Queued.operationPromise_settles clock maxSize eager p assetIds service) f
  = Normal tt /\
  rendered_after
    (Queued.operationPromise_settles clock maxSize eager p assetIds service) f
  = applied (operationPromise_settles clock maxSize p assetIds service)
            (store f).
Proof.
  intros Hc Hl.
  set (w0 := cleanup_world p (store f)).
  set (f0 := mkFiber w0 (cacheUpdates f) (loadingUpdates f) (scheduled f)).
  assert (Hstart :
    Queued.operationPromise_settles clock maxSize eager p assetIds service f
    = Queued.fetchClaimableCapital_resume clock maxSize eager assetIds
                                          service f0).
  { unfold Queued.operationPromise_settles.
    unfold Queued.qbind at 1. unfold Queued.lift at 1.
    cbn [gets result exec fst snd store cacheUpdates loadingUpdates
         scheduled].
    unfold Queued.qbind at 1. unfold Queued.lift at 1.
    cbn [modify result exec fst snd store cacheUpdates loadingUpdates
         scheduled].
    unfold Queued.qbind at 1. unfold Queued.lift at 1.
    unfold result at 1, exec at 1.
    rewrite forEach_run by reflexivity.
    cbn [fst snd store cacheUpdates loadingUpdates scheduled].
    reflexivity. }
  assert (Hwrites : exists f1,
    Queued.qtry_catch
      (Queued.qbind (Queued.lift (operation_finish service))
         (fun results =>
            Queued.qforEach results (fun fetchResult =>
              Queued.setCachedValue clock maxSize eager
                (bondId fetchResult) (claimableAmount fetchResult)
                (result_error fetchResult))))
      (fun _ =>
         Queued.qforEach assetIds (fun assetId =>
           Queued.setCachedValue clock maxSize eager assetId "0"
                                 (Some "Failed to load")))
      f0 = (Normal tt, f1) /\
    loadingUpdates f1 = [] /\
    fold_left (fun w update => exec update w) (cacheUpdates f1) (store f1)
    = match service with
      | Fulfilled results => write_results clock maxSize results w0
      | Rejected _ => write_failures clock maxSize assetIds w0
      end).
  { unfold Queued.qtry_catch, Queued.qbind at 1, Queued.lift at 1.
    destruct service as [results|reason].
    - change (result (operation_finish (Fulfilled results)) (store f0))
        with (@Normal (list LazyClaimablePrincipalResult) results).
      change (exec (operation_finish (Fulfilled results)) (store f0))
        with w0.
      destruct (queued_writes_run
                  (fun r => setCachedValue clock maxSize (bondId r)
                              (claimableAmount r) (result_error r))
                  results f0) as (f1 & Hrun & Hflags & Hflush).
      { intros _. exact Hc. }
      exists f1. split.
      { match goal with
        | |- context [Queued.qforEach results ?g ?ff] =>
            change (Queued.qforEach results g ff)
              with (Queued.qforEach results
                      (fun x => Queued.setCache eager
                         (setCachedValue clock maxSize (bondId x)
                            (claimableAmount x) (result_error x))) f0)
        end.
        now rewrite Hrun. }
      split; [now rewrite Hflags|].
      rewrite Hflush. unfold f0. cbn [store cacheUpdates]. rewrite Hc.
      cbn [fold_left].
      unfold write_results. apply fold_left_same. intros w x.
      unfold exec. now rewrite setCachedValue_run.
    - change (result (operation_finish (Rejected reason)) (store f0))
        with (@Thrown (list LazyClaimablePrincipalResult) reason).
      change (exec (operation_finish (Rejected reason)) (store f0))
        with w0.
      destruct (queued_writes_run
                  (fun k => setCachedValue clock maxSize k "0"
                              (Some "Failed to load"))
                  assetIds f0) as (f1 & Hrun & Hflags & Hflush).
      { intros _. exact Hc. }
      exists f1. split.
      { match goal with
        | |- context [Queued.qforEach assetIds ?g ?ff] =>
            change (Queued.qforEach assetIds g ff)
              with (Queued.qforEach assetIds
                      (fun x => Queued.setCache eager
                         (setCachedValue clock maxSize x "0"
                            (Some "Failed to load"))) f0)
        end.
        now rewrite Hrun. }
      split; [now rewrite Hflags|].
      rewrite Hflush. unfold f0. cbn [store cacheUpdates]. rewrite Hc.
      cbn [fold_left].
      unfold write_failures. apply fold_left_same. intros w x.
      unfold exec. now rewrite setCachedValue_run. }
  destruct Hwrites as (f1 & Hrun & Hflags & Hflush).
  destruct (queued_loading_run false assetIds f1) as (late & Hloading).
  assert (Hsettle :
    Queued.operationPromise_settles clock maxSize eager p assetIds service f
    = (Normal tt,
       mkFiber (store f1) (cacheUpdates f1)
               (map (fun k => setLoadingState k false) assetIds) late)).
  { rewrite Hstart. unfold Queued.fetchClaimableCapital_resume.
    unfold Queued.qbind at 1. rewrite Hrun. rewrite Hloading.
    now rewrite Hflags. }
  unfold rendered_after, applied, Queued.qresult, Queued.qexec.
  rewrite Hsettle. split; [reflexivity|].
  unfold Queued.render. cbn [snd store cacheUpdates loadingUpdates].
  rewrite Hflush, fold_exec_map.
  unfold exec at 3 4.
  rewrite operationPromise_settles_run, fetchClaimableCapital_resume_run.
  reflexivity.
Qed.

End QueuedFacts.

(** ** What a retry under the queue keeps *)

Section QueuedInvariant.
Variable clock : nat -> Z.
Variable ttl : Z.
Variable eager : bool.
Variable P : World -> Prop.
Hypothesis P_loading : forall w flags, P w -> P (with_loadingBonds flags w).
Hypothesis P_ref : forall w, P w -> P (with_cacheRef (cache w) w).
Hypothesis P_clear : forall bondId, keeps P (clearCacheEntry_entry bondId).
Hypothesis P_fetch :
  forall assets w, P w -> P (exec (fetchClaimableCapital clock ttl assets) w).

Lemma setCache_keeps update f :
  keeps P update -> Fiber_keeps P f ->
  Fiber_keeps P (Queued.qexec (Queued.setCache eager update) f).
Proof.
  intros Hupdate (Hstore & Hcache & Hflags).
  unfold Queued.qexec, Queued.setCache.
  destruct (negb (scheduled f) && eager); cbn [snd].
  - split; [now apply Hupdate|now split].
  - split; [assumption|]. split; [|assumption].
    apply Forall_app. split; [assumption|]. now constructor.
Qed.

Lemma setLoadingBonds_keeps update f :
  keeps P update -> Fiber_keeps P f ->
  Fiber_keeps P (Queued.qexec (Queued.setLoadingBonds update) f).
Proof.
  intros Hupdate (Hstore & Hcache & Hflags).
  unfold Queued.qexec, Queued.setLoadingBonds. cbn [snd].
  split; [assumption|]. split; [assumption|].
  apply Forall_app. split; [assumption|]. now constructor.
Qed.

Lemma loading_update_keeps (g : gset string -> gset string) :
  keeps P (setLoadingBonds g).
Proof. intros w Hw. apply P_loading. exact Hw. Qed.

Lemma queued_clears_keep ids f :
  Fiber_keeps P f ->
  exists f',
    Queued.qforEach ids (Queued.clearCacheEntry eager) f = (Normal tt, f') /\
    Fiber_keeps P f'.
Proof.
  revert f. induction ids as [|k ids IH]; intros f Hf.
  - exists f. split; [reflexivity|assumption].
  - cbn [Queued.qforEach]. unfold Queued.qbind at 1.
    unfold Queued.clearCacheEntry at 1. unfold Queued.qbind at 1.
    pose proof (setCache_keeps (clearCacheEntry_entry k) f (P_clear k) Hf)
      as Hf1.
    unfold Queued.qexec in Hf1.
    assert (Hres : fst (Queued.setCache eager (clearCacheEntry_entry k) f)
                   = Normal tt).
    { unfold Queued.setCache. now destruct (negb (scheduled f) && eager). }
    destruct (Queued.setCache eager (clearCacheEntry_entry k) f)
      as [r f1]. cbn [fst snd] in *. subst r.
    pose proof (setLoadingBonds_keeps (clearCacheEntry_flag k) f1
                  (loading_update_keeps _) Hf1) as Hf2.
    unfold Queued.qexec in Hf2.
    unfold Queued.setLoadingBonds in *. cbn [snd] in Hf2.
    now apply IH.
Qed.

Lemma queued_fetch_keeps assets f :
  Fiber_keeps P f ->
  Fiber_keeps P
    (Queued.qexec (Queued.fetchClaimableCapital clock ttl assets) f).
Proof.
  intros (Hstore & Hcache & Hflags).
  destruct (queued_fetchClaimableCapital_run clock ttl assets f)
    as (late & Hrun).
  unfold Queued.qexec. rewrite Hrun. cbn [snd].
  split; [apply P_loading; now apply P_fetch|].
  split; [assumption|].
  apply Forall_app. split; [assumption|].
  apply Forall_forall. intros update Hin.
  apply list_elem_of_In in Hin. apply in_map_iff in Hin as (k & <- & _).
  apply loading_update_keeps.
Qed.

Lemma render_keeps f : Fiber_keeps P f -> P (store (Queued.qexec Queued.render f)).
Proof.
  intros (Hstore & Hcache & Hflags).
  unfold Queued.qexec, Queued.render. cbn [snd store].
  apply P_ref.
  assert (Hfold : forall updates w,
            Forall (keeps P) updates -> P w ->
            P (fold_left (fun w update => exec update w) updates w)).
  { intros updates. induction updates as [|u updates IH]; intros w Hall Hw;
      [exact Hw|].
    cbn [fold_left]. inversion Hall as [|? ? Hu Hrest]; subst.
    apply IH; [assumption|]. now apply Hu. }
  apply Hfold; [assumption|]. now apply Hfold.
Qed.

(** A retry under the queue, then the render, keeps what its clears and
    its fetch keep. *)
Lemma queued_retry_keeps assetIds data w :
  P w ->
  P (rendered_after (Queued.retryFailedFetches clock ttl eager assetIds data)
                    (rendered w)).
Proof.
  intros Hw. unfold rendered_after.
  apply render_keeps.
  unfold Queued.qexec, Queued.retryFailedFetches, Queued.qbind.
  destruct (queued_clears_keep assetIds (rendered w)) as (f' & Hrun & Hf').
  { split; [exact Hw|]. split; constructor. }
  rewrite Hrun. now apply queued_fetch_keeps.
Qed.

End QueuedInvariant.

(** ** Well-formed worlds *)

Section Invariant.
Variable clock : nat -> Z.
Variable ttl : Z.
Variable maxSize : Z.

Lemma initial_world_ok : World_ok initial_world.
Proof.
  unfold World_ok, initial_world, JsMap.wf. cbn.
  split; [constructor|]. split; [reflexivity|]. split; lia.
Qed.

Lemma evict_contents_wf now m : JsMap.wf m -> JsMap.wf (evict_contents now m).
Proof.
  intros Hwf. unfold evict_contents.
  destruct (fst (fold_left oldest_step m (None, now))) as [k|]; [|assumption].
  destruct (truthy k); [now apply JsMapFacts.wf_delete|assumption].
Qed.

Lemma sweep_from_wf t m acc :
  JsMap.wf acc -> JsMap.wf (sweep_from clock ttl t m acc).
Proof.
  revert t acc. induction m as [|kv m IH]; intros t acc Hwf; cbn.
  - assumption.
  - apply IH.
    destruct (clock t - timestamp (snd kv) <? ttl);
      [now apply JsMapFacts.wf_set|assumption].
Qed.

Lemma setCachedValue_world_ok k v e w :
  World_ok w -> World_ok (setCachedValue_world clock maxSize k v e w).
Proof.
  intros (Hwf & _ & _ & _). unfold World_ok, setCachedValue_world.
  cbn [cache cacheRef entries oid next_id].
  split; [|split; [reflexivity|split; lia]].
  apply JsMapFacts.wf_set.
  destruct (maxSize <=? _); [now apply evict_contents_wf|assumption].
Qed.

Lemma write_failures_ok ids w :
  World_ok w -> World_ok (write_failures clock maxSize ids w).
Proof.
  unfold write_failures. revert w.
  induction ids as [|k ids IH]; intros w Hok; cbn [fold_left];
    [assumption|].
  apply IH. now apply setCachedValue_world_ok.
Qed.

Lemma write_results_ok results w :
  World_ok w -> World_ok (write_results clock maxSize results w).
Proof.
  unfold write_results. revert w.
  induction results as [|r rs IH]; intros w Hok; cbn [fold_left];
    [assumption|].
  apply IH. now apply setCachedValue_world_ok.
Qed.

Lemma clear_world_ok ids w : World_ok w -> World_ok (clear_world ids w).
Proof.
  unfold clear_world. revert w.
  induction ids as [|k ids IH]; intros w Hok; cbn [fold_left];
    [assumption|].
  apply IH. destruct Hok as (Hwf & _ & _ & _).
  unfold World_ok. cbn.
  split; [now apply JsMapFacts.wf_delete|].
  split; [reflexivity|split; lia].
Qed.

Lemma fetchClaimableCapital_ok assets w :
  World_ok w -> World_ok (exec (fetchClaimableCapital clock ttl assets) w).
Proof.
  intros (Hwf & Hsync & Hc & Hr). unfold exec.
  rewrite fetchClaimableCapital_run. cbv zeta.
  destruct (fst (needing_fetch clock ttl (entries (cacheRef w))
                               (inflightRequests w) (ticks w) assets)).
  - cbn. repeat split; assumption.
  - cbn [snd]. rewrite issue_world_fields. unfold World_ok.
    cbn. repeat split; try assumption; lia.
Qed.

(** Every step keeps the world well formed. *)
Lemma step_ok w w' : World_ok w -> step clock ttl maxSize w w' -> World_ok w'.
Proof.
  intros Hok Hstep.
  destruct Hstep as [k w|k v e w|k w|w|w|w|k b w|assets w
                    |p assetIds service w|assetIds data w
                    |eager assetIds data w].
  - unfold exec. rewrite getCachedValue_run.
    destruct (JsMap.get k (entries (cacheRef w))); exact Hok.
  - unfold exec. rewrite setCachedValue_run.
    now apply setCachedValue_world_ok.
  - now apply (clear_world_ok [k]).
  - unfold World_ok. cbn. split; [constructor|].
    split; [reflexivity|split; lia].
  - destruct Hok as (Hwf & _ & _ & _). unfold exec.
    rewrite cleanExpiredEntries_run. unfold World_ok. cbn.
    split; [apply sweep_from_wf; constructor|].
    split; [reflexivity|split; lia].
  - destruct Hok as (Hwf & Hsync & Hc & Hr). unfold exec.
    rewrite cleanupInterval_run. cbv zeta.
    destruct (expired_from clock ttl (ticks w) (entries (cache w)) false);
      unfold World_ok; cbn.
    + split; [apply sweep_from_wf; constructor|].
      split; [reflexivity|split; lia].
    + repeat split; try assumption; lia.
  - exact Hok.
  - now apply fetchClaimableCapital_ok.
  - unfold exec.
    rewrite operationPromise_settles_run, fetchClaimableCapital_resume_run.
    cbn [snd]. rewrite loading_fold_run.
    assert (Hclean : World_ok (cleanup_world p w)).
    { destruct Hok as (Hwf & Hsync & Hc & Hr).
      destruct (cleanup_world_frame p w) as (H1 & H2 & _ & _ & _ & H6).
      unfold World_ok. rewrite H1, H2, H6. repeat split; assumption. }
    destruct service as [results|reason].
    + exact (write_results_ok results _ Hclean).
    + exact (write_failures_ok assetIds _ Hclean).
  - unfold exec. rewrite clears_then_fetch_run.
    apply fetchClaimableCapital_ok. now apply clear_world_ok.
  - apply (queued_retry_keeps clock ttl eager World_ok); try assumption.
    + intros w0 flags Hw0. exact Hw0.
    + intros w0 (Hwf & Hsync & Hc & Hr). unfold World_ok. cbn.
      repeat split; try assumption; lia.
    + intros k w0 Hw0. exact (clear_world_ok [k] w0 Hw0).
    + intros assets w0 Hw0. now apply fetchClaimableCapital_ok.
Qed.

(** Every world the provider can be in is well formed. *)
Lemma reachable_ok w : reachable clock ttl maxSize w -> World_ok w.
Proof.
  induction 1 as [|w w' _ IH Hstep].
  - exact initial_world_ok.
  - exact (step_ok w w' IH Hstep).
Qed.

End Invariant.

(** ** Sweeps under a running clock *)

Section RunningClock.
Variable clock : nat -> Z.
Variable ttl : Z.

(** What a sweep keeps when the clock moves while it runs: each entry is
    judged at the instant of its own check. *)
Lemma sweep_from_In t m acc kv :
  NoDup (JsMap.keys acc ++ JsMap.keys m) ->
  In kv (sweep_from clock ttl t m acc) <->
  In kv acc \/
  exists i, nth_error m i = Some kv /\
            clock (t + i)%nat - timestamp (snd kv) < ttl.
Proof.
  revert t acc. induction m as [|[k e] m IH]; intros t acc Hnd.
  - cbn. split; [auto|]. intros [H|(i & Hi & _)]; [assumption|].
    destruct i; discriminate.
  - cbn [sweep_from fst snd]. cbn [JsMap.keys map fst] in Hnd.
    assert (Hfresh : JsMap.get k acc = None).
    { apply JsMapFacts.get_None_keys. intros Hin.
      apply NoDup_app in Hnd as (_ & Hdisj & _).
      apply (Hdisj k); [now apply list_elem_of_In|left]. }
    assert (Hnd_keep :
      NoDup (JsMap.keys (acc ++ [(k, e)]) ++ JsMap.keys m)).
    { unfold JsMap.keys. rewrite map_app. cbn [map fst].
      now rewrite <- app_assoc. }
    assert (Hnd_drop : NoDup (JsMap.keys acc ++ JsMap.keys m)).
    { apply NoDup_app in Hnd as (Ha & Hdisj & Hm).
      apply NoDup_app. split; [assumption|]. split.
      - intros x Hx Hx'. apply (Hdisj x Hx). now right.
      - now inversion Hm. }
    destruct (clock t - timestamp e <? ttl) eqn:E.
    + apply Z.ltb_lt in E. rewrite JsMapFacts.set_absent by assumption.
      rewrite (IH (S t) _ Hnd_keep). rewrite in_app_iff. cbn [In].
      split.
      * intros [[H|[<-|[]]]|(i & Hi & Hv)].
        -- now left.
        -- right. exists 0%nat. split; [reflexivity|].
           now replace (t + 0)%nat with t by lia.
        -- right. exists (S i). split; [exact Hi|].
           now replace (t + S i)%nat with (S t + i)%nat by lia.
      * intros [H|(i & Hi & Hv)]; [now left; left|].
        destruct i as [|i]; cbn in Hi.
        -- injection Hi as <-. left. right. now left.
        -- right. exists i. split; [exact Hi|].
           now replace (S t + i)%nat with (t + S i)%nat by lia.
    + apply Z.ltb_ge in E. rewrite (IH (S t) _ Hnd_drop). split.
      * intros [H|(i & Hi & Hv)]; [now left|].
        right. exists (S i). split; [exact Hi|].
        now replace (t + S i)%nat with (S t + i)%nat by lia.
      * intros [H|(i & Hi & Hv)]; [now left|].
        destruct i as [|i]; cbn in Hi.
        -- injection Hi as <-. cbn [snd] in Hv.
           replace (t + 0)%nat with t in Hv by lia. lia.
        -- right. exists i. split; [exact Hi|].
           now replace (S t + i)%nat with (t + S i)%nat by lia.
Qed.

(** With a clock that never runs backwards, the manual sweep keeps every
    entry still valid at its last check, and keeps only entries that were
    valid at its first. *)
Lemma sweep_with_running_clock (w : World) :
  World_ok w ->
  (forall i j, (i <= j)%nat -> clock i <= clock j) ->
  let before := entries (cache w) in
  let after := entries (cache (exec (cleanExpiredEntries clock ttl) w)) in
  let first := clock (ticks w) in
  let last := clock (ticks w + length before)%nat in
  (forall kv, In kv before -> last - timestamp (snd kv) < ttl ->
              In kv after) /\
  (forall kv, In kv after ->
              In kv before /\ first - timestamp (snd kv) < ttl).
Proof.
  intros (Hwf & _) Hmono. cbv zeta. unfold exec.
  rewrite cleanExpiredEntries_run. cbn [snd cache entries].
  assert (Hnd : NoDup (JsMap.keys (@nil (string * CachedRedeemableCapital))
                       ++ JsMap.keys (entries (cache w)))) by exact Hwf.
  split.
  - intros kv Hin Hvalid.
    apply (sweep_from_In _ _ _ _ Hnd). right.
    apply In_nth_error in Hin as [i Hi]. exists i. split; [exact Hi|].
    assert (i < length (entries (cache w)))%nat
      by (apply nth_error_Some; congruence).
    pose proof (Hmono (ticks w + i)%nat
                      (ticks w + length (entries (cache w)))%nat).
    lia.
  - intros kv Hin.
    apply (sweep_from_In _ _ _ _ Hnd) in Hin as [[]|(i & Hi & Hv)].
    split; [eapply nth_error_In; eauto|].
    pose proof (Hmono (ticks w) (ticks w + i)%nat). lia.
Qed.

End RunningClock.

(** ** A refresh that evicts another key *)

(** With the clock advancing, a write to a key already present in a full
    map removes the oldest entry, a different key: "B" and "A" fill a map
    of capacity 2, and refreshing "A" evicts "B". *)
Example refresh_at_capacity_evicts_another_key :
  let set := setCachedValue ticking_clock 2 in
  let w2 := exec (set "A" "1" None) (exec (set "B" "2" None) initial_world) in
  let w3 := exec (set "A" "7" None) w2 in
  JsMap.keys (entries (cache w2)) = ["B"; "A"] /\
  JsMap.keys (entries (cache w3)) = ["A"] /\
  JsMap.get "A" (entries (cache w3)) = Some (mkEntry "7" 103 None).
Proof. cbv zeta. repeat split; reflexivity. Qed.

(** ** More facts about maps in insertion order *)

Section MoreMapFacts.
Context {V : Type}.
Implicit Types (m : list (string * V)) (k : string) (v : V).

Lemma In_set_inv k v m x : In x (JsMap.set k v m) -> x = (k, v) \/ In x m.
Proof.
  induction m as [|[k0 v0] m IH]; cbn.
  - intuition.
  - destruct (String.eqb k k0); cbn; intuition.
Qed.

Lemma In_delete_inv k m x : In x (JsMap.delete k m) -> In x m.
Proof.
  induction m as [|[k0 v0] m IH]; cbn; [auto|].
  destruct (String.eqb k k0); cbn; intuition.
Qed.

Lemma length_delete_ge k m : (length m <= S (length (JsMap.delete k m)))%nat.
Proof.
  induction m as [|[k0 v0] m IH]; cbn; [lia|].
  destruct (String.eqb k k0); cbn; lia.
Qed.

Lemma length_set_ge k v m : (length m <= length (JsMap.set k v m))%nat.
Proof.
  induction m as [|[k0 v0] m IH]; cbn; [lia|].
  destruct (String.eqb k k0); cbn; lia.
Qed.

Lemma keys_set_present k v m :
  JsMap.get k m <> None -> JsMap.keys (JsMap.set k v m) = JsMap.keys m.
Proof.
  unfold JsMap.keys.
  induction m as [|[k0 v0] m IH]; cbn; [congruence|].
  destruct (String.eqb k k0) eqn:E; cbn.
  - apply String.eqb_eq in E. now subst.
  - intros H. f_equal. now apply IH.
Qed.

Lemma get_set_other_none k k' v m :
  k <> k' -> JsMap.get k' m = None -> JsMap.get k' (JsMap.set k v m) = None.
Proof. intros Hne H. now rewrite JsMapFacts.get_set_ne. Qed.

Lemma get_delete_none k k' m :
  JsMap.get k' m = None -> JsMap.get k' (JsMap.delete k m) = None.
Proof.
  intros H. apply JsMapFacts.get_None_keys. intros Hin.
  apply JsMapFacts.keys_delete_incl in Hin.
  now apply JsMapFacts.get_None_keys in H.
Qed.

End MoreMapFacts.

Lemma In_evict_inv now m x : In x (evict_contents now m) -> In x m.
Proof.
  unfold evict_contents.
  destruct (fst (fold_left oldest_step m (None, now))) as [k|]; [|auto].
  destruct (truthy k); [apply In_delete_inv|auto].
Qed.

Lemma get_evict_none now m k :
  JsMap.get k m = None -> JsMap.get k (evict_contents now m) = None.
Proof.
  unfold evict_contents.
  destruct (fst (fold_left oldest_step m (None, now))) as [k0|]; [|auto].
  destruct (truthy k0); [apply get_delete_none|auto].
Qed.

(** What the eviction block removes, if anything. *)
Lemma evict_contents_victim now m :
  exists victim : option string,
    (forall k, Some k <> victim ->
               JsMap.get k (evict_contents now m) = JsMap.get k m) /\
    (length m <= S (length (evict_contents now m)))%nat /\
    (length (evict_contents now m) <= length m)%nat.
Proof.
  unfold evict_contents.
  destruct (fst (fold_left oldest_step m (None, now))) as [k0|].
  - destruct (truthy k0).
    + exists (Some k0). split; [|split].
      * intros k Hk. apply JsMapFacts.get_delete_ne. congruence.
      * apply length_delete_ge.
      * clear. induction m as [|[k1 v1] m IH]; cbn; [lia|].
        destruct (String.eqb k0 k1); cbn; lia.
    + exists None. repeat split; auto.
  - exists None. repeat split; auto.
Qed.

(** ** Writes and reads *)

(** Below capacity a write touches nothing but its own key: the entries
    of the other keys and their order stay, a new key goes last and grows
    the map by one, a key already present keeps its place. *)
Theorem write_below_capacity_is_local
        (clock : nat -> Z) (maxSize : Z) (w : World)
        (bondId value : string) (error : option string) :
  Z.of_nat (JsMap.size (entries (cache w))) < maxSize ->
  let before := entries (cache w) in
  let after :=
    entries (cache (exec (setCachedValue clock maxSize bondId value error) w))
  in
  (forall k, k <> bondId -> JsMap.get k after = JsMap.get k before) /\
  (JsMap.get bondId before = None ->
   JsMap.keys after = (JsMap.keys before ++ [bondId])%list /\
   JsMap.size after = S (JsMap.size before)) /\
  (JsMap.get bondId before <> None ->
   JsMap.keys after = JsMap.keys before /\
   JsMap.size after = JsMap.size before).
Proof.
  intros Hroom. cbv zeta. unfold exec. rewrite setCachedValue_run.
  cbn [snd]. unfold setCachedValue_world. cbn [cache entries].
  assert (E : (maxSize <=? Z.of_nat (JsMap.size (entries (cache w)))) = false)
    by (apply Z.leb_gt; lia).
  rewrite E. split; [|split].
  - intros k Hk. apply JsMapFacts.get_set_ne. congruence.
  - intros Habsent. rewrite JsMapFacts.set_absent by assumption.
    unfold JsMap.keys, JsMap.size. rewrite map_app, length_app. cbn.
    split; [reflexivity|lia].
  - intros Hpresent. split.
    + now apply keys_set_present.
    + unfold JsMap.size. now apply JsMapFacts.length_set_present.
Qed.

Lemma write_below_capacity_is_local_witness :
  let before := entries (cache mixed_world) in
  let after :=
    entries (cache (exec (setCachedValue ticking_clock 1000 "C" "3" None)
                         mixed_world)) in
  (forall k, k <> "C" -> JsMap.get k after = JsMap.get k before) /\
  JsMap.keys after = ["A"; "B"; "C"] /\
  JsMap.size after = 3%nat.
Proof.
  cbv zeta.
  destruct (write_below_capacity_is_local
              ticking_clock 1000 mixed_world "C" "3" None)
    as (Hothers & Hnew & _).
  - vm_compute. reflexivity.
  - split; [exact Hothers|]. apply Hnew. reflexivity.
Defined.

(** A write never costs the map more than one other key: there is at most
    one victim, every other key apart from the one written keeps its
    entry, and the map never shrinks. *)
Theorem write_loses_at_most_one_key
        (clock : nat -> Z) (maxSize : Z) (w : World)
        (bondId value : string) (error : option string) :
  let before := entries (cache w) in
  let after :=
    entries (cache (exec (setCachedValue clock maxSize bondId value error) w))
  in
  exists victim : option string,
    (forall k, k <> bondId -> Some k <> victim ->
               JsMap.get k after = JsMap.get k before) /\
    (victim <> None -> maxSize <= Z.of_nat (JsMap.size before)) /\
    (JsMap.size before <= S (JsMap.size after))%nat /\
    (JsMap.size after <= S (JsMap.size before))%nat.
Proof.
  cbv zeta. unfold exec. rewrite setCachedValue_run. cbn [snd].
  unfold setCachedValue_world, JsMap.size. cbn [cache entries].
  destruct (maxSize <=? Z.of_nat (length (entries (cache w)))) eqn:Hfull.
  - destruct (evict_contents_victim (clock (ticks w)) (entries (cache w)))
      as (victim & Hkeep & Hlen & Hlen').
    exists victim. split; [|split; [|split]].
    + intros k Hk Hv. rewrite JsMapFacts.get_set_ne by congruence.
      now apply Hkeep.
    + intros _. now apply Z.leb_le.
    + pose proof (length_set_ge bondId
        (mkEntry value (clock (S (ticks w))) error)
        (evict_contents (clock (ticks w)) (entries (cache w)))). lia.
    + pose proof (JsMapFacts.length_set_le bondId
        (mkEntry value (clock (S (ticks w))) error)
        (evict_contents (clock (ticks w)) (entries (cache w)))). lia.
  - exists None. split; [|split; [|split]].
    + intros k Hk _. apply JsMapFacts.get_set_ne. congruence.
    + congruence.
    + pose proof (length_set_ge bondId
        (mkEntry value (clock (ticks w)) error) (entries (cache w))). lia.
    + apply JsMapFacts.length_set_le.
Qed.

(** ** The size bound under an advancing clock *)

Section AdvancingClock.
Variable clock : nat -> Z.
Variable maxSize : Z.
Hypothesis clock_advances : forall n, clock n < clock (S n).

Lemma clock_strictly_increasing i j : (i < j)%nat -> clock i < clock j.
Proof.
  induction 1 as [|j _ IH].
  - apply clock_advances.
  - pose proof (clock_advances j). lia.
Qed.

Lemma setCachedValue_keeps_older bondId value error w :
  bondId <> "" ->
  Entries_older clock w ->
  Entries_older clock (exec (setCachedValue clock maxSize bondId value error) w).
Proof.
  intros Hkey Hold. unfold exec. rewrite setCachedValue_run. cbn [snd].
  unfold Entries_older, setCachedValue_world. cbn [cache entries ticks].
  intros x Hx. apply In_set_inv in Hx as [->|Hx].
  - cbn [fst snd timestamp]. split; [|assumption].
    destruct (maxSize <=? _); apply clock_advances.
  - assert (Hin : In x (entries (cache w))).
    { destruct (maxSize <=? _); [now apply In_evict_inv in Hx|assumption]. }
    destruct (Hold x Hin) as [Hts Hk]. split; [|assumption].
    destruct (maxSize <=? _).
    + pose proof (clock_strictly_increasing (ticks w) (S (S (ticks w)))).
      lia.
    + pose proof (clock_advances (ticks w)). lia.
Qed.

Lemma write_all_keeps_bound writes w :
  1 <= maxSize ->
  Z.of_nat (JsMap.size (entries (cache w))) <= maxSize ->
  Entries_older clock w ->
  (forall x, In x writes -> fst (fst x) <> "") ->
  Z.of_nat (JsMap.size (entries (cache (write_all clock maxSize writes w))))
  <= maxSize /\
  Entries_older clock (write_all clock maxSize writes w).
Proof.
  intros Hpos. unfold write_all. revert w.
  induction writes as [|[[k v] e] writes IH]; intros w Hsize Hold Hkeys;
    cbn [fold_left]; [auto|].
  cbn [fst snd].
  assert (Hk : k <> "") by (apply (Hkeys (k, v, e)); now left).
  apply IH.
  - apply setCachedValue_size_bound; [assumption| |].
    + intros Hfull.
      destruct (entries (cache w)) as [|x m] eqn:E.
      * cbn in Hfull. lia.
      * exists x. split; [now left|].
        apply (Hold x). rewrite E. now left.
    + intros k0 Hk0. apply in_map_iff in Hk0 as (x & <- & Hx).
      now apply (Hold x).
  - now apply setCachedValue_keeps_older.
  - intros x Hx. apply Hkeys. now right.
Qed.

End AdvancingClock.

(** When every clock reading is strictly later than the one before, the
    capacity is at least one and no key is the empty string, the map never
    holds more than [maxSize] entries, after any sequence of writes from an
    empty map. *)
Theorem size_bound_under_an_advancing_clock
        (clock : nat -> Z) (maxSize : Z)
        (writes : list (string * string * option string)) :
  (forall n, clock n < clock (S n)) ->
  1 <= maxSize ->
  (forall x, In x writes -> fst (fst x) <> "") ->
  Z.of_nat
    (JsMap.size (entries (cache (write_all clock maxSize writes initial_world))))
  <= maxSize.
Proof.
  intros Hclock Hpos Hkeys.
  apply (write_all_keeps_bound clock maxSize Hclock writes initial_world);
    try assumption.
  - cbn. lia.
  - intros x [].
Qed.

Lemma size_bound_under_an_advancing_clock_witness :
  Z.of_nat
    (JsMap.size
       (entries
          (cache (write_all ticking_clock 2
                            [("A", "1", None); ("B", "2", None);
                             ("C", "3", None)]
                            initial_world))))
  <= 2.
Proof.
  apply (size_bound_under_an_advancing_clock
           ticking_clock 2
           [("A", "1", None); ("B", "2", None); ("C", "3", None)]).
  - intros n. unfold ticking_clock. lia.
  - lia.
  - intros x Hx. cbn in Hx.
    destruct Hx as [<-|[<-|[<-|[]]]]; cbn; discriminate.
Defined.

Lemma setCachedValue_evicts_first_oldest_witness :
  entries (cache (exec (setCachedValue sweep_clock 2 "C" "3" None) mixed_world))
  = JsMap.set "C" (mkEntry "3" 300200 None)
              (JsMap.delete "A" (entries (cache mixed_world))).
Proof.
  apply (setCachedValue_evicts_first_oldest
           sweep_clock 2 "C" "3" None mixed_world
           [] "A" (mkEntry "1" 100 None)
           [("B", mkEntry "2" 250000 None)]).
  - reflexivity.
  - vm_compute. discriminate.
  - vm_compute. reflexivity.
  - intros x [].
  - intros x [<-|[]]. vm_compute. discriminate.
  - discriminate.
Defined.

Lemma sweep_with_running_clock_witness :
  let before := entries (cache mixed_world) in
  let after :=
    entries (cache (exec (cleanExpiredEntries late_ticking_clock 300000)
                         mixed_world)) in
  (forall kv, In kv before -> 300202 - timestamp (snd kv) < 300000 ->
              In kv after) /\
  (forall kv, In kv after ->
              In kv before /\ 300200 - timestamp (snd kv) < 300000).
Proof.
  apply (sweep_with_running_clock late_ticking_clock 300000 mixed_world).
  - unfold World_ok, mixed_world, JsMap.wf. cbn.
    split; [|split; [reflexivity|split; lia]].
    apply (bool_decide_unpack _). vm_compute. exact I.
  - intros i j Hij. unfold late_ticking_clock. lia.
Defined.

Lemma reachable_ok_witness :
  World_ok (exec (setCachedValue ticking_clock 1000 "A" "1" None)
                 initial_world).
Proof.
  apply (reachable_ok ticking_clock 300000 1000).
  eapply reachable_step.
  - apply reachable_initial.
  - apply step_set.
Defined.

(** ** Flags, handles and clean-ups *)

Lemma loading_union_fold ids (s : gset string) k :
  k ∈ fold_left (fun s k => s ∪ {[k]}) ids s <-> In k ids \/ k ∈ s.
Proof.
  revert s. induction ids as [|k0 ids IH]; intros s; cbn [fold_left In].
  - tauto.
  - rewrite IH, elem_of_union, elem_of_singleton. intuition congruence.
Qed.

Lemma callbacks_fold_same (p : nat) ids (m : gmap nat (list string)) :
  ids <> [] ->
  fold_left (fun m k => <[p := (default [] (m !! p) ++ [k])%list]> m) ids m
  !! p = Some (default [] (m !! p) ++ ids)%list.
Proof.
  revert m. induction ids as [|k ids IH]; intros m Hne; [congruence|].
  cbn [fold_left]. destruct ids as [|k' ids].
  - cbn. apply lookup_insert_eq.
  - rewrite IH by discriminate. rewrite lookup_insert_eq.
    f_equal. destruct (m !! p) as [xs|]; cbn;
      [now rewrite <- List.app_assoc|reflexivity].
Qed.

Lemma callbacks_fold_other (p q : nat) ids (m : gmap nat (list string)) :
  p <> q ->
  fold_left (fun m k => <[p := (default [] (m !! p) ++ [k])%list]> m) ids m
  !! q = m !! q.
Proof.
  intros Hne. revert m. induction ids as [|k ids IH]; intros m; cbn;
    [reflexivity|].
  rewrite IH. now apply lookup_insert_ne.
Qed.

Lemma delete_keys_lookup_in ks (m : gmap string nat) k :
  In k ks -> fold_left (fun m k => base.delete k m) ks m !! k = None.
Proof.
  assert (Hnone : forall ks (m : gmap string nat),
             m !! k = None ->
             fold_left (fun m k => base.delete k m) ks m !! k = None).
  { intros ks0. induction ks0 as [|k0 ks0 IH]; intros m0 H0; cbn; [auto|].
    apply IH. destruct (decide (k0 = k)) as [->|Hne].
    - apply lookup_delete_eq.
    - now rewrite lookup_delete_ne. }
  revert m. induction ks as [|k0 ks IH]; intros m; [intros []|].
  cbn [fold_left]. intros [->|Hin]; [|now apply IH].
  apply Hnone. apply lookup_delete_eq.
Qed.

Lemma delete_keys_lookup_out ks (m : gmap string nat) k :
  ~ In k ks -> fold_left (fun m k => base.delete k m) ks m !! k = m !! k.
Proof.
  revert m. induction ks as [|k0 ks IH]; intros m Hout; [reflexivity|].
  cbn [fold_left]. cbn in Hout. rewrite IH by tauto.
  apply lookup_delete_ne. tauto.
Qed.

Lemma cleanup_world_handles p w :
  inflightRequests (cleanup_world p w)
  = fold_left (fun m k => base.delete k m)
              (default [] (finallyCallbacks w !! p)) (inflightRequests w) /\
  finallyCallbacks (cleanup_world p w)
  = base.delete p (finallyCallbacks w).
Proof.
  unfold cleanup_world.
  set (w0 := with_finallyCallbacks _ w).
  change (inflightRequests w) with (inflightRequests w0).
  change (base.delete p (finallyCallbacks w)) with (finallyCallbacks w0).
  generalize (default [] (finallyCallbacks w !! p)). clearbody w0.
  intros ks. revert w0.
  induction ks as [|k ks IH]; intros w0; cbn [fold_left]; [auto|].
  destruct (IH (exec (inflight_cleanup k) w0)) as [H1 H2].
  split; [exact H1|exact H2].
Qed.

Lemma write_results_frame (clock : nat -> Z) (maxSize : Z) results w :
  let w' := write_results clock maxSize results w in
  loadingBonds w' = loadingBonds w /\
  inflightRequests w' = inflightRequests w /\
  finallyCallbacks w' = finallyCallbacks w /\
  fetchLog w' = fetchLog w /\
  (results <> [] -> cacheRef w' = cache w') /\
  (results = [] -> w' = w).
Proof.
  cbv zeta. unfold write_results. revert w.
  induction results as [|r rs IH]; intros w; cbn [fold_left].
  - repeat split. congruence.
  - destruct (IH (setCachedValue_world clock maxSize (bondId r)
                    (claimableAmount r) (result_error r) w))
      as (H1 & H2 & H3 & H4 & H5 & _).
    rewrite H1, H2, H3, H4. repeat split; try discriminate.
    intros _. destruct rs as [|r' rs]; [reflexivity|].
    apply H5. discriminate.
Qed.

(** The world after the continuation of [fetchClaimableCapital]: the
    fields the write-back and the flags do not touch. *)
Lemma settled_world_handles (clock : nat -> Z) (maxSize : Z)
      p assetIds service w :
  let w' := exec (operationPromise_settles clock maxSize p assetIds service) w
  in
  inflightRequests w'
  = fold_left (fun m k => base.delete k m)
              (default [] (finallyCallbacks w !! p)) (inflightRequests w) /\
  finallyCallbacks w' = base.delete p (finallyCallbacks w) /\
  fetchLog w' = fetchLog w /\
  loadingBonds w'
  = fold_left (fun s k => s ∖ {[k]}) assetIds (loadingBonds w).
Proof.
  cbv zeta. unfold exec.
  rewrite operationPromise_settles_run, fetchClaimableCapital_resume_run.
  cbn [snd]. rewrite loading_fold_run.
  cbn [inflightRequests finallyCallbacks fetchLog loadingBonds
       with_loadingBonds].
  destruct (cleanup_world_handles p w) as [Hflight Hcb].
  destruct (cleanup_world_frame p w) as (_ & _ & Hload & Hlog & _).
  destruct service as [results|reason].
  - destruct (write_results_frame clock maxSize results (cleanup_world p w))
      as (H1 & H2 & H3 & H4 & _).
    rewrite H1, H2, H3, H4, Hflight, Hcb, Hlog, Hload. repeat split.
  - destruct (write_failures_frame clock maxSize assetIds (cleanup_world p w))
      as (H1 & H2 & H3 & H4 & _).
    rewrite H1, H2, H3, H4, Hflight, Hcb, Hlog, Hload. repeat split.
Qed.

(** The world after [fetchClaimableCapital] has issued a batch. *)
Lemma issued_world (clock : nat -> Z) (ttl : Z) assets w p assetIds :
  result (fetchClaimableCapital clock ttl assets) w
  = Normal (AwaitingOperation p assetIds) ->
  p = next_id w /\ assetIds <> [] /\
  assetIds
  = map id (fst (needing_fetch clock ttl (entries (cacheRef w))
                               (inflightRequests w) (ticks w) assets)) /\
  exec (fetchClaimableCapital clock ttl assets) w
  = issue_world assetIds
      (with_ticks (snd (needing_fetch clock ttl (entries (cacheRef w))
                                      (inflightRequests w) (ticks w) assets))
                  w).
Proof.
  unfold result, exec. rewrite fetchClaimableCapital_run. cbv zeta.
  destruct (needing_fetch clock ttl (entries (cacheRef w))
                          (inflightRequests w) (ticks w) assets)
    as [needs t1].
  cbn [fst snd]. destruct needs as [|a needs]; cbn [fst snd].
  - destruct (Nat.ltb 0 _); discriminate.
  - intros [= <- <-]. repeat split. discriminate.
Qed.

(** While the map has room for all the results and no key comes twice,
    every result written stays. *)
Lemma write_results_entries (clock : nat -> Z) (maxSize : Z) results w r :
  Z.of_nat (JsMap.size (entries (cache w))) + Z.of_nat (length results)
    <= maxSize ->
  NoDup (map bondId results) ->
  In r results \/
  ((exists written,
       JsMap.get (bondId r) (entries (cache w))
       = Some (mkEntry (claimableAmount r) written (result_error r))) /\
   ~ In (bondId r) (map bondId results)) ->
  exists written,
    JsMap.get (bondId r) (entries (cache (write_results clock maxSize results w)))
    = Some (mkEntry (claimableAmount r) written (result_error r)).
Proof.
  unfold write_results. revert w.
  induction results as [|r0 rs IH]; intros w Hroom Hnd Hr; cbn [fold_left].
  - destruct Hr as [[]|[Hr _]]. exact Hr.
  - cbn [length map] in *.
    inversion Hnd as [|? ? Hfresh Hnd']; subst.
    set (w1 := setCachedValue_world clock maxSize (bondId r0)
                 (claimableAmount r0) (result_error r0) w).
    assert (Hw1 : entries (cache w1) =
                  JsMap.set (bondId r0)
                            (mkEntry (claimableAmount r0) (clock (ticks w))
                                     (result_error r0))
                            (entries (cache w))).
    { unfold w1, setCachedValue_world. cbn [cache entries].
      assert (E : (maxSize <=? Z.of_nat (JsMap.size (entries (cache w))))
                  = false) by (apply Z.leb_gt; lia).
      now rewrite E. }
    apply IH; [|assumption|].
    + rewrite Hw1. unfold JsMap.size in *.
      pose proof (JsMapFacts.length_set_le (bondId r0)
        (mkEntry (claimableAmount r0) (clock (ticks w)) (result_error r0))
        (entries (cache w))).
      lia.
    + destruct Hr as [[<-|Hr]|[[written Hr] Hout]].
      * right. split.
        -- rewrite Hw1, JsMapFacts.get_set_eq. eauto.
        -- intros Hin. apply Hfresh. now apply list_elem_of_In.
      * now left.
      * right. split.
        -- exists written. rewrite Hw1, JsMapFacts.get_set_ne; [assumption|].
           intros E. apply Hout. now left.
        -- intros Hin. apply Hout. now right.
Qed.

(** A key that no result names and that had no entry has none after the
    write-back. *)
Lemma write_results_absent (clock : nat -> Z) (maxSize : Z) results w k :
  JsMap.get k (entries (cache w)) = None ->
  ~ In k (map bondId results) ->
  JsMap.get k (entries (cache (write_results clock maxSize results w))) = None.
Proof.
  unfold write_results. revert w.
  induction results as [|r0 rs IH]; intros w Hnone Hout; cbn [fold_left];
    [assumption|].
  cbn [map] in Hout. apply IH; [|intros H; apply Hout; now right].
  unfold setCachedValue_world. cbn [cache entries].
  apply get_set_other_none; [intros E; apply Hout; now left|].
  destruct (maxSize <=? _); [now apply get_evict_none|assumption].
Qed.

(** ** What a call of [fetchClaimableCapital] leaves behind *)

(** When a call issues a batch, the batch is logged once; every key of the
    batch was not in flight before, is flagged as loading and is in flight
    under the new promise; the flags and handles of every other key, and
    the cached entries, are as before. *)
Theorem issued_batch_is_loading_and_in_flight
        (clock : nat -> Z) (ttl : Z) (w : World)
        (assets : list BondingStatus) (p : nat) (assetIds : list string) :
  result (fetchClaimableCapital clock ttl assets) w
  = Normal (AwaitingOperation p assetIds) ->
  let w' := exec (fetchClaimableCapital clock ttl assets) w in
  fetchLog w' = (fetchLog w ++ [assetIds])%list /\
  cache w' = cache w /\ cacheRef w' = cacheRef w /\
  (forall k, In k assetIds ->
     (exists asset, In asset assets /\ id asset = k) /\
     inflightRequests w !! k = None /\
     result (isLoading k) w' = Normal true /\
     result (getInflightRequest k) w' = Normal (Some p) /\
     result (hasInflightRequest k) w' = Normal true) /\
  (forall k, ~ In k assetIds ->
     result (isLoading k) w' = result (isLoading k) w /\
     result (getInflightRequest k) w' = result (getInflightRequest k) w).
Proof.
  intros Hres. cbv zeta.
  destruct (issued_world clock ttl assets w p assetIds Hres)
    as (-> & Hne & Hids & ->).
  rewrite issue_world_fields.
  cbn [fetchLog cache cacheRef with_ticks next_id loadingBonds
       inflightRequests].
  split; [reflexivity|]. split; [reflexivity|]. split; [reflexivity|].
  unfold result, isLoading, getInflightRequest, hasInflightRequest, gets.
  cbn [fst loadingBonds inflightRequests]. split.
  - intros k Hk.
    assert (Hfrom : (exists asset, In asset assets /\ id asset = k) /\
                    inflightRequests w !! k = None).
    { rewrite Hids in Hk. apply in_map_iff in Hk as (asset & <- & Hasset).
      apply needing_fetch_sound in Hasset as (H1 & H2 & _). eauto. }
    destruct Hfrom as [Hasset Hidle].
    split; [exact Hasset|]. split; [exact Hidle|].
    rewrite (insert_fold_lookup_in clock) by exact Hk.
    split; [|split; reflexivity].
    f_equal. apply bool_decide_eq_true_2. apply loading_union_fold.
    now left.
  - intros k Hk. rewrite (insert_fold_lookup_out clock) by exact Hk.
    split; [|reflexivity]. f_equal. apply bool_decide_ext.
    rewrite loading_union_fold.
    split; [intros [H|H]; [contradiction|assumption]|auto].
Qed.

Lemma issued_batch_is_loading_and_in_flight_witness :
  let call :=
    fetchClaimableCapital ticking_clock 300000 [mkAsset "A"; mkAsset "B"] in
  let w' := exec call initial_world in
  fetchLog w' = [["A"; "B"]] /\
  result (isLoading "B") w' = Normal true /\
  result (getInflightRequest "B") w' = Normal (Some 2%nat) /\
  result (isLoading "C") w' = Normal false.
Proof.
  cbv zeta.
  destruct (issued_batch_is_loading_and_in_flight
              ticking_clock 300000 initial_world
              [mkAsset "A"; mkAsset "B"] 2 ["A"; "B"])
    as (Hlog & _ & _ & Hin & Hout).
  - reflexivity.
  - split; [exact Hlog|].
    destruct (Hin "B") as (_ & _ & Hloading & Hhandle & _);
      [right; now left|].
    split; [exact Hloading|]. split; [exact Hhandle|].
    destruct (Hout "C") as [Hloading' _].
    + intros [H|[H|[]]]; discriminate.
    + rewrite Hloading'. reflexivity.
Defined.

Lemma fold_append_map {A B} (f : A -> B) (xs : list A) (acc : list B) :
  fold_left (fun acc a => (acc ++ [f a])%list) xs acc
  = (acc ++ map f xs)%list.
Proof.
  revert acc. induction xs as [|x xs IH]; intros acc; cbn.
  - now rewrite app_nil_r.
  - rewrite IH. now rewrite <- List.app_assoc.
Qed.

(** ** Settlement *)

(** Once the promise of a batch settles, fulfilled or rejected, no key of
    the batch is in flight or flagged as loading any more, the clean-ups
    attached to the promise are gone, and the continuation has sent
    nothing to the service. *)
Theorem settlement_clears_the_batch
        (clock : nat -> Z) (ttl maxSize : Z) (w : World)
        (assets : list BondingStatus) (p : nat) (assetIds : list string)
        (service : Outcome) :
  Callbacks_ok w ->
  result (fetchClaimableCapital clock ttl assets) w
  = Normal (AwaitingOperation p assetIds) ->
  let w1 := exec (fetchClaimableCapital clock ttl assets) w in
  let w2 :=
    exec (operationPromise_settles clock maxSize p assetIds service) w1 in
  (forall k, In k assetIds ->
     result (hasInflightRequest k) w2 = Normal false /\
     result (isLoading k) w2 = Normal false) /\
  (forall k, ~ In k assetIds ->
     inflightRequests w2 !! k = inflightRequests w !! k) /\
  finallyCallbacks w2 !! p = None /\
  fetchLog w2 = fetchLog w1.
Proof.
  intros Hcb Hres. cbv zeta.
  destruct (issued_world clock ttl assets w p assetIds Hres)
    as (-> & Hne & _ & Hw1).
  destruct (settled_world_handles clock maxSize (next_id w) assetIds service
              (exec (fetchClaimableCapital clock ttl assets) w))
    as (Hflight & Hcbs & Hlog & Hload).
  cbv zeta in *.
  set (w1 := exec (fetchClaimableCapital clock ttl assets) w) in *.
  set (w2 := exec (operationPromise_settles clock maxSize (next_id w)
                                            assetIds service) w1) in *.
  assert (Hcb1 : default [] (finallyCallbacks w1 !! next_id w) = assetIds).
  { rewrite Hw1, issue_world_fields.
    cbn [finallyCallbacks with_ticks next_id].
    rewrite callbacks_fold_same by assumption.
    now rewrite (Hcb (next_id w)) by lia. }
  assert (Hflight1 : forall k, ~ In k assetIds ->
            inflightRequests w1 !! k = inflightRequests w !! k).
  { intros k Hk. rewrite Hw1, issue_world_fields.
    cbn [inflightRequests with_ticks next_id].
    now apply (insert_fold_lookup_out clock). }
  rewrite Hcb1 in Hflight.
  unfold result, hasInflightRequest, isLoading, gets. cbn [fst].
  split; [|split; [|split]].
  - intros k Hk. rewrite Hflight, Hload.
    rewrite delete_keys_lookup_in by assumption. split.
    + f_equal.
    + f_equal. apply bool_decide_eq_false_2.
      now apply loading_clear_fold_out.
  - intros k Hk. rewrite Hflight.
    rewrite delete_keys_lookup_out by assumption. now apply Hflight1.
  - rewrite Hcbs. apply lookup_delete_eq.
  - exact Hlog.
Qed.

Lemma settlement_clears_the_batch_witness :
  let w1 := exec (fetchClaimableCapital ticking_clock 300000
                    [mkAsset "A"; mkAsset "B"]) initial_world in
  let w2 :=
    exec (operationPromise_settles ticking_clock 1000 2 ["A"; "B"]
                                   (Rejected "network down")) w1 in
  result (hasInflightRequest "A") w2 = Normal false /\
  result (isLoading "A") w2 = Normal false /\
  fetchLog w2 = fetchLog w1.
Proof.
  cbv zeta.
  destruct (settlement_clears_the_batch
              ticking_clock 300000 1000 initial_world
              [mkAsset "A"; mkAsset "B"] 2 ["A"; "B"]
              (Rejected "network down"))
    as (Hin & _ & _ & Hlog).
  - intros p _. reflexivity.
  - reflexivity.
  - destruct (Hin "A" (or_introl eq_refl)) as [Hflight Hloading].
    split; [exact Hflight|]. split; [exact Hloading|exact Hlog].
Defined.

(** ** Promises and their clean-ups *)

Section CallbacksInvariant.
Variable clock : nat -> Z.
Variable ttl : Z.
Variable maxSize : Z.

Lemma initial_callbacks_ok : Callbacks_ok initial_world.
Proof. intros p _. reflexivity. Qed.

Lemma callbacks_ok_weaken w w' :
  finallyCallbacks w' = finallyCallbacks w ->
  (next_id w <= next_id w')%nat ->
  Callbacks_ok w -> Callbacks_ok w'.
Proof.
  intros Hcb Hid Hok p Hp. rewrite Hcb. apply Hok. lia.
Qed.

Lemma write_failures_ids ids w :
  (next_id w <= next_id (write_failures clock maxSize ids w))%nat.
Proof.
  unfold write_failures. revert w.
  induction ids as [|k ids IH]; intros w; cbn [fold_left]; [lia|].
  etransitivity; [|apply IH]. cbn. lia.
Qed.

Lemma write_results_ids results w :
  (next_id w <= next_id (write_results clock maxSize results w))%nat.
Proof.
  unfold write_results. revert w.
  induction results as [|r rs IH]; intros w; cbn [fold_left]; [lia|].
  etransitivity; [|apply IH]. cbn. lia.
Qed.

Lemma clear_world_callbacks ids w :
  finallyCallbacks (clear_world ids w) = finallyCallbacks w /\
  (next_id w <= next_id (clear_world ids w))%nat.
Proof.
  unfold clear_world. revert w.
  induction ids as [|k ids IH]; intros w; cbn [fold_left]; [auto|].
  destruct (IH (exec (clearCacheEntry k) w)) as [H1 H2].
  split; [exact H1|]. etransitivity; [|exact H2]. cbn. lia.
Qed.

Lemma fetchClaimableCapital_callbacks_ok assets w :
  Callbacks_ok w ->
  Callbacks_ok (exec (fetchClaimableCapital clock ttl assets) w).
Proof.
  intros Hok. unfold exec. rewrite fetchClaimableCapital_run. cbv zeta.
  destruct (fst (needing_fetch clock ttl (entries (cacheRef w))
                               (inflightRequests w) (ticks w) assets)).
  - exact Hok.
  - cbn [snd]. rewrite issue_world_fields. intros p Hp.
    cbn [finallyCallbacks next_id with_ticks] in *.
    rewrite callbacks_fold_other by lia. apply Hok. lia.
Qed.

(** Every step keeps the clean-ups attached to promises that exist. *)
Lemma step_callbacks_ok w w' :
  Callbacks_ok w -> step clock ttl maxSize w w' -> Callbacks_ok w'.
Proof.
  intros Hok Hstep.
  destruct Hstep as [k w|k v e w|k w|w|w|w|k b w|assets w
                    |p assetIds service w|assetIds data w
                    |eager assetIds data w].
  - unfold exec. rewrite getCachedValue_run.
    destruct (JsMap.get k (entries (cacheRef w))); exact Hok.
  - unfold exec. rewrite setCachedValue_run.
    apply (callbacks_ok_weaken w); [reflexivity|cbn; lia|exact Hok].
  - apply (callbacks_ok_weaken w); [reflexivity|cbn; lia|exact Hok].
  - apply (callbacks_ok_weaken w); [reflexivity|cbn; lia|exact Hok].
  - unfold exec. rewrite cleanExpiredEntries_run.
    apply (callbacks_ok_weaken w); [reflexivity|cbn; lia|exact Hok].
  - unfold exec. rewrite cleanupInterval_run. cbv zeta.
    destruct (expired_from clock ttl (ticks w) (entries (cache w)) false);
      (apply (callbacks_ok_weaken w); [reflexivity|cbn; lia|exact Hok]).
  - exact Hok.
  - now apply fetchClaimableCapital_callbacks_ok.
  - destruct (settled_world_handles clock maxSize p assetIds service w)
      as (_ & Hcbs & _ & _).
    cbv zeta in Hcbs. intros q Hq. rewrite Hcbs.
    destruct (decide (p = q)) as [->|Hne]; [apply lookup_delete_eq|].
    rewrite lookup_delete_ne by assumption. apply Hok.
    revert Hq. unfold exec.
    rewrite operationPromise_settles_run, fetchClaimableCapital_resume_run.
    cbn [snd]. rewrite loading_fold_run. cbn [next_id with_loadingBonds].
    destruct (cleanup_world_frame p w) as (_ & _ & _ & _ & _ & Hid).
    destruct service as [results|reason].
    + pose proof (write_results_ids results (cleanup_world p w)). lia.
    + pose proof (write_failures_ids assetIds (cleanup_world p w)). lia.
  - unfold exec. rewrite clears_then_fetch_run.
    apply fetchClaimableCapital_callbacks_ok.
    destruct (clear_world_callbacks assetIds w) as [Hcb Hid].
    now apply (callbacks_ok_weaken w).
  - apply (queued_retry_keeps clock ttl eager Callbacks_ok); try assumption.
    + intros w0 flags Hw0. exact Hw0.
    + intros w0 Hw0. exact Hw0.
    + intros k w0 Hw0.
      apply (callbacks_ok_weaken w0); [reflexivity|cbn; lia|exact Hw0].
    + intros assets w0 Hw0. now apply fetchClaimableCapital_callbacks_ok.
Qed.

Lemma reachable_callbacks_ok w :
  reachable clock ttl maxSize w -> Callbacks_ok w.
Proof.
  induction 1 as [|w w' _ IH Hstep].
  - exact initial_callbacks_ok.
  - exact (step_callbacks_ok w w' IH Hstep).
Qed.

End CallbacksInvariant.

(** ** Results and their keys *)

(** When the batch is fulfilled with results for distinct keys and the map
    has room for all of them, every result is held afterwards with its own
    amount and its own error or none: a failure reported for one key does
    not touch the others. *)
Theorem fulfilled_results_are_written
        (clock : nat -> Z) (maxSize : Z) (w : World) (p : nat)
        (assetIds : list string)
        (results : list LazyClaimablePrincipalResult) :
  Z.of_nat (JsMap.size (entries (cache w))) + Z.of_nat (length results)
    <= maxSize ->
  NoDup (map bondId results) ->
  let w' :=
    exec (operationPromise_settles clock maxSize p assetIds (Fulfilled results))
         w in
  forall r, In r results ->
    exists written,
      JsMap.get (bondId r) (entries (cache w'))
      = Some (mkEntry (claimableAmount r) written (result_error r)) /\
      JsMap.get (bondId r) (entries (cacheRef w'))
      = Some (mkEntry (claimableAmount r) written (result_error r)).
Proof.
  intros Hroom Hnd. cbv zeta. intros r Hr. unfold exec.
  rewrite operationPromise_settles_run, fetchClaimableCapital_resume_run.
  cbn [snd]. rewrite loading_fold_run. cbn [cache cacheRef with_loadingBonds].
  destruct (cleanup_world_frame p w) as (Hcache & _).
  rewrite <- Hcache in Hroom.
  destruct (write_results_entries clock maxSize results (cleanup_world p w) r
              Hroom Hnd (or_introl Hr)) as [written Hget].
  destruct (write_results_frame clock maxSize results (cleanup_world p w))
    as (_ & _ & _ & _ & Href & _).
  exists written. rewrite Href by (intros ->; destruct Hr).
  split; exact Hget.
Qed.

Lemma fulfilled_results_are_written_witness :
  let w' :=
    exec (operationPromise_settles ticking_clock 1000 2 ["A"; "B"]
            (Fulfilled [mkResult "A" "10" None;
                        mkResult "B" "0" (Some "not found")]))
         initial_world in
  (exists written,
      JsMap.get "A" (entries (cacheRef w'))
      = Some (mkEntry "10" written None)) /\
  (exists written,
      JsMap.get "B" (entries (cacheRef w'))
      = Some (mkEntry "0" written (Some "not found"))).
Proof.
  cbv zeta.
  pose proof (fulfilled_results_are_written
                ticking_clock 1000 initial_world 2 ["A"; "B"]
                [mkResult "A" "10" None; mkResult "B" "0" (Some "not found")])
    as Hall.
  cbv zeta in Hall.
  assert (Hroom : Z.of_nat (JsMap.size (entries (cache initial_world)))
                  + Z.of_nat 2 <= 1000) by (vm_compute; discriminate).
  assert (Hnd : NoDup ["A"; "B"])
    by (apply (bool_decide_unpack _); vm_compute; exact I).
  split.
  - destruct (Hall Hroom Hnd (mkResult "A" "10" None) (or_introl eq_refl))
      as (written & _ & H). now exists written.
  - destruct (Hall Hroom Hnd (mkResult "B" "0" (Some "not found"))
                   (or_intror (or_introl eq_refl)))
      as (written & _ & H). now exists written.
Defined.

(** The handles after a batch issued from a world with sound clean-ups has
    settled. *)
Lemma settled_batch_not_in_flight
      (clock : nat -> Z) (ttl maxSize : Z) w assets p assetIds service k :
  Callbacks_ok w ->
  result (fetchClaimableCapital clock ttl assets) w
  = Normal (AwaitingOperation p assetIds) ->
  In k assetIds ->
  inflightRequests
    (exec (operationPromise_settles clock maxSize p assetIds service)
          (exec (fetchClaimableCapital clock ttl assets) w)) !! k = None.
Proof.
  intros Hcb Hres Hk.
  destruct (issued_world clock ttl assets w p assetIds Hres)
    as (-> & Hne & _ & Hw1).
  destruct (settled_world_handles clock maxSize (next_id w) assetIds service
              (exec (fetchClaimableCapital clock ttl assets) w))
    as (Hflight & _).
  cbv zeta in Hflight. rewrite Hflight. rewrite Hw1 at 1.
  rewrite issue_world_fields. cbn [finallyCallbacks with_ticks next_id].
  rewrite callbacks_fold_same by assumption.
  rewrite (Hcb (next_id w)) by lia. cbn [default app].
  now apply delete_keys_lookup_in.
Qed.

(** The write-back goes by the keys of the answer, not by the keys asked
    for.  A key of the batch that the answer leaves out, and that had no
    entry, has no entry and no error afterwards, is neither loading nor in
    flight, and the next call that asks for it sends it to the service
    again. *)
Theorem omitted_key_is_requested_again
        (clock : nat -> Z) (ttl maxSize : Z) (w : World)
        (assets : list BondingStatus) (p : nat) (assetIds : list string)
        (results : list LazyClaimablePrincipalResult) (k : string) :
  World_ok w ->
  Callbacks_ok w ->
  result (fetchClaimableCapital clock ttl assets) w
  = Normal (AwaitingOperation p assetIds) ->
  In k assetIds ->
  JsMap.get k (entries (cacheRef w)) = None ->
  ~ In k (map bondId results) ->
  let w1 := exec (fetchClaimableCapital clock ttl assets) w in
  let w2 :=
    exec (operationPromise_settles clock maxSize p assetIds (Fulfilled results))
         w1 in
  let again := fetchClaimableCapital clock ttl [mkAsset k] in
  result (getCachedValue clock ttl k) w2 = Normal None /\
  result (isLoading k) w2 = Normal false /\
  result (hasInflightRequest k) w2 = Normal false /\
  result again w2 = Normal (AwaitingOperation (next_id w2) [k]) /\
  fetchLog (exec again w2) = (fetchLog w ++ [assetIds] ++ [[k]])%list.
Proof.
  intros (Hwf & Hsync & _) Hcb Hres Hk Hnone Hout. cbv zeta.
  pose proof (settled_batch_not_in_flight clock ttl maxSize w assets p
                assetIds (Fulfilled results) k Hcb Hres Hk) as Hidle.
  destruct (settled_world_handles clock maxSize p assetIds (Fulfilled results)
              (exec (fetchClaimableCapital clock ttl assets) w))
    as (_ & _ & Hlog & Hload).
  cbv zeta in Hlog, Hload.
  destruct (fetch_call_spec clock ttl assets w)
    as (Hb1 & Hlog1 & Href1 & Hcache1 & _).
  cbv zeta in Hb1, Hlog1, Href1, Hcache1.
  rewrite Hres in Hlog1. cbn [batch_of] in Hlog1.
  set (w1 := exec (fetchClaimableCapital clock ttl assets) w) in *.
  set (w2 := exec (operationPromise_settles clock maxSize p assetIds
                                            (Fulfilled results)) w1) in *.
  assert (Hgone : JsMap.get k (entries (cacheRef w2)) = None).
  { unfold w2, exec.
    rewrite operationPromise_settles_run, fetchClaimableCapital_resume_run.
    cbn [snd]. rewrite loading_fold_run. cbn [cacheRef with_loadingBonds].
    destruct (cleanup_world_frame p w1) as (Hc & Hr & _).
    destruct (write_results_frame clock maxSize results (cleanup_world p w1))
      as (_ & _ & _ & _ & Href & Hsame).
    destruct results as [|r0 rs].
    - rewrite (Hsame eq_refl), Hr, Href1. exact Hnone.
    - rewrite Href by discriminate.
      apply write_results_absent; [|assumption].
      now rewrite Hc, Hcache1, <- Hsync. }
  assert (Hneeds :
    needing_fetch clock ttl (entries (cacheRef w2)) (inflightRequests w2)
                  (ticks w2) [mkAsset k] = ([mkAsset k], ticks w2)).
  { cbn. rewrite Hgone, Hidle.
    rewrite bool_decide_eq_false_2; [reflexivity|].
    intros [? ?]. discriminate. }
  split.
  { unfold result. rewrite getCachedValue_run, Hgone. reflexivity. }
  split.
  { unfold result, isLoading, gets. cbn [fst]. f_equal.
    apply bool_decide_eq_false_2. rewrite Hload.
    now apply loading_clear_fold_out. }
  split.
  { unfold result, hasInflightRequest, gets. cbn [fst]. now rewrite Hidle. }
  unfold result, exec. rewrite fetchClaimableCapital_run. cbv zeta.
  rewrite Hneeds. cbn [fst snd map id].
  split; [reflexivity|].
  rewrite with_ticks_same, issue_world_fields. cbn [fetchLog].
  now rewrite Hlog, Hlog1, <- app_assoc.
Qed.

Lemma omitted_key_is_requested_again_witness :
  let w1 := exec (fetchClaimableCapital ticking_clock 300000
                    [mkAsset "A"; mkAsset "B"]) initial_world in
  let w2 :=
    exec (operationPromise_settles ticking_clock 1000 2 ["A"; "B"]
            (Fulfilled [mkResult "A" "10" None])) w1 in
  let again := fetchClaimableCapital ticking_clock 300000 [mkAsset "B"] in
  result (getCachedValue ticking_clock 300000 "B") w2 = Normal None /\
  fetchLog (exec again w2) = [["A"; "B"]; ["B"]].
Proof.
  cbv zeta.
  destruct (omitted_key_is_requested_again
              ticking_clock 300000 1000 initial_world
              [mkAsset "A"; mkAsset "B"] 2 ["A"; "B"]
              [mkResult "A" "10" None] "B")
    as (Hread & _ & _ & _ & Hlog).
  - unfold World_ok, initial_world, JsMap.wf. cbn.
    split; [constructor|]. split; [reflexivity|]. split; lia.
  - intros p _. reflexivity.
  - reflexivity.
  - right. now left.
  - reflexivity.
  - intros [H|[]]. discriminate.
  - split; [exact Hread|exact Hlog].
Defined.

(** ** Resetting the cache *)

Lemma clearCache_run (w : World) :
  clearCache w =
  (Normal tt,
   mkWorld (mkMap (next_id w) []) (mkMap (S (next_id w)) []) ∅ ∅
           (finallyCallbacks w) (fetchLog w) (ticks w) (S (S (next_id w)))).
Proof. reflexivity. Qed.

Lemma write_on_empty (clock : nat -> Z) (maxSize : Z) k v e w :
  entries (cache w) = [] ->
  exists written,
    entries (cache (setCachedValue_world clock maxSize k v e w))
    = [(k, mkEntry v written e)].
Proof.
  intros Hempty. unfold setCachedValue_world. cbn [cache entries].
  rewrite Hempty. unfold evict_contents. cbn.
  destruct (maxSize <=? Z.of_nat 0); eexists; reflexivity.
Qed.

(** [clearCache] empties the map, the flags and the handles, so that every
    read returns nothing; it does not stop a request that is pending.  A
    result that arrives afterwards is written into the emptied map, which
    then holds that entry and no other. *)
Theorem reset_does_not_cancel
        (clock : nat -> Z) (ttl maxSize : Z) (w : World) (p : nat)
        (assetIds : list string) (r : LazyClaimablePrincipalResult) :
  let w1 := exec clearCache w in
  let w2 :=
    exec (operationPromise_settles clock maxSize p assetIds (Fulfilled [r]))
         w1 in
  (forall k,
     result (getCachedValue clock ttl k) w1 = Normal None /\
     result (isLoading k) w1 = Normal false /\
     result (hasInflightRequest k) w1 = Normal false) /\
  result (getCacheStats maxSize) w1 = Normal (0%nat, maxSize, 0%nat, 0%nat) /\
  fetchLog w1 = fetchLog w /\
  finallyCallbacks w1 = finallyCallbacks w /\
  exists written,
    entries (cache w2)
    = [(bondId r, mkEntry (claimableAmount r) written (result_error r))] /\
    entries (cacheRef w2) = entries (cache w2).
Proof.
  cbv zeta. unfold exec at 1 2 3 4 5 6. rewrite clearCache_run. cbn [snd].
  set (w1 := mkWorld _ _ _ _ _ _ _ _).
  split.
  { intros k. unfold result. rewrite getCachedValue_run. repeat split. }
  split; [reflexivity|]. split; [reflexivity|]. split; [reflexivity|].
  unfold exec.
  rewrite operationPromise_settles_run, fetchClaimableCapital_resume_run.
  cbn [snd]. rewrite loading_fold_run. cbn [cache cacheRef with_loadingBonds].
  destruct (cleanup_world_frame p w1) as (Hcache & _).
  unfold write_results. cbn [fold_left].
  destruct (write_on_empty clock maxSize (bondId r) (claimableAmount r)
              (result_error r) (cleanup_world p w1)) as [written Hw].
  { now rewrite Hcache. }
  exists written. split; [exact Hw|reflexivity].
Qed.

(** After a reset the provider has forgotten the requests that are still
    pending: a key whose request was pending is sent to the service a
    second time, and when the first request settles its clean-up removes
    the handle of the second, which is still pending. *)
Theorem reset_forgets_pending_requests
        (clock : nat -> Z) (ttl maxSize : Z) (w : World)
        (k : string) (service : Outcome) :
  Callbacks_ok w ->
  JsMap.get k (entries (cacheRef w)) = None ->
  inflightRequests w !! k = None ->
  let fetch := fetchClaimableCapital clock ttl [mkAsset k] in
  let p1 := next_id w in
  let w1 := exec fetch w in
  let w2 := exec clearCache w1 in
  let p2 := next_id w2 in
  let w3 := exec fetch w2 in
  let w4 := exec (operationPromise_settles clock maxSize p1 [k] service) w3 in
  result fetch w = Normal (AwaitingOperation p1 [k]) /\
  result fetch w2 = Normal (AwaitingOperation p2 [k]) /\
  p1 <> p2 /\
  fetchLog w3 = (fetchLog w ++ [[k]; [k]])%list /\
  inflightRequests w3 !! k = Some p2 /\
  inflightRequests w4 !! k = None.
Proof.
  intros Hcb Hnone Hidle. cbv zeta.
  assert (Hneeds :
    needing_fetch clock ttl (entries (cacheRef w)) (inflightRequests w)
                  (ticks w) [mkAsset k] = ([mkAsset k], ticks w)).
  { cbn. rewrite Hnone, Hidle.
    rewrite bool_decide_eq_false_2; [reflexivity|].
    intros [? ?]. discriminate. }
  assert (Hfirst : fetchClaimableCapital clock ttl [mkAsset k] w
                   = (Normal (AwaitingOperation (next_id w) [k]),
                      issue_world [k] w)).
  { rewrite fetchClaimableCapital_run. cbv zeta. rewrite Hneeds.
    cbn [fst snd map id]. now rewrite with_ticks_same. }
  unfold exec, result. rewrite Hfirst. cbn [fst snd].
  rewrite clearCache_run. cbn [snd].
  rewrite issue_world_fields. cbn [fold_left finallyCallbacks fetchLog ticks
                                   next_id].
  rewrite (Hcb (next_id w)) by lia. cbn [default app].
  set (w2 := mkWorld _ _ _ _ _ _ _ _).
  assert (Hsecond : fetchClaimableCapital clock ttl [mkAsset k] w2
                    = (Normal (AwaitingOperation (next_id w2) [k]),
                       issue_world [k] w2)).
  { rewrite fetchClaimableCapital_run. cbv zeta.
    cbn [needing_fetch w2 cacheRef entries JsMap.get inflightRequests id].
    rewrite lookup_empty.
    rewrite bool_decide_eq_false_2 by (intros [? ?]; discriminate).
    cbn [fst snd map id]. now rewrite with_ticks_same. }
  rewrite Hsecond. cbn [fst snd].
  split; [reflexivity|]. split; [reflexivity|].
  split; [cbn; lia|].
  rewrite issue_world_fields.
  cbn [fold_left fetchLog inflightRequests finallyCallbacks w2 next_id].
  split; [now rewrite <- app_assoc|].
  split; [apply lookup_insert_eq|].
  set (w3 := mkWorld _ _ _ _ _ _ _ _).
  destruct (settled_world_handles clock maxSize (next_id w) [k] service w3)
    as (Hflight & _).
  cbv zeta in Hflight. unfold exec in Hflight. rewrite Hflight.
  assert (Hcbs : finallyCallbacks w3 !! next_id w = Some [k]).
  { cbn [w3 finallyCallbacks]. rewrite lookup_insert_ne by lia.
    apply lookup_insert_eq. }
  rewrite Hcbs. cbn [default fold_left]. apply lookup_delete_eq.
Qed.

Lemma reset_forgets_pending_requests_witness :
  let fetch := fetchClaimableCapital ticking_clock 300000 [mkAsset "A"] in
  let w1 := exec fetch initial_world in
  let w2 := exec clearCache w1 in
  let w3 := exec fetch w2 in
  let w4 :=
    exec (operationPromise_settles ticking_clock 1000 2 ["A"]
                                   (Fulfilled [mkResult "A" "5" None])) w3 in
  fetchLog w3 = [["A"]; ["A"]] /\
  inflightRequests w3 !! "A" = Some 5%nat /\
  inflightRequests w4 !! "A" = None.
Proof.
  cbv zeta.
  destruct (reset_forgets_pending_requests
              ticking_clock 300000 1000 initial_world "A"
              (Fulfilled [mkResult "A" "5" None]))
    as (_ & _ & _ & Hlog & Hsecond & Hgone).
  - intros p _. reflexivity.
  - reflexivity.
  - reflexivity.
  - split; [exact Hlog|]. split; [exact Hsecond|exact Hgone].
Defined.

(** ** The service *)

Lemma claimable_items_settle (respond : nat -> ItemOutcome) (i : nat)
      (bondIds : list string) :
  exists results,
    Promise_all (claimable_items respond i bondIds) = inr results /\
    map bondId results = bondIds /\
    forall j r, nth_error results j = Some r ->
      match respond (i + j)%nat with
      | ItemResolved amount =>
          claimableAmount r = amount /\ result_error r = None
      | ItemRejected reason =>
          claimableAmount r = "0" /\
          result_error r = Some (error_text reason)
      end.
Proof.
  revert i. induction bondIds as [|k ks IH]; intros i.
  - exists []. repeat split. intros [|j] r; discriminate.
  - destruct (IH (S i)) as (rs & Hall & Hids & Hitems).
    cbn [claimable_items Promise_all].
    assert (Hitem : exists r0,
      claimable_item k (respond i) = inr r0 /\ bondId r0 = k /\
      match respond i with
      | ItemResolved amount =>
          claimableAmount r0 = amount /\ result_error r0 = None
      | ItemRejected reason =>
          claimableAmount r0 = "0" /\
          result_error r0 = Some (error_text reason)
      end).
    { unfold claimable_item. destruct (respond i); eexists; repeat split. }
    destruct Hitem as (r0 & -> & Hk & Hr0). rewrite Hall.
    exists (r0 :: rs). split; [reflexivity|]. split.
    + cbn. now rewrite Hk, Hids.
    + intros [|j] r Hnth; cbn in Hnth.
      * injection Hnth as <-. now replace (i + 0)%nat with i by lia.
      * replace (i + S j)%nat with (S i + j)%nat by lia. now apply Hitems.
Qed.

(** [getClaimablePrincipalForBonds] never rejects.  It answers with one
    result for each id asked, in the order asked; a call that succeeded
    gives its amount and no error, a call that failed gives ["0"] and the
    message of the error, or ["Unknown error"] when the reason is not an
    [Error]; an empty list of ids gives an empty answer. *)
Theorem service_answers_every_id
        (respond : nat -> ItemOutcome) (bondIds : list string) :
  exists results,
    getClaimablePrincipalForBonds respond bondIds = inr results /\
    map bondId results = bondIds /\
    length results = length bondIds /\
    forall j r, nth_error results j = Some r ->
      match respond j with
      | ItemResolved amount =>
          claimableAmount r = amount /\ result_error r = None
      | ItemRejected reason =>
          claimableAmount r = "0" /\
          result_error r = Some (error_text reason)
      end.
Proof.
  destruct (claimable_items_settle respond 0 bondIds)
    as (results & Hall & Hids & Hitems).
  exists results. split; [|split; [exact Hids|split; [|exact Hitems]]].
  - unfold getClaimablePrincipalForBonds.
    destruct bondIds as [|k ks]; [|exact Hall].
    cbn in Hall. now injection Hall as <-.
  - rewrite <- Hids. now rewrite length_map.
Qed.

(** The hook with this service behind it.  Whatever the single calls do,
    the batch promise is fulfilled, so the failure branch that writes
    ["Failed to load"] is not taken; and when the ids of the batch are
    distinct and the map has room for them, every id of the batch ends up
    with an entry: the amount and no error where its call succeeded,
    ["0"] and the error text where it failed. *)
Theorem service_results_reach_the_cache
        (clock : nat -> Z) (maxSize : Z) (w : World) (p : nat)
        (respond : nat -> ItemOutcome) (assetIds : list string) :
  let service :=
    service_outcome (getClaimablePrincipalForBonds respond assetIds) in
  let w' :=
    exec (operationPromise_settles clock maxSize p assetIds service) w in
  (exists results, service = Fulfilled results) /\
  (Z.of_nat (JsMap.size (entries (cache w))) + Z.of_nat (length assetIds)
     <= maxSize ->
   NoDup assetIds ->
   forall j k, nth_error assetIds j = Some k ->
     exists written,
       JsMap.get k (entries (cacheRef w'))
       = Some match respond j with
              | ItemResolved amount => mkEntry amount written None
              | ItemRejected reason =>
                  mkEntry "0" written (Some (error_text reason))
              end).
Proof.
  cbv zeta.
  destruct (claimable_items_settle respond 0 assetIds)
    as (results & Hall & Hids & Hitems).
  assert (Hservice : getClaimablePrincipalForBonds respond assetIds
                     = inr results).
  { unfold getClaimablePrincipalForBonds.
    destruct assetIds as [|k ks]; [|exact Hall].
    cbn in Hall. now injection Hall as <-. }
  rewrite Hservice. cbn [service_outcome].
  split; [eauto|].
  intros Hroom Hnd j k Hnth.
  assert (Hlen : length results = length assetIds)
    by (rewrite <- Hids; now rewrite length_map).
  assert (Hr : exists r, nth_error results j = Some r).
  { destruct (nth_error results j) as [r|] eqn:E; [eauto|].
    apply nth_error_None in E.
    assert (j < length assetIds)%nat
      by (apply nth_error_Some; congruence).
    lia. }
  destruct Hr as [r Hr].
  assert (Hkey : bondId r = k).
  { pose proof (map_nth_error bondId j results Hr) as Hm.
    rewrite Hids, Hnth in Hm. congruence. }
  unfold exec.
  rewrite operationPromise_settles_run, fetchClaimableCapital_resume_run.
  cbn [snd]. rewrite loading_fold_run. cbn [cacheRef with_loadingBonds].
  destruct (cleanup_world_frame p w) as (Hcache & _).
  rewrite <- Hcache, <- Hlen in Hroom. rewrite <- Hids in Hnd.
  destruct (write_results_entries clock maxSize results (cleanup_world p w) r
              Hroom Hnd (or_introl (nth_error_In _ _ Hr)))
    as [written Hget].
  destruct (write_results_frame clock maxSize results (cleanup_world p w))
    as (_ & _ & _ & _ & Href & _).
  rewrite Href by (intros ->; destruct j; discriminate).
  exists written. rewrite <- Hkey, Hget. f_equal.
  specialize (Hitems j r Hr). cbn [Nat.add] in Hitems.
  destruct r as [rk ra re]. cbn [claimableAmount result_error] in *.
  destruct (respond j); destruct Hitems as [-> ->]; reflexivity.
Qed.

(** ** Callers that invalidate an entry *)

Lemma leaves_store_run (callback : M unit) (w : World) :
  leaves_store callback ->
  exists w',
    callback w = (Normal tt, w') /\
    cache w' = cache w /\ cacheRef w' = cacheRef w /\
    loadingBonds w' = loadingBonds w /\
    inflightRequests w' = inflightRequests w.
Proof.
  intros H. destruct (H w) as (Hres & Hrest). unfold result, exec in *.
  destruct (callback w) as [r w']. cbn in *. subst r. eauto.
Qed.

Lemma ret_leaves_store : leaves_store (ret tt).
Proof. intros w. repeat split. Qed.

(** [handlePrimaryOperation] drops the cached entry of the asset exactly
    when the handler succeeds.  Without an amount it returns [false] and
    does nothing at all.  When the handler resolves it returns [true], the
    entry and the loading flag of the asset are gone, the other entries
    and the in-flight handles are as they were.  When the handler rejects,
    the rejection is thrown again and the cache is as it was.  The
    callbacks are those of another component: they return normally and
    leave the store alone. *)
Theorem primary_operation_invalidates_on_success_only
        (Decimal : Type) (handler : Decimal -> string -> M unit)
        (onTransactionSuccess : option (M unit))
        (setIsProcessing : bool -> M unit)
        (clock : nat -> Z) (ttl : Z) (w : World) (assetId : string) :
  World_ok w ->
  (forall b, leaves_store (setIsProcessing b)) ->
  match onTransactionSuccess with
  | Some callback => leaves_store callback
  | None => True
  end ->
  let resume :=
    handlePrimaryOperation_resume onTransactionSuccess setIsProcessing assetId
  in
  handlePrimaryOperation Decimal handler setIsProcessing None assetId w
  = (Normal (PrimaryReturned false), w) /\
  (let w' := exec (resume HandlerResolved) w in
   result (resume HandlerResolved) w = Normal true /\
   result (getCachedValue clock ttl assetId) w' = Normal None /\
   result (isLoading assetId) w' = Normal false /\
   (forall k, k <> assetId ->
      JsMap.get k (entries (cacheRef w')) = JsMap.get k (entries (cache w))) /\
   inflightRequests w' = inflightRequests w) /\
  (forall reason,
     let w' := exec (resume (HandlerRejected reason)) w in
     result (resume (HandlerRejected reason)) w = Thrown reason /\
     cache w' = cache w /\ cacheRef w' = cacheRef w /\
     inflightRequests w' = inflightRequests w).
Proof.
  intros (Hwf & Hsync & _) Hset Hsuccess. cbv zeta.
  split; [reflexivity|]. split.
  - assert (Hrun : exists w3,
      handlePrimaryOperation_resume onTransactionSuccess setIsProcessing
                                    assetId HandlerResolved w
      = (Normal true, w3) /\
      entries (cacheRef w3) = JsMap.delete assetId (entries (cache w)) /\
      loadingBonds w3 = loadingBonds w ∖ {[assetId]} /\
      inflightRequests w3 = inflightRequests w).
    { unfold handlePrimaryOperation_resume, try_catch.
      unfold bind at 1. unfold ret at 1. unfold bind at 1.
      rewrite clearCacheEntry_run. cbv zeta.
      set (w1 := mkWorld _ _ _ _ _ _ _ _).
      assert (Hcb : leaves_store match onTransactionSuccess with
                                 | Some callback => callback
                                 | None => ret tt
                                 end).
      { destruct onTransactionSuccess; [assumption|apply ret_leaves_store]. }
      destruct (leaves_store_run _ w1 Hcb)
        as (w2 & Hrun2 & Hc2 & Hr2 & Hl2 & Hf2).
      unfold bind at 1. rewrite Hrun2.
      destruct (leaves_store_run _ w2 (Hset false))
        as (w3 & Hrun3 & Hc3 & Hr3 & Hl3 & Hf3).
      unfold bind. rewrite Hrun3. unfold ret.
      exists w3. split; [reflexivity|].
      rewrite Hr3, Hr2, Hl3, Hl2, Hf3, Hf2. repeat split. }
    destruct Hrun as (w3 & Hrun & Href & Hload & Hflight).
    unfold exec, result. rewrite Hrun. cbn [fst snd].
    split; [reflexivity|]. split.
    { rewrite getCachedValue_run, Href.
      now rewrite JsMapFacts.get_delete_eq. }
    split.
    { unfold isLoading, gets. cbn [fst]. f_equal.
      apply bool_decide_eq_false_2. rewrite Hload.
      intros Hin. apply elem_of_difference in Hin as [_ Hin].
      apply Hin. now apply elem_of_singleton. }
    split; [|exact Hflight].
    intros k Hk. rewrite Href. apply JsMapFacts.get_delete_ne.
    congruence.
  - intros reason.
    assert (Hrun : exists w1,
      handlePrimaryOperation_resume onTransactionSuccess setIsProcessing
                                    assetId (HandlerRejected reason) w
      = (Thrown reason, w1) /\
      cache w1 = cache w /\ cacheRef w1 = cacheRef w /\
      inflightRequests w1 = inflightRequests w).
    { unfold handlePrimaryOperation_resume, try_catch.
      unfold bind at 1. unfold throw at 1.
      destruct (leaves_store_run _ w (Hset false))
        as (w1 & Hrun1 & Hc1 & Hr1 & _ & Hf1).
      unfold bind. rewrite Hrun1. unfold throw.
      exists w1. repeat split; assumption. }
    destruct Hrun as (w1 & Hrun & Hrest).
    unfold exec, result. rewrite Hrun. cbn [fst snd].
    split; [reflexivity|exact Hrest].
Qed.

Lemma primary_operation_invalidates_on_success_only_witness :
  let quiet := fun _ : bool => ret tt in
  let resume := handlePrimaryOperation_resume None quiet "B" in
  result (resume HandlerResolved) failed_B_world = Normal true /\
  result (getCachedValue ticking_clock 300000 "B")
         (exec (resume HandlerResolved) failed_B_world) = Normal None /\
  result (resume (HandlerRejected "reverted")) failed_B_world
  = Thrown "reverted" /\
  cache (exec (resume (HandlerRejected "reverted")) failed_B_world)
  = cache failed_B_world.
Proof.
  cbv zeta.
  destruct (primary_operation_invalidates_on_success_only
              string (fun _ _ => ret tt) None (fun _ : bool => ret tt)
              ticking_clock 300000 failed_B_world "B")
    as (_ & (Hres & Hread & _) & Hfail).
  - unfold World_ok, failed_B_world, JsMap.wf. cbn.
    split; [|split; [reflexivity|split; lia]].
    apply (bool_decide_unpack _). vm_compute. exact I.
  - intros b. apply ret_leaves_store.
  - exact I.
  - destruct (Hfail "reverted") as (Hthrown & Hcache & _).
    split; [exact Hres|]. split; [exact Hread|].
    split; [exact Hthrown|exact Hcache].
Defined.

(** The redeem form checks its input before it touches anything: without
    an amount, or with the amount 0, it throws and the world is as it was.
    With an amount it drops the cached entry of the asset before the redeem
    is submitted, so the entry is gone whether or not the redeem succeeds.
    After the redeem the table is refreshed either way; a failure is thrown
    again with its message, a success returns the result. *)
Theorem redeem_form_clears_before_submitting
        (TxResult : Type) (onSubmitRedeem : Z -> string -> M unit)
        (onAssetTableRefresh : M unit)
        (clock : nat -> Z) (ttl : Z) (w : World)
        (selectedAsset : AssetRedeemFormSelectAssetData) (amount : Z) :
  World_ok w ->
  (forall a k, leaves_store (onSubmitRedeem a k)) ->
  leaves_store onAssetTableRefresh ->
  let action := redeem_action onSubmitRedeem onAssetTableRefresh in
  let resume := redeem_action_resume TxResult onAssetTableRefresh in
  action (Some selectedAsset) None w
  = (Thrown "Redeem must have value to perform redeem", w) /\
  action (Some selectedAsset) (Some 0) w
  = (Thrown "Redeem must have value to perform redeem", w) /\
  action None (Some amount) w
  = (Thrown "Asset must be selected to perform redeem", w) /\
  (amount <> 0 ->
   let w' := exec (action (Some selectedAsset) (Some amount)) w in
   result (action (Some selectedAsset) (Some amount)) w
   = Normal RedeemAwaitingSubmit /\
   result (getCachedValue clock ttl (selected_bondId selectedAsset)) w'
   = Normal None /\
   inflightRequests w' = inflightRequests w) /\
  (forall message w0, result (resume (inl message)) w0 = Thrown message) /\
  (forall tx w0, result (resume (inr tx)) w0 = Normal tx).
Proof.
  intros (Hwf & Hsync & _) Hsubmit Hrefresh. cbv zeta.
  split; [reflexivity|]. split; [reflexivity|]. split; [reflexivity|].
  split; [|split].
  - intros Hamount.
    assert (Hrun : exists w2,
      redeem_action onSubmitRedeem onAssetTableRefresh
                    (Some selectedAsset) (Some amount) w
      = (Normal RedeemAwaitingSubmit, w2) /\
      entries (cacheRef w2)
      = JsMap.delete (selected_bondId selectedAsset) (entries (cache w)) /\
      inflightRequests w2 = inflightRequests w).
    { unfold redeem_action.
      assert (E : (amount =? 0) = false) by now apply Z.eqb_neq.
      rewrite E. unfold try_catch. unfold bind at 1.
      rewrite clearCacheEntry_run. cbv zeta.
      set (w1 := mkWorld _ _ _ _ _ _ _ _).
      destruct (leaves_store_run _ w1
                  (Hsubmit amount (selected_bondId selectedAsset)))
        as (w2 & Hrun2 & _ & Hr2 & _ & Hf2).
      unfold bind. rewrite Hrun2. unfold ret.
      exists w2. split; [reflexivity|]. rewrite Hr2, Hf2. split; reflexivity. }
    destruct Hrun as (w2 & Hrun & Href & Hflight).
    unfold exec, result. rewrite Hrun. cbn [fst snd].
    split; [reflexivity|]. split; [|exact Hflight].
    rewrite getCachedValue_run, Href.
    now rewrite JsMapFacts.get_delete_eq.
  - intros message w0. unfold result, redeem_action_resume, try_catch.
    unfold bind at 1. unfold throw at 1.
    destruct (leaves_store_run _ w0 Hrefresh) as (w1 & Hrun1 & _).
    unfold bind. now rewrite Hrun1.
  - intros tx w0. unfold result, redeem_action_resume, try_catch.
    unfold bind at 1. unfold ret at 1.
    destruct (leaves_store_run _ w0 Hrefresh) as (w1 & Hrun1 & _).
    unfold bind. now rewrite Hrun1.
Qed.

Lemma redeem_form_clears_before_submitting_witness :
  let action := redeem_action (fun _ _ => ret tt) (ret tt) in
  action (Some (mkSelected "B")) (Some 0) failed_B_world
  = (Thrown "Redeem must have value to perform redeem", failed_B_world) /\
  result (getCachedValue ticking_clock 300000 "B")
         (exec (action (Some (mkSelected "B")) (Some 7)) failed_B_world)
  = Normal None /\
  result (redeem_action_resume string (ret tt) (inl "reverted")) failed_B_world
  = Thrown "reverted".
Proof.
  cbv zeta.
  destruct (redeem_form_clears_before_submitting
              string (fun _ _ => ret tt) (ret tt)
              ticking_clock 300000 failed_B_world (mkSelected "B") 7)
    as (_ & Hzero & _ & Hvalid & Hfail & _).
  - unfold World_ok, failed_B_world, JsMap.wf. cbn.
    split; [|split; [reflexivity|split; lia]].
    apply (bool_decide_unpack _). vm_compute. exact I.
  - intros a k. apply ret_leaves_store.
  - apply ret_leaves_store.
  - split; [exact Hzero|]. split; [|apply Hfail].
    apply Hvalid. discriminate.
Defined.

Lemma write_loses_at_most_one_key_witness :
  let before := entries (cache mixed_world) in
  let after :=
    entries (cache (exec (setCachedValue sweep_clock 2 "C" "3" None)
                         mixed_world)) in
  exists victim : option string,
    (forall k, k <> "C" -> Some k <> victim ->
               JsMap.get k after = JsMap.get k before) /\
    (JsMap.size before <= S (JsMap.size after))%nat.
Proof.
  cbv zeta.
  destruct (write_loses_at_most_one_key sweep_clock 2 mixed_world "C" "3" None)
    as (victim & Hkeep & _ & Hsize & _).
  exists victim. split; [exact Hkeep|exact Hsize].
Defined.

Lemma service_answers_every_id_witness :
  let respond := fun i : nat =>
    match i with
    | 0%nat => ItemResolved "10"
    | _ => ItemRejected (ErrorObject "not found")
    end in
  exists results,
    getClaimablePrincipalForBonds respond ["A"; "B"] = inr results /\
    map bondId results = ["A"; "B"] /\
    forall r, nth_error results 1 = Some r ->
              claimableAmount r = "0" /\ result_error r = Some "not found".
Proof.
  cbv zeta.
  destruct (service_answers_every_id
              (fun i : nat =>
                 match i with
                 | 0%nat => ItemResolved "10"
                 | _ => ItemRejected (ErrorObject "not found")
                 end) ["A"; "B"])
    as (results & Hrun & Hids & _ & Hitems).
  exists results. split; [exact Hrun|]. split; [exact Hids|].
  intros r Hr. exact (Hitems 1%nat r Hr).
Defined.

Lemma service_results_reach_the_cache_witness :
  let respond := fun i : nat =>
    match i with
    | 0%nat => ItemResolved "10"
    | _ => ItemRejected OtherValue
    end in
  let service :=
    service_outcome (getClaimablePrincipalForBonds respond ["A"; "B"]) in
  let w' :=
    exec (operationPromise_settles ticking_clock 1000 2 ["A"; "B"] service)
         initial_world in
  exists written,
    JsMap.get "B" (entries (cacheRef w'))
    = Some (mkEntry "0" written (Some "Unknown error")).
Proof.
  cbv zeta.
  destruct (service_results_reach_the_cache
              ticking_clock 1000 initial_world 2
              (fun i : nat =>
                 match i with
                 | 0%nat => ItemResolved "10"
                 | _ => ItemRejected OtherValue
                 end) ["A"; "B"])
    as (_ & Hentries).
  apply (Hentries) with (j := 1%nat) (k := "B").
  - vm_compute. discriminate.
  - apply (bool_decide_unpack _). vm_compute. exact I.
  - reflexivity.
Defined.

(** ** The two sweeps *)

Lemma sweep_from_all_valid (clock : nat -> Z) (ttl : Z) t m acc :
  expired_from clock ttl t m false = false ->
  NoDup (JsMap.keys acc ++ JsMap.keys m) ->
  sweep_from clock ttl t m acc = (acc ++ m)%list.
Proof.
  revert t acc. induction m as [|[k e] m IH]; intros t acc Hflag Hnd.
  - cbn. now rewrite app_nil_r.
  - cbn [sweep_from expired_from fst snd] in *.
    destruct (clock t - timestamp e <? ttl) eqn:E.
    + cbn [JsMap.keys map fst] in Hnd.
      rewrite JsMapFacts.set_absent.
      * rewrite IH; [now rewrite <- List.app_assoc|assumption|].
        unfold JsMap.keys. rewrite map_app. cbn [map fst].
        now rewrite <- List.app_assoc.
      * apply JsMapFacts.get_None_keys. intros Hin.
        apply NoDup_app in Hnd as (_ & Hdisj & _).
        apply (Hdisj k); [now apply list_elem_of_In|left].
    + exfalso. clear - Hflag.
      assert (H : forall t m, expired_from clock ttl t m true = true).
      { intros t0 m0. revert t0. induction m0 as [|x m0 IH0]; intros t0.
        - reflexivity.
        - cbn. destruct (clock t0 - timestamp (snd x) <? ttl); apply IH0. }
      rewrite H in Hflag. discriminate.
Qed.

(** The periodic sweep and the manual sweep leave the same entries, in the
    same order, whatever the clock does while they run; they differ only
    in that the manual sweep always installs a new map object. *)
Theorem both_sweeps_leave_the_same_entries
        (clock : nat -> Z) (ttl : Z) (w : World) :
  World_ok w ->
  let manual := exec (cleanExpiredEntries clock ttl) w in
  let periodic := exec (cleanupInterval clock ttl) w in
  entries (cache periodic) = entries (cache manual) /\
  entries (cacheRef periodic) = entries (cacheRef manual) /\
  ticks periodic = ticks manual /\
  cache manual <> cache w.
Proof.
  intros (Hwf & Hsync & Hfresh & _). cbv zeta. unfold exec.
  rewrite cleanExpiredEntries_run, cleanupInterval_run. cbv zeta.
  cbn [snd cache cacheRef entries ticks].
  assert (Hnew : mkMap (next_id w)
                   (sweep_from clock ttl (ticks w) (entries (cache w)) [])
                 <> cache w).
  { intros Heq. rewrite <- Heq in Hfresh. cbn in Hfresh. lia. }
  destruct (expired_from clock ttl (ticks w) (entries (cache w)) false)
    eqn:Hflag; cbn [cache cacheRef entries ticks].
  - repeat split. exact Hnew.
  - rewrite (sweep_from_all_valid clock ttl _ _ [] Hflag) in * by exact Hwf.
    cbn [app] in *. rewrite Hsync. repeat split. exact Hnew.
Qed.

Lemma both_sweeps_leave_the_same_entries_witness :
  let manual := exec (cleanExpiredEntries late_ticking_clock 300000)
                     mixed_world in
  let periodic := exec (cleanupInterval late_ticking_clock 300000)
                       mixed_world in
  entries (cache periodic) = entries (cache manual) /\
  cache manual <> cache mixed_world.
Proof.
  cbv zeta.
  destruct (both_sweeps_leave_the_same_entries
              late_ticking_clock 300000 mixed_world)
    as (Hsame & _ & _ & Hnew).
  - unfold World_ok, mixed_world, JsMap.wf. cbn.
    split; [|split; [reflexivity|split; lia]].
    apply (bool_decide_unpack _). vm_compute. exact I.
  - split; [exact Hsame|exact Hnew].
Defined.

(** ** Failure entries in a map at capacity *)

Section FailureEntries.
Variable clock : nat -> Z.
Variable maxSize : Z.

Lemma fresh_count_delete since k (m : list (string * CachedRedeemableCapital)) :
  (fresh_count since (JsMap.delete k m) <= fresh_count since m)%nat.
Proof.
  unfold fresh_count. induction m as [|[k0 v0] m IH]; cbn; [lia|].
  destruct (String.eqb k k0); cbn;
    destruct (since <=? timestamp v0); cbn; lia.
Qed.

Lemma fresh_count_set since k v (m : list (string * CachedRedeemableCapital)) :
  (fresh_count since (JsMap.set k v m) <= S (fresh_count since m))%nat.
Proof.
  unfold fresh_count. induction m as [|[k0 v0] m IH]; cbn.
  - destruct (since <=? timestamp v); cbn; lia.
  - destruct (String.eqb k k0); cbn.
    + destruct (since <=? timestamp v), (since <=? timestamp v0); cbn; lia.
    + destruct (since <=? timestamp v0); cbn; lia.
Qed.

Lemma fresh_count_evict since now m :
  (fresh_count since (evict_contents now m) <= fresh_count since m)%nat.
Proof.
  unfold evict_contents.
  destruct (fst (fold_left oldest_step m (None, now))) as [k|]; [|lia].
  destruct (truthy k); [apply fresh_count_delete|lia].
Qed.

(** A map with fewer fresh entries than entries holds an older one. *)
Lemma fresh_count_older since (m : list (string * CachedRedeemableCapital)) :
  (fresh_count since m < length m)%nat ->
  exists x, In x m /\ timestamp (snd x) < since.
Proof.
  unfold fresh_count. induction m as [|[k0 v0] m IH]; cbn; [lia|].
  destruct (since <=? timestamp v0) eqn:E; cbn.
  - intros H. destruct IH as (x & Hx & Hold); [lia|].
    exists x. split; [now right|exact Hold].
  - intros _. exists (k0, v0). split; [now left|].
    cbn. now apply Z.leb_gt.
Qed.

(** When the map holds an entry older than [since], the eviction block
    removes none stamped [since] or later. *)
Lemma evict_contents_keeps_fresh since now m k entry :
  JsMap.wf m -> since <= now ->
  (exists x, In x m /\ timestamp (snd x) < since) ->
  JsMap.get k m = Some entry -> since <= timestamp entry ->
  JsMap.get k (evict_contents now m) = Some entry.
Proof.
  intros Hwf Hnow (x & Hx & Hold) Hget Hfresh. unfold evict_contents.
  destruct (oldest_scan_spec m None now)
    as [[Hsame Hall]|(m1 & kv & ev & m2 & Hm & Hrun & Hlt & H1 & H2)].
  - specialize (Hall x Hx). lia.
  - rewrite Hrun. cbn [fst]. destruct (truthy kv); [|assumption].
    rewrite JsMapFacts.get_delete_ne; [assumption|].
    intros <-.
    assert (Hin : In (kv, ev) m).
    { rewrite Hm. apply in_or_app. right. now left. }
    rewrite (JsMapFacts.In_get _ _ _ Hwf Hin) in Hget.
    injection Hget as <-.
    assert (Hmin : timestamp ev <= timestamp (snd x)).
    { rewrite Hm in Hx. apply in_app_or in Hx as [Hx|[<-|Hx]].
      - specialize (H1 x Hx). lia.
      - cbn. lia.
      - exact (H2 x Hx). }
    lia.
Qed.

(** The failure entries of a batch that fits: when the clock does not run
    backwards and [n] counts the entries stamped [since] or later, no
    write of the batch evicts an entry stamped [since] or later as long
    as [n] plus the writes to come stay within [maxSize]. *)
Lemma write_failures_fits since n ids w k :
  (forall i j, (i <= j)%nat -> clock i <= clock j) ->
  JsMap.wf (entries (cache w)) ->
  since <= clock (ticks w) ->
  (fresh_count since (entries (cache w)) <= n)%nat ->
  Z.of_nat n + Z.of_nat (length ids) <= maxSize ->
  In k ids \/
  (exists entry,
      JsMap.get k (entries (cache w)) = Some entry /\
      value entry = "0" /\ error entry = Some "Failed to load" /\
      since <= timestamp entry) ->
  is_failure_entry
    (JsMap.get k (entries (cache (write_failures clock maxSize ids w)))).
Proof.
  intros Hmono. unfold write_failures. revert n w.
  induction ids as [|k0 ids IH]; intros n w Hwf Hsince Hcount Hfit Hk;
    cbn [fold_left].
  - destruct Hk as [[]|(entry & Hget & Hv & He & _)].
    exists entry. auto.
  - cbn [length] in Hfit.
    set (full := maxSize <=? Z.of_nat (JsMap.size (entries (cache w)))).
    set (t := if full then S (ticks w) else ticks w).
    set (contents :=
           if full then evict_contents (clock (ticks w)) (entries (cache w))
           else entries (cache w)).
    set (w1 := setCachedValue_world clock maxSize k0 "0"
                 (Some "Failed to load") w).
    assert (Hw1 : entries (cache w1) =
                  JsMap.set k0 (mkEntry "0" (clock t) (Some "Failed to load"))
                            contents) by reflexivity.
    assert (Ht1 : ticks w1 = S t) by reflexivity.
    assert (Ht : (ticks w <= t)%nat) by (unfold t; destruct full; lia).
    assert (Hcontents_wf : JsMap.wf contents).
    { unfold contents. destruct full; [|assumption].
      now apply evict_contents_wf. }
    assert (Hkept : forall k' entry,
               JsMap.get k' (entries (cache w)) = Some entry ->
               since <= timestamp entry ->
               JsMap.get k' contents = Some entry).
    { intros k' entry Hget Hfresh. unfold contents.
      destruct full eqn:Efull; [|assumption].
      apply (evict_contents_keeps_fresh since); try assumption.
      apply fresh_count_older. unfold full in Efull.
      apply Z.leb_le in Efull. unfold JsMap.size in Efull. lia. }
    apply (IH (S n) w1).
    + rewrite Hw1. now apply JsMapFacts.wf_set.
    + rewrite Ht1. pose proof (Hmono (ticks w) (S t)). lia.
    + rewrite Hw1.
      pose proof (fresh_count_set since k0
                    (mkEntry "0" (clock t) (Some "Failed to load")) contents).
      assert ((fresh_count since contents
               <= fresh_count since (entries (cache w)))%nat).
      { unfold contents. destruct full; [apply fresh_count_evict|lia]. }
      lia.
    + lia.
    + rewrite Hw1. destruct (String.eqb k0 k) eqn:E.
      * apply String.eqb_eq in E. subst k0. right.
        rewrite JsMapFacts.get_set_eq. eexists. repeat split.
        cbn. pose proof (Hmono (ticks w) t). lia.
      * apply String.eqb_neq in E.
        destruct Hk as [[Hk|Hk]|(entry & Hget & Hv & He & Hfresh)];
          [congruence|now left|].
        right. exists entry.
        rewrite JsMapFacts.get_set_ne by assumption.
        repeat split; try assumption. now apply Hkept.
Qed.



End FailureEntries.

Lemma fresh_count_none since (m : list (string * CachedRedeemableCapital)) :
  (forall x, In x m -> timestamp (snd x) < since) ->
  fresh_count since m = 0%nat.
Proof.
  unfold fresh_count. induction m as [|x m IH]; intros Hall; [reflexivity|].
  cbn [List.filter].
  assert (E : (since <=? timestamp (snd x)) = false).
  { apply Z.leb_gt. apply Hall. now left. }
  rewrite E. apply IH. intros y Hy. apply Hall. now right.
Qed.

(** What a rejected batch leaves behind: the clean-ups, the failure
    entries, the loading flags. *)
Lemma rejected_batch_run clock maxSize p assetIds reason w :
  exec (operationPromise_settles clock maxSize p assetIds (Rejected reason)) w
  = with_loadingBonds
      (fold_left (fun s k => s ∖ {[k]}) assetIds
                 (loadingBonds
                    (write_failures clock maxSize assetIds
                                    (cleanup_world p w))))
      (write_failures clock maxSize assetIds (cleanup_world p w)).
Proof.
  unfold exec.
  rewrite operationPromise_settles_run, fetchClaimableCapital_resume_run.
  cbn [snd]. now rewrite loading_fold_run.
Qed.



(** Claim C4, as the code has it.  When the batched call rejects, the
    loading flag of every key of the batch is cleared; and every key of the
    batch holds an entry with value ["0"] and the non-empty error
    ["Failed to load"], in the state map and in the ref, provided no write
    of the batch evicts the failure entry of an earlier key.  That is so
    when the map has room for the whole batch; and, whatever the map
    holds, when the batch has at most [maxSize] keys, the clock does not
    run backwards and the entries already in the map are stamped before
    the clock reading of the write-back, so that each eviction takes one
    of them. *)
Theorem rejected_batch_is_normalized
        (clock : nat -> Z) (maxSize : Z) (w : World)
        (p : nat) (assetIds : list string) (reason : string) :
  let settle :=
    operationPromise_settles clock maxSize p assetIds (Rejected reason) in
  let w' := exec settle w in
  (forall k, In k assetIds -> result (isLoading k) w' = Normal false) /\
  (Z.of_nat (JsMap.size (entries (cache w))) + Z.of_nat (length assetIds)
     <= maxSize \/
   (Z.of_nat (length assetIds) <= maxSize /\
    JsMap.wf (entries (cache w)) /\
    (forall i j, (i <= j)%nat -> clock i <= clock j) /\
    (forall x, In x (entries (cache w)) ->
               timestamp (snd x) < clock (ticks w))) ->
   forall k, In k assetIds ->
     exists entry,
       JsMap.get k (entries (cache w')) = Some entry /\
       JsMap.get k (entries (cacheRef w')) = Some entry /\
       value entry = "0" /\
       error entry = Some "Failed to load" /\
       error entry <> Some "").
Proof.
  cbv zeta. rewrite rejected_batch_run.
  destruct (cleanup_world_frame p w) as (Hcache & _ & _ & _ & Hticks & _).
  split.
  - intros k Hk. unfold result, isLoading, gets. cbn [fst loadingBonds].
    f_equal. apply bool_decide_eq_false_2.
    now apply loading_clear_fold_out.
  - intros Hfits k Hk.
    assert (Hentry : is_failure_entry
              (JsMap.get k (entries (cache (write_failures clock maxSize
                                              assetIds (cleanup_world p w)))))).
    { destruct Hfits as [Hroom|(Hlen & Hwf & Hmono & Hold)].
      - apply write_failures_entries; [now rewrite Hcache|now left].
      - apply (write_failures_fits clock maxSize (clock (ticks w)) 0);
          try assumption.
        + now rewrite Hcache.
        + rewrite Hticks. lia.
        + rewrite Hcache, fresh_count_none by assumption. lia.
        + now left. }
    destruct Hentry as (entry & Hget & Hvalue & Herror).
    destruct (write_failures_frame clock maxSize assetIds (cleanup_world p w))
      as (_ & _ & _ & _ & Href).
    exists entry. cbn [cache cacheRef with_loadingBonds].
    rewrite Href by (intros ->; destruct Hk).
    repeat split; try assumption.
    rewrite Herror. discriminate.
Qed.

(** A map at capacity: with [maxSize = 2] and "X", "Y" cached, the
    rejected batch of "A" and "B" evicts "X" and "Y", and both failure
    entries stay. *)
Lemma rejected_batch_is_normalized_witness :
  let w := exec (fetchClaimableCapital ticking_clock 300000
                   [mkAsset "A"; mkAsset "B"]) capacity_world in
  let settle :=
    operationPromise_settles ticking_clock 2 1 ["A"; "B"]
                             (Rejected "network down") in
  let w' := exec settle w in
  JsMap.keys (entries (cache w)) = ["X"; "Y"] /\
  JsMap.keys (entries (cache w')) = ["A"; "B"] /\
  (forall k, In k ["A"; "B"] -> result (isLoading k) w' = Normal false) /\
  (forall k, In k ["A"; "B"] ->
     exists entry,
       JsMap.get k (entries (cache w')) = Some entry /\
       JsMap.get k (entries (cacheRef w')) = Some entry /\
       value entry = "0" /\
       error entry = Some "Failed to load" /\
       error entry <> Some "").
Proof.
  cbv zeta.
  destruct (rejected_batch_is_normalized
              ticking_clock 2
              (exec (fetchClaimableCapital ticking_clock 300000
                       [mkAsset "A"; mkAsset "B"]) capacity_world)
              1 ["A"; "B"] "network down") as [Hloading Hentries].
  split; [reflexivity|]. split; [reflexivity|].
  split; [exact Hloading|].
  apply Hentries. right.
  split; [cbn; lia|].
  split; [apply (bool_decide_unpack _); vm_compute; exact I|].
  split; [intros i j Hij; unfold ticking_clock; lia|].
  intros x [<-|[<-|[]]]; vm_compute; reflexivity.
Defined.

Lemma write_failures_as_writes clock maxSize ids w :
  write_failures clock maxSize ids w
  = write_all clock maxSize
              (map (fun k => (k, "0", Some "Failed to load")) ids) w.
Proof.
  unfold write_failures, write_all. revert w.
  induction ids as [|k ids IH]; intros w; [reflexivity|].
  cbn [map fold_left fst snd]. rewrite IH. f_equal.
  unfold exec. now rewrite setCachedValue_run.
Qed.

(** Among the keys [ids], either all have an entry in [m] or one has
    none. *)
Lemma some_key_absent (m : list (string * CachedRedeemableCapital)) ids :
  (forall k, In k ids -> In k (JsMap.keys m)) \/
  (exists k, In k ids /\ JsMap.get k m = None).
Proof.
  induction ids as [|k ids IH].
  - left. intros k [].
  - destruct IH as [Hall|(k' & Hin & Hnone)].
    + destruct (JsMap.get k m) as [entry|] eqn:E.
      * left. intros k' [<-|Hk']; [|auto].
        apply JsMapFacts.get_In in E.
        apply in_map_iff. now exists (k, entry).
      * right. exists k. split; [now left|assumption].
    + right. exists k'. split; [now right|assumption].
Qed.

(** The proviso of claim C4 cannot be dropped in the usual regime.  When
    every clock reading is later than the one before, no key is the empty
    string and the map is within its bound, a rejected batch of more than
    [maxSize] distinct keys leaves some key of the batch without an
    entry. *)
Theorem oversized_batch_loses_an_entry
        (clock : nat -> Z) (maxSize : Z) (w : World)
        (p : nat) (assetIds : list string) (reason : string) :
  (forall n, clock n < clock (S n)) ->
  1 <= maxSize ->
  NoDup assetIds ->
  (forall k, In k assetIds -> k <> "") ->
  Z.of_nat (JsMap.size (entries (cache w))) <= maxSize ->
  Entries_older clock w ->
  maxSize < Z.of_nat (length assetIds) ->
  let w' :=
    exec (operationPromise_settles clock maxSize p assetIds (Rejected reason))
         w in
  Z.of_nat (JsMap.size (entries (cache w'))) <= maxSize /\
  exists k, In k assetIds /\ JsMap.get k (entries (cache w')) = None.
Proof.
  intros Hclock Hpos Hnodup Hkeys Hsize Hold Hover. cbv zeta.
  rewrite rejected_batch_run. cbn [cache with_loadingBonds].
  destruct (cleanup_world_frame p w) as (Hcache & _ & _ & _ & Hticks & _).
  rewrite write_failures_as_writes.
  destruct (write_all_keeps_bound clock maxSize Hclock
              (map (fun k => (k, "0", Some "Failed to load")) assetIds)
              (cleanup_world p w)) as [Hbound _]; try assumption.
  - now rewrite Hcache.
  - unfold Entries_older. now rewrite Hcache, Hticks.
  - intros x Hx. apply in_map_iff in Hx as (k & <- & Hk). cbn.
    now apply Hkeys.
  - split; [exact Hbound|].
    set (m := entries (cache (write_all clock maxSize _ (cleanup_world p w))))
      in *.
    destruct (some_key_absent m assetIds) as [Hall|Hsome]; [|exact Hsome].
    exfalso.
    assert (Hlen : (length assetIds <= length (JsMap.keys m))%nat).
    { apply submseteq_length. apply NoDup_submseteq; [assumption|].
      intros k Hk. apply list_elem_of_In. apply Hall.
      now apply list_elem_of_In. }
    unfold JsMap.keys in Hlen. rewrite length_map in Hlen.
    unfold JsMap.size in Hbound. lia.
Qed.

(** The batch of "A" and "B" against [maxSize = 1]. *)
Lemma oversized_batch_loses_an_entry_witness :
  let w := exec (fetchClaimableCapital ticking_clock 300000
                   [mkAsset "A"; mkAsset "B"]) initial_world in
  let w' :=
    exec (operationPromise_settles ticking_clock 1 2 ["A"; "B"]
                                   (Rejected "network down")) w in
  Z.of_nat (JsMap.size (entries (cache w'))) <= 1 /\
  exists k, In k ["A"; "B"] /\ JsMap.get k (entries (cache w')) = None.
Proof.
  cbv zeta.
  apply (oversized_batch_loses_an_entry ticking_clock 1
           (exec (fetchClaimableCapital ticking_clock 300000
                    [mkAsset "A"; mkAsset "B"]) initial_world)
           2 ["A"; "B"] "network down").
  - intros n. unfold ticking_clock. lia.
  - lia.
  - apply (bool_decide_unpack _). vm_compute. exact I.
  - intros k [<-|[<-|[]]]; discriminate.
  - vm_compute. discriminate.
  - intros x [].
  - vm_compute. reflexivity.
Defined.

(** ** Nothing to fetch *)

(** The filter keeps nothing when every asset is in flight or has an
    entry that is valid at every clock reading the filter can make: it
    reads the clock at most once per asset. *)
Lemma needing_fetch_none (clock : nat -> Z) (ttl : Z)
      cached (inflight : gmap string nat) t hi assets :
  (t + length assets <= hi)%nat ->
  (forall a, In a assets ->
     is_Some (inflight !! id a) \/
     exists entry,
       JsMap.get (id a) cached = Some entry /\
       forall t', (t <= t' < hi)%nat -> clock t' - timestamp entry < ttl) ->
  fst (needing_fetch clock ttl cached inflight t assets) = [].
Proof.
  revert t. induction assets as [|a rest IH]; intros t Hhi Hall;
    [reflexivity|].
  cbn [needing_fetch]. cbn [length] in Hhi.
  assert (Hrest : forall t0, (t <= t0 <= S t)%nat ->
            fst (needing_fetch clock ttl cached inflight t0 rest) = []).
  { intros t0 Ht0. apply IH; [lia|]. intros a' Ha'.
    destruct (Hall a' (or_intror Ha')) as [H|(entry & Hget & Hvalid)];
      [now left|].
    right. exists entry. split; [assumption|].
    intros t' Ht'. apply Hvalid. lia. }
  destruct (Hall a (or_introl eq_refl)) as [Hpending|(entry & Hget & Hvalid)].
  - rewrite (bool_decide_eq_true_2 _ Hpending).
    destruct (JsMap.get (id a) cached) as [entry|].
    + destruct (clock t - timestamp entry <? ttl); apply Hrest; lia.
    + apply Hrest. lia.
  - rewrite Hget.
    assert (E : (clock t - timestamp entry <? ttl) = true).
    { apply Z.ltb_lt. apply Hvalid. lia. }
    rewrite E. apply Hrest. lia.
Qed.

(** When every asset asked for is in flight or has an entry that is still
    valid while the call runs (at each of the clock readings the call
    makes, at most one per asset), the call sends nothing to the service
    and changes no flag, no handle and no entry; it waits on the handles
    of the assets in flight, in the order asked, or returns at once when
    there are none.  An empty list of assets is the simplest case. *)
Theorem nothing_to_fetch
        (clock : nat -> Z) (ttl : Z) (w : World)
        (assets : list BondingStatus) :
  (forall a, In a assets ->
     is_Some (inflightRequests w !! id a) \/
     exists entry,
       JsMap.get (id a) (entries (cacheRef w)) = Some entry /\
       forall t, (ticks w <= t < ticks w + length assets)%nat ->
                 clock t - timestamp entry < ttl) ->
  let call := fetchClaimableCapital clock ttl assets in
  let w' := exec call w in
  let waiting :=
    List.filter (fun a => bool_decide (is_Some (inflightRequests w !! id a)))
                assets in
  fetchLog w' = fetchLog w /\
  loadingBonds w' = loadingBonds w /\
  inflightRequests w' = inflightRequests w /\
  finallyCallbacks w' = finallyCallbacks w /\
  cache w' = cache w /\ cacheRef w' = cacheRef w /\
  result call w
  = Normal match waiting with
           | [] => Returned
           | _ :: _ =>
               AwaitingInflight
                 (map (fun a => inflightRequests w !! id a) waiting)
           end.
Proof.
  intros Hall. cbv zeta. unfold exec, result.
  rewrite fetchClaimableCapital_run. cbv zeta.
  rewrite (needing_fetch_none clock ttl _ _ _
             (ticks w + length assets)%nat _ (Nat.le_refl _) Hall).
  cbn [fst snd cache cacheRef fetchLog loadingBonds inflightRequests
       finallyCallbacks with_ticks].
  repeat (split; [reflexivity|]).
  destruct (List.filter _ assets) as [|a waiting]; [reflexivity|].
  cbn [length Nat.ltb Nat.leb]. f_equal. f_equal.
  apply (fold_append_map (fun a => inflightRequests w !! id a)
                         (a :: waiting) []).
Qed.

(** "B" is cached and still valid, "C" is in flight: asking for both
    sends nothing and waits on the request of "C". *)
Lemma nothing_to_fetch_witness :
  let w := exec (fetchClaimableCapital late_ticking_clock 300000
                   [mkAsset "C"]) mixed_world in
  let call :=
    fetchClaimableCapital late_ticking_clock 300000
                          [mkAsset "B"; mkAsset "C"] in
  JsMap.get "B" (entries (cacheRef w)) = Some (mkEntry "2" 250000 None) /\
  inflightRequests w !! "B" = None /\
  inflightRequests w !! "C" = Some 1%nat /\
  fetchLog w = [["C"]] /\
  fetchLog (exec call w) = [["C"]] /\
  result call w = Normal (AwaitingInflight [Some 1%nat]).
Proof.
  cbv zeta.
  destruct (nothing_to_fetch
              late_ticking_clock 300000
              (exec (fetchClaimableCapital late_ticking_clock 300000
                       [mkAsset "C"]) mixed_world)
              [mkAsset "B"; mkAsset "C"])
    as (Hlog & _ & _ & _ & _ & _ & Hres).
  - intros a [<-|[<-|[]]].
    + right. exists (mkEntry "2" 250000 None). split; [reflexivity|].
      intros t Ht.
      assert (Hticks :
        ticks (exec (fetchClaimableCapital late_ticking_clock 300000
                       [mkAsset "C"]) mixed_world) = 0%nat) by reflexivity.
      rewrite Hticks in Ht. cbn [length] in Ht.
      unfold late_ticking_clock. cbn [timestamp]. lia.
    + left. vm_compute. eauto.
  - split; [reflexivity|]. split; [reflexivity|]. split; [reflexivity|].
    split; [reflexivity|]. split; [exact Hlog|exact Hres].
Defined.

(** ** Reads and writes around a render *)

(** A render applies the updates.  On a provider with nothing queued,
    [setCachedValue], [clearCacheEntry], [setLoadingState], the part of
    [fetchClaimableCapital] before its [await] and its continuation leave,
    after the next render, the store left by applying each of their
    updates as it is issued, whether or not React runs the first updater
    at the call; and they return the same. *)
Theorem a_render_applies_the_updates
        (clock : nat -> Z) (ttl maxSize : Z) (eager : bool) (f : Fiber) :
  cacheUpdates f = [] -> loadingUpdates f = [] ->
  (forall bondId value error,
     rendered_after
       (Queued.setCachedValue clock maxSize eager bondId value error) f
     = applied (setCachedValue clock maxSize bondId value error) (store f)) /\
  (forall bondId,
     rendered_after (Queued.clearCacheEntry eager bondId) f
     = applied (clearCacheEntry bondId) (store f)) /\
  (forall bondId loading,
     rendered_after (Queued.setLoadingState bondId loading) f
     = applied (setLoadingState bondId loading) (store f)) /\
  (forall assets,
     Queued.qresult (Queued.fetchClaimableCapital clock ttl assets) f
     = result (fetchClaimableCapital clock ttl assets) (store f) /\
     rendered_after (Queued.fetchClaimableCapital clock ttl assets) f
     = applied (fetchClaimableCapital clock ttl assets) (store f)) /\
  (forall p assetIds service,
     Queued.qresult
       (Queued.operationPromise_settles clock maxSize eager p assetIds
                                        service) f
     = result (operationPromise_settles clock maxSize p assetIds service)
              (store f) /\
     rendered_after
       (Queued.operationPromise_settles clock maxSize eager p assetIds
                                        service) f
     = applied (operationPromise_settles clock maxSize p assetIds service)
               (store f)).
Proof.
  intros Hc Hl. split; [|split; [|split; [|split]]].
  - intros bondId value error. unfold rendered_after.
    rewrite (setCachedValue_rendered clock maxSize eager) by assumption.
    unfold applied, exec. now rewrite setCachedValue_run.
  - intros bondId. unfold rendered_after.
    now rewrite (clearCacheEntry_rendered eager) by assumption.
  - intros bondId loading.
    unfold rendered_after, applied, Queued.qexec, Queued.setLoadingState,
      Queued.setLoadingBonds, Queued.render.
    cbn [snd store cacheUpdates loadingUpdates]. rewrite Hc, Hl.
    reflexivity.
  - intros assets. now apply fetchClaimableCapital_rendered.
  - intros p assetIds service.
    destruct (operationPromise_settles_rendered clock maxSize eager p assetIds
                service f Hc Hl) as [Hres Hstore].
    split; [|exact Hstore].
    rewrite Hres. unfold result.
    now rewrite operationPromise_settles_run, fetchClaimableCapital_resume_run.
Qed.

(** The rejected batch of "A" and "B", React running the first updater at
    the call: after the render both failure entries are there, as when
    the updates are applied one by one. *)
Lemma a_render_applies_the_updates_witness :
  let f :=
    rendered (exec (fetchClaimableCapital ticking_clock 300000
                      [mkAsset "A"; mkAsset "B"]) initial_world) in
  let settle :=
    Queued.operationPromise_settles ticking_clock 1000 true 2 ["A"; "B"]
                                    (Rejected "network down") in
  Queued.qresult settle f = Normal tt /\
  rendered_after settle f = both_failed_world.
Proof.
  cbv zeta.
  destruct (a_render_applies_the_updates
              ticking_clock 300000 1000 true
              (rendered (exec (fetchClaimableCapital ticking_clock 300000
                                 [mkAsset "A"; mkAsset "B"]) initial_world))
              eq_refl eq_refl)
    as (_ & _ & _ & _ & Hsettle).
  destruct (Hsettle 2%nat ["A"; "B"] (Rejected "network down"))
    as [Hresult Hstore].
  split.
  - rewrite Hresult. vm_compute. reflexivity.
  - rewrite Hstore. vm_compute. reflexivity.
Defined.






Lemma needing_fetch_reads (clock : nat -> Z) (ttl : Z) cached
      (inflight : gmap string nat) t assets :
  (snd (needing_fetch clock ttl cached inflight t assets)
   <= t + length assets)%nat.
Proof.
  revert t. induction assets as [|asset rest IH]; intros t; cbn.
  - lia.
  - destruct (JsMap.get (id asset) cached) as [entry|].
    + specialize (IH (S t)).
      destruct (clock t - timestamp entry <? ttl); [lia|].
      destruct (bool_decide _); cbn; lia.
    + specialize (IH t). destruct (bool_decide _); cbn; lia.
Qed.

(** The clears of [retryFailedFetches] do not reach its fetch.  Issued
    while an update is pending, or without React's eager path, the retry
    returns what [fetchClaimableCapital(assetsToRetry)] returns on the
    store as it is, and leaves the store that call leaves, loading flags
    apart (they wait in the queue): the same batch goes to the service,
    or none.  A key whose entry is valid while the filter runs is not
    sent, whether or not it is among the keys to retry. *)
Theorem queued_retry_is_a_plain_fetch
        (clock : nat -> Z) (ttl : Z) (eager : bool) (f : Fiber)
        (assetIds : list string) (data : list BondingStatus) :
  scheduled f = true \/ eager = false ->
  let retry := Queued.retryFailedFetches clock ttl eager assetIds data in
  let items := assetsToRetry assetIds data in
  let plain := fetchClaimableCapital clock ttl items in
  Queued.qresult retry f = result plain (store f) /\
  store (Queued.qexec retry f)
  = with_loadingBonds (loadingBonds (store f)) (exec plain (store f)) /\
  fetchLog (store (Queued.qexec retry f))
  = (fetchLog (store f) ++ batch_of (Queued.qresult retry f))%list /\
  (forall k entry,
     JsMap.get k (entries (cacheRef (store f))) = Some entry ->
     (forall t, (ticks (store f) <= t < ticks (store f) + length items)%nat ->
                clock t - timestamp entry < ttl) ->
     forall ids, In ids (batch_of (Queued.qresult retry f)) -> ~ In k ids).
Proof.
  intros Hlate. cbv zeta.
  unfold Queued.qresult, Queued.qexec, Queued.retryFailedFetches.
  unfold Queued.qbind.
  destruct (queued_clears_run eager assetIds f Hlate)
    as (updates & flags & late & Hclears).
  rewrite Hclears.
  fold (assetsToRetry assetIds data).
  destruct (queued_fetchClaimableCapital_run clock ttl
              (assetsToRetry assetIds data)
              (mkFiber (store f) updates flags late))
    as (late' & Hfetch).
  rewrite Hfetch. cbn [fst snd store].
  destruct (fetch_call_spec clock ttl (assetsToRetry assetIds data) (store f))
    as (Hbatch & Hlog & _).
  split; [reflexivity|]. split; [reflexivity|].
  split; [exact Hlog|].
  intros k entry Hget Hvalid ids Hids Hk.
  rewrite Hbatch in Hids.
  destruct (fst (needing_fetch clock ttl (entries (cacheRef (store f)))
                               (inflightRequests (store f))
                               (ticks (store f))
                               (assetsToRetry assetIds data)))
    as [|a needs] eqn:Eneeds; [destruct Hids|].
  destruct Hids as [<-|[]].
  apply in_map_iff in Hk as (asset & Hid & Hasset).
  rewrite <- Eneeds in Hasset.
  apply needing_fetch_sound in Hasset as (_ & _ & Hstale).
  rewrite Hid in Hstale.
  destruct Hstale as [Hnone|(entry' & t' & Hget' & Ht' & Hexpired)];
    [congruence|].
  assert (entry' = entry) by congruence. subst entry'.
  pose proof (needing_fetch_reads clock ttl (entries (cacheRef (store f)))
                (inflightRequests (store f)) (ticks (store f))
                (assetsToRetry assetIds data)).
  specialize (Hvalid t'). lia.
Qed.

(** The failure entry of "B" is still valid: the retry of "B" sends
    nothing. *)
Lemma queued_retry_is_a_plain_fetch_witness :
  let retry :=
    Queued.retryFailedFetches ticking_clock 300000 false ["B"]
                              [mkAsset "A"; mkAsset "B"] in
  let f := rendered both_failed_world in
  Queued.qresult retry f = Normal Returned /\
  fetchLog (store (Queued.qexec retry f)) = [["A"; "B"]].
Proof.
  cbv zeta.
  destruct (queued_retry_is_a_plain_fetch
              ticking_clock 300000 false (rendered both_failed_world)
              ["B"] [mkAsset "A"; mkAsset "B"])
    as (Hresult & _ & Hlog & _); [now right|].
  split; [rewrite Hresult; reflexivity|].
  rewrite Hlog, Hresult. reflexivity.
Defined.

(** Claim C9 fails in the code.  Both "A" and "B" hold a failure entry
    that is still valid, and nothing is in flight.

    [retryFailedFetches(['A', 'B'], data)]: whatever React does with the
    updaters, no batch the retry sends holds "B".  When React runs the
    first updater at the call, "A" alone is sent, the clear of "B" being
    queued all the same; otherwise nothing is sent.  After the render "B"
    has neither an entry nor a request.

    [retryFailedFetches(['B'], data)], the updater not run at the call:
    the clear of "B" is queued, the filter of [fetchClaimableCapital]
    reads [cacheRef], still holding the entry of "B", and nothing is
    sent. *)
Theorem retry_filters_on_the_stale_ref :
  let data := [mkAsset "A"; mkAsset "B"] in
  let f := rendered both_failed_world in
  let retry_AB eager :=
    Queued.retryFailedFetches ticking_clock 300000 eager ["A"; "B"] data in
  let retry_B :=
    Queued.retryFailedFetches ticking_clock 300000 false ["B"] data in
  (JsMap.get "B" (entries (cacheRef (store f)))
   = Some (mkEntry "0" 101 (Some "Failed to load")) /\
   result (getCachedValue ticking_clock 300000 "B") (store f)
   = Normal (Some (mkEntry "0" 101 (Some "Failed to load"))) /\
   inflightRequests (store f) !! "A" = None /\
   inflightRequests (store f) !! "B" = None /\
   fetchLog (store f) = [["A"; "B"]]) /\
  (forall eager,
     let f' := Queued.qexec Queued.render (Queued.qexec (retry_AB eager) f) in
     fetchLog (store f')
     = ([["A"; "B"]] ++ batch_of (Queued.qresult (retry_AB eager) f))%list /\
     (forall ids, In ids (batch_of (Queued.qresult (retry_AB eager) f)) ->
                  ~ In "B" ids) /\
     JsMap.get "B" (entries (cacheRef (store f'))) = None /\
     inflightRequests (store f') !! "B" = None) /\
  Queued.qresult (retry_AB true) f = Normal (AwaitingOperation 6 ["A"]) /\
  Queued.qresult (retry_AB false) f = Normal Returned /\
  Queued.qresult retry_B f = Normal Returned /\
  fetchLog (store (Queued.qexec retry_B f)) = [["A"; "B"]] /\
  (let f' := Queued.qexec Queued.render (Queued.qexec retry_B f) in
   JsMap.get "B" (entries (cacheRef (store f'))) = None /\
   inflightRequests (store f') !! "B" = None /\
   fetchLog (store f') = [["A"; "B"]]).
Proof.
  cbv zeta.
  assert (Heager :
    Queued.qresult
      (Queued.retryFailedFetches ticking_clock 300000 true ["A"; "B"]
                                 [mkAsset "A"; mkAsset "B"])
      (rendered both_failed_world)
    = Normal (AwaitingOperation 6 ["A"])) by (vm_compute; reflexivity).
  assert (Hlate :
    Queued.qresult
      (Queued.retryFailedFetches ticking_clock 300000 false ["A"; "B"]
                                 [mkAsset "A"; mkAsset "B"])
      (rendered both_failed_world)
    = Normal Returned) by (vm_compute; reflexivity).
  split; [repeat split; vm_compute; reflexivity|].
  split.
  { intros [|].
    - rewrite Heager. cbn [batch_of].
      split; [vm_compute; reflexivity|].
      split; [|split; vm_compute; reflexivity].
      intros ids [<-|[]] [H|[]]. discriminate.
    - rewrite Hlate. cbn [batch_of].
      split; [vm_compute; reflexivity|].
      split; [|split; vm_compute; reflexivity].
      intros ids []. }
  split; [exact Heager|]. split; [exact Hlate|].
  repeat split; vm_compute; reflexivity.
Qed.
